(** * Provider-process orchestration of the Discord bridge

    A shallow embedding of [src/claude/manager.ts], [src/utils/shell.ts],
    the message intake and the slash commands of [src/bot/client.ts], the
    tables of [src/db/database.ts] and the file names of
    [src/utils/attachments.ts], with the properties of the orchestration
    core stated and proved over it.

    Conventions of the embedding.
    - A JavaScript string is a [string]; every [ascii] stands for one code
      unit, so the strings covered are those whose code units are below 256.
      Only where the bytes of the child's stdout become text ([Utf8],
      [Stdout]) a string is the list of its code units, of any value.
    - A [Map] is a [gmap]; an object literal used as a record is a [Record].
    - A method of [ClaudeManager] is a computation over a state that holds
      the manager's maps, the database tables, the directories and files
      that exist, and the log of what was done to the outside world
      (signals, stdin writes, chat calls, console errors), oldest first.
    - A statement that can throw is a computation that ends with a value
      or with what it threw; a [try] hands what its block threw to the
      [catch]. *)

From Stdlib Require Import String Ascii List Bool Arith NArith Lia.
From Stdlib Require Strings.Byte.
From Stdlib Require DecimalString DecimalPos.
From stdpp Require Import base option gmap strings list.

Local Open Scope string_scope.
Local Open Scope list_scope.
#[local] Set Warnings "-register-all".

(** String concatenation is written [+:+]; it reduces by [simpl] here. *)
#[local] Arguments String.append !s1 s2 : simpl nomatch.

(** ** JavaScript string primitives *)

Module Js.

Definition nl : ascii := "010"%char.

(** The one-character string of a newline. *)
Definition LF : string := String nl EmptyString.

(** [String.prototype.split] with a one-character separator: the result
    always has at least one piece; [''.split(sep)] is [['']]. *)
Fixpoint split (sep : ascii) (s : string) : list string :=
  match s with
  | EmptyString => [EmptyString]
  | String c s' =>
      if Ascii.eqb c sep then EmptyString :: split sep s'
      else match split sep s' with
           | p :: ps => String c p :: ps
           | [] => [String c EmptyString]
           end
  end.

(** WhiteSpace and LineTerminator code units below 256: TAB, LF, VT, FF,
    CR, SP and NBSP. *)
Definition is_space (c : ascii) : bool :=
  let n := nat_of_ascii c in
  ((9 <=? n) && (n <=? 13) || (n =? 32) || (n =? 160))%nat.

Fixpoint trimStart (s : string) : string :=
  match s with
  | EmptyString => EmptyString
  | String c s' => if is_space c then trimStart s' else s
  end.

(** [trimEnd] keeps a character when it is not a space or when something
    that is kept follows it. *)
Fixpoint trimEnd (s : string) : string :=
  match s with
  | EmptyString => EmptyString
  | String c s' =>
      match trimEnd s' with
      | EmptyString => if is_space c then EmptyString else String c EmptyString
      | t => String c t
      end
  end.

Definition trim (s : string) : string := trimEnd (trimStart s).

(** Truthiness of a string: the empty string is the only falsy one. *)
Definition truthy (s : string) : bool :=
  match s with EmptyString => false | _ => true end.

(** [s.substring(0, n)] *)
Fixpoint take (n : nat) (s : string) : string :=
  match n, s with
  | S n', String c s' => String c (take n' s')
  | _, _ => EmptyString
  end.

(** [parts.join(sep)] *)
Fixpoint join (sep : string) (parts : list string) : string :=
  match parts with
  | [] => EmptyString
  | [p] => p
  | p :: ps => p +:+ sep +:+ join sep ps
  end.

(** [s.replace(/c/g, by)] for a one-character pattern and a replacement
    without [$] patterns. *)
Fixpoint replaceAllChar (c : ascii) (by_ : string) (s : string) : string :=
  match s with
  | EmptyString => EmptyString
  | String d s' =>
      if Ascii.eqb d c then by_ +:+ replaceAllChar c by_ s'
      else String d (replaceAllChar c by_ s')
  end.

(** A text written with a backquote for every double quote, for the
    examples. *)
Definition bq (s : string) : string :=
  replaceAllChar "`" (String "034" EmptyString) s.

(** *** Property order of an ordinary object

    [o[k] = v] keeps the place of a key that is there already; a new key
    that is an array index goes among the array indices, in numeric order
    and before every other key; any other new key goes last. *)

Definition is_digit (c : ascii) : bool :=
  let n := nat_of_ascii c in ((48 <=? n) && (n <=? 57))%nat.

(** A canonical numeric string of an integer up to 2^32 - 2. *)
Definition is_array_index (k : string) : bool :=
  match k with
  | EmptyString => false
  | String c rest =>
      forallb is_digit (list_ascii_of_string k)
      && (negb (Ascii.eqb c "0") || String.eqb rest EmptyString)
      && ((String.length k <? 10)%nat
          || ((String.length k =? 10)%nat
              && negb (String.ltb "4294967294" k)))
  end.

(** Numeric order of two array indices. *)
Definition index_lt (a b : string) : bool :=
  (String.length a <? String.length b)%nat
  || ((String.length a =? String.length b)%nat && String.ltb a b).

Fixpoint has_key {V} (k : string) (o : list (string * V)) : bool :=
  match o with
  | [] => false
  | (k', _) :: o' => String.eqb k' k || has_key k o'
  end.

Fixpoint replace_value {V} (k : string) (v : V) (o : list (string * V))
  : list (string * V) :=
  match o with
  | [] => []
  | (k', v') :: o' =>
      if String.eqb k' k then (k', v) :: o'
      else (k', v') :: replace_value k v o'
  end.

Fixpoint insert_index {V} (k : string) (v : V) (o : list (string * V))
  : list (string * V) :=
  match o with
  | [] => [(k, v)]
  | (k', v') :: o' =>
      if is_array_index k' && index_lt k' k
      then (k', v') :: insert_index k v o'
      else (k, v) :: o
  end.

Definition objSet {V} (k : string) (v : V) (o : list (string * V))
  : list (string * V) :=
  if has_key k o then replace_value k v o
  else if is_array_index k then insert_index k v o
  else o ++ [(k, v)].

End Js.

(** ** Bytes to text ([Buffer.prototype.toString])

    A [data] event of a pipe carries a [Buffer]; [data.toString()] decodes
    its bytes as UTF-8, each call on its own.  The decoder is the one of
    the Encoding Standard (UTF-8 decoder, with U+FFFD for every maximal
    ill-formed part); its code points are written as UTF-16 code units. *)

Module Utf8.
Local Open Scope N_scope.

Record state := {
  code_point : N;
  bytes_seen : N;
  bytes_needed : N;
  lower : N;
  upper : N
}.

Definition init : state :=
  {| code_point := 0; bytes_seen := 0; bytes_needed := 0;
     lower := 0x80; upper := 0xBF |}.

Definition replacement : N := 0xFFFD.

(** A byte read when no sequence is open. *)
Definition start (b : N) : list N * state :=
  if b <=? 0x7F then ([b], init)
  else if (0xC2 <=? b) && (b <=? 0xDF) then
    ([], {| code_point := N.land b 0x1F; bytes_seen := 0; bytes_needed := 1;
            lower := 0x80; upper := 0xBF |})
  else if (0xE0 <=? b) && (b <=? 0xEF) then
    ([], {| code_point := N.land b 0xF; bytes_seen := 0; bytes_needed := 2;
            lower := if b =? 0xE0 then 0xA0 else 0x80;
            upper := if b =? 0xED then 0x9F else 0xBF |})
  else if (0xF0 <=? b) && (b <=? 0xF4) then
    ([], {| code_point := N.land b 0x7; bytes_seen := 0; bytes_needed := 3;
            lower := if b =? 0xF0 then 0x90 else 0x80;
            upper := if b =? 0xF4 then 0x8F else 0xBF |})
  else ([replacement], init).

(** One byte: the code points it completes and the state it leaves.  A
    byte that cannot continue the open sequence ends it with U+FFFD and
    is read again with no sequence open. *)
Definition step (st : state) (b : N) : list N * state :=
  if bytes_needed st =? 0 then start b
  else if negb ((lower st <=? b) && (b <=? upper st)) then
    let '(out, st') := start b in (replacement :: out, st')
  else
    let cp := N.lor (N.shiftl (code_point st) 6) (N.land b 0x3F) in
    let seen := bytes_seen st + 1 in
    if seen =? bytes_needed st then ([cp], init)
    else ([], {| code_point := cp; bytes_seen := seen;
                 bytes_needed := bytes_needed st;
                 lower := 0x80; upper := 0xBF |}).

Fixpoint steps (st : state) (bytes : list Byte.byte) : list N * state :=
  match bytes with
  | [] => ([], st)
  | b :: bs =>
      let '(out, st') := step st (Byte.to_N b) in
      let '(outs, st'') := steps st' bs in
      (out ++ outs, st'')
  end.

(** The end of the bytes: a sequence left open is ill-formed. *)
Definition flush (st : state) : list N :=
  if bytes_needed st =? 0 then [] else [replacement].

(** The code points of a byte sequence. *)
Definition decode (bytes : list Byte.byte) : list N :=
  let '(out, st) := steps init bytes in out ++ flush st.

(** The code units of a code point. *)
Definition utf16 (cp : N) : list N :=
  if cp <? 0x10000 then [cp]
  else [0xD800 + N.shiftr (cp - 0x10000) 10;
        0xDC00 + N.land (cp - 0x10000) 0x3FF].

(** [buf.toString()] *)
Definition toString (bytes : list Byte.byte) : list N :=
  flat_map utf16 (decode bytes).

(** The bytes end where a character ends. *)
Definition whole_characters (bytes : list Byte.byte) : bool :=
  bytes_needed (snd (steps init bytes)) =? 0.

(** The bytes a child writes for a string of the embedding: one byte for
    a code unit below 128, two for the others. *)
Definition encode_unit (c : ascii) : list Byte.byte :=
  let n := N_of_ascii c in
  if n <? 128 then [byte_of_ascii c]
  else [byte_of_ascii (ascii_of_N (192 + N.shiftr n 6));
        byte_of_ascii (ascii_of_N (128 + N.land n 63))].

Fixpoint encode (s : string) : list Byte.byte :=
  match s with
  | EmptyString => []
  | String c s' => encode_unit c ++ encode s'
  end.

End Utf8.

(** ** The [data] handler on the bytes of the pipe

    [runClaudeCode] and [runCodex] share the same handler:
<<
    claude.stdout.on("data", (data) => {
      const rawData = data.toString();
      buffer += rawData;
      const lines = buffer.split("\n");
      buffer = lines.pop() || "";
      for (const line of lines) { ... }
    });
>>
*)

Module Stdout.

(** A JavaScript string as its code units. *)
Definition text := list N.

Definition LF : N := 10%N.

(** [s.split("\n")] *)
Fixpoint split (s : text) : list text :=
  match s with
  | [] => [[]]
  | u :: s' =>
      if N.eqb u LF then [] :: split s'
      else match split s' with
           | p :: ps => (u :: p) :: ps
           | [] => [[u]]
           end
  end.

(** One [data] event: [data.toString()] is appended to the buffer. *)
Definition on_data (buffer : text) (data : list Byte.byte)
  : list text * text :=
  let rawData := Utf8.toString data in
  let lines := split (buffer ++ rawData) in
  (removelast lines, List.last lines []).

Fixpoint feed (buffer : text) (chunks : list (list Byte.byte))
  : list text * text :=
  match chunks with
  | [] => ([], buffer)
  | c :: cs =>
      let '(ls, b) := on_data buffer c in
      let '(ls', b') := feed b cs in
      (ls ++ ls', b')
  end.

Definition run (chunks : list (list Byte.byte)) : list text * text :=
  feed [] chunks.

(** The full output of the process. *)
Definition output (chunks : list (list Byte.byte)) : list Byte.byte :=
  concat chunks.

(** What one split of a whole text frames. *)
Definition framed (s : text) : list text * text :=
  (removelast (split s), List.last (split s) []).

(** The code units of a string of the embedding. *)
Definition units (s : string) : text :=
  List.map N_of_ascii (list_ascii_of_string s).

End Stdout.

(** ** The line framer on the strings of the embedding

    The same framing, with [rawData] a string of the embedding
    ([on_data_units] and [run_encoded] relate the two):
<<
      buffer += rawData;
      const lines = buffer.split("\n");
      buffer = lines.pop() || "";
      for (const line of lines) { if (line.trim()) { ... } }
>>
*)

Module Framer.

(** One [data] event: the complete lines it hands to the loop and the
    buffer it leaves behind. *)
Definition on_data (buffer rawData : string) : list string * string :=
  let lines := Js.split Js.nl (buffer +:+ rawData) in
  (removelast lines, List.last lines EmptyString).

(** The guard of the loop body, [if (line.trim())]. *)
Definition nonblank (line : string) : bool := Js.truthy (Js.trim line).

(** The lines that reach the parser. *)
Definition processed (lines : list string) : list string :=
  List.filter nonblank lines.

(** A whole stream: the handler is run once per chunk, threading the
    buffer. *)
Fixpoint feed (buffer : string) (chunks : list string)
  : list string * string :=
  match chunks with
  | [] => ([], buffer)
  | c :: cs =>
      let '(ls, b) := on_data buffer c in
      let '(ls', b') := feed b cs in
      (ls ++ ls', b')
  end.

(** [let buffer = ""] before the first chunk. *)
Definition run (chunks : list string) : list string * string :=
  feed EmptyString chunks.

(** The full output of the process. *)
Definition output (chunks : list string) : string :=
  fold_right String.append EmptyString chunks.

(** What one split of a whole text frames. *)
Definition framed (s : string) : list string * string :=
  (removelast (Js.split Js.nl s), List.last (Js.split Js.nl s) EmptyString).

End Framer.

(** ** Shell command construction ([src/utils/shell.ts]) *)

Module Shell.

Definition escapeShellString (str : string) : string :=
  "'" +:+ Js.replaceAllChar "'"%char "'\''" str +:+ "'".

(** The types of [src/db/database.ts] that select a command line. *)
Inductive PermissionMode := auto | plan | approve.
Inductive Provider := claude | codex.

(** [commandParts.splice(3, 0, "--resume", sessionId)] *)
Definition splice3 (extra parts : list string) : list string :=
  firstn 3 parts ++ extra ++ skipn 3 parts.

(** [buildClaudeCommand]. [createSessionMcpConfig] writes a file under a
    fresh name and returns its path; the path is the argument
    [sessionMcpConfigPath]. *)
Definition claudeCommandParts
    (workingDir prompt : string) (sessionId : option string)
    (sessionMcpConfigPath : string) (mode : PermissionMode)
    (model : string) : list string :=
  let escapedPrompt := escapeShellString prompt in
  let commandParts :=
    ["cd " +:+ workingDir; "&&"; "claude"; "--output-format"; "stream-json";
     "--model"; model; "-p"; escapedPrompt; "--verbose"] in
  let commandParts :=
    match mode with
    | plan =>
        commandParts ++ ["--permission-mode"; "plan"]
          ++ ["--mcp-config"; sessionMcpConfigPath]
          ++ ["--permission-prompt-tool";
              "mcp__discord-permissions__approve_tool"]
          ++ ["--allowedTools"; "mcp__discord-permissions"]
    | approve =>
        commandParts ++ ["--mcp-config"; sessionMcpConfigPath]
          ++ ["--permission-prompt-tool";
              "mcp__discord-permissions__approve_tool"]
          ++ ["--allowedTools"; "mcp__discord-permissions"]
    | auto => commandParts ++ ["--dangerously-skip-permissions"]
    end in
  match sessionId with
  | Some sid =>
      if Js.truthy sid then splice3 ["--resume"; sid] commandParts
      else commandParts
  | None => commandParts
  end.

Definition buildClaudeCommand
    (workingDir prompt : string) (sessionId : option string)
    (sessionMcpConfigPath : string) (mode : PermissionMode)
    (model : string) : string :=
  Js.join " "
    (claudeCommandParts workingDir prompt sessionId sessionMcpConfigPath
       mode model).

Definition codexCommandParts
    (workingDir prompt : string) (sessionId : option string)
  : list string :=
  let escapedPrompt := escapeShellString prompt in
  match sessionId with
  | Some sid =>
      if Js.truthy sid then
        ["codex"; "exec"; "resume"; "--json";
         "--dangerously-bypass-approvals-and-sandbox"; sid; escapedPrompt]
      else
        ["codex"; "exec"; "--json";
         "--dangerously-bypass-approvals-and-sandbox"; "-C"; workingDir;
         escapedPrompt]
  | None =>
      ["codex"; "exec"; "--json";
       "--dangerously-bypass-approvals-and-sandbox"; "-C"; workingDir;
       escapedPrompt]
  end.

Definition buildCodexCommand
    (workingDir prompt : string) (sessionId : option string) : string :=
  Js.join " " (codexCommandParts workingDir prompt sessionId).

(** *** Quote removal of the POSIX shell

    The reading side of the escaping: how [/bin/bash -c] turns one word of
    the command line back into an argument (POSIX Shell Command Language,
    2.2 Quoting).  Inside single quotes every character is literal and a
    single quote ends the quotation; outside, a backslash makes the next
    character literal (backslash-newline is a line continuation) and a
    single quote opens a quotation.  Any other unquoted character that the
    shell treats specially ends or alters the word, so the word is not a
    plain quoted word and the result is [None]; so is an unterminated
    quotation or a trailing backslash. *)

Definition is_special (c : ascii) : bool :=
  Js.is_space c ||
  existsb (Ascii.eqb c)
    ("034"%char :: list_ascii_of_string "|&;<>()$`*?[#~=%!{}").

Fixpoint unquote (in_quote : bool) (w : string) : option string :=
  match w with
  | EmptyString => if in_quote then None else Some EmptyString
  | String c w' =>
      if in_quote then
        if Ascii.eqb c "'" then unquote false w'
        else String c <$> unquote true w'
      else if Ascii.eqb c "'" then unquote true w'
      else if Ascii.eqb c "\" then
        match w' with
        | EmptyString => None
        | String d w'' =>
            if Ascii.eqb d Js.nl then unquote false w''
            else String d <$> unquote false w''
        end
      else if is_special c then None
      else String c <$> unquote false w'
  end.

(** The argument the shell passes on for the word [w]. *)
Definition shell_word_value (w : string) : option string := unquote false w.

End Shell.

(** ** JSON text ([JSON.stringify] and [JSON.parse])

    The provider's stdout is read with [JSON.parse] and its stdin is written
    with [JSON.stringify]; both are built-ins, modelled after ECMA-262 (24.5)
    and ECMA-404.  A number keeps its text. *)

Module Json.

Inductive json :=
| JNull
| JBool (b : bool)
| JNumber (text : string)
| JString (s : string)
| JArray (items : list json)
| JObject (members : list (string * json)).

Definition dq : ascii := "034"%char.
Definition bs : ascii := "092"%char.

(** *** Writing *)

Definition hex_digit (n : nat) : ascii :=
  if (n <? 10)%nat then ascii_of_nat (48 + n) else ascii_of_nat (87 + n).

(** QuoteJSONString, one code unit: the short escapes, [\u00xx] for the
    other control characters, everything else as it is. *)
Definition escape_char (c : ascii) : string :=
  let n := nat_of_ascii c in
  if (n =? 8)%nat then String bs "b"
  else if (n =? 9)%nat then String bs "t"
  else if (n =? 10)%nat then String bs "n"
  else if (n =? 12)%nat then String bs "f"
  else if (n =? 13)%nat then String bs "r"
  else if (n =? 34)%nat then String bs (String dq "")
  else if (n =? 92)%nat then String bs (String bs "")
  else if (n <? 32)%nat then
    String bs ("u00" +:+ String (hex_digit (n / 16))
                       (String (hex_digit (n mod 16)) ""))
  else String c "".

Fixpoint escape (s : string) : string :=
  match s with
  | EmptyString => EmptyString
  | String c s' => escape_char c +:+ escape s'
  end.

Definition quote (s : string) : string :=
  String dq (escape s +:+ String dq "").

(** [JSON.stringify(v)] without indentation. *)
Fixpoint stringify (v : json) : string :=
  match v with
  | JNull => "null"
  | JBool true => "true"
  | JBool false => "false"
  | JNumber text => text
  | JString s => quote s
  | JArray items => "[" +:+ Js.join "," (List.map stringify items) +:+ "]"
  | JObject members =>
      "{" +:+ Js.join ","
                (List.map (fun m => let '(k, x) := m in
                                    quote k +:+ ":" +:+ stringify x)
                          members)
          +:+ "}"
  end.

(** *** Reading *)

Definition is_ws (c : ascii) : bool :=
  let n := nat_of_ascii c in
  ((n =? 32) || (n =? 9) || (n =? 10) || (n =? 13))%nat.

Fixpoint skip_ws (s : string) : string :=
  match s with
  | String c s' => if is_ws c then skip_ws s' else s
  | EmptyString => EmptyString
  end.

Definition hex_value (c : ascii) : option nat :=
  let n := nat_of_ascii c in
  if ((48 <=? n) && (n <=? 57))%nat then Some (n - 48)
  else if ((97 <=? n) && (n <=? 102))%nat then Some (n - 87)
  else if ((65 <=? n) && (n <=? 70))%nat then Some (n - 55)
  else None.

(** The code unit of [\uh1h2h3h4]; a [string] holds the units below 256
    only, a larger one is refused. *)
Definition unicode_escape (h1 h2 h3 h4 : ascii) : option ascii :=
  a ← hex_value h1; b ← hex_value h2; c ← hex_value h3; d ← hex_value h4;
  let n := ((a * 16 + b) * 16 + c) * 16 + d in
  if (n <? 256)%nat then Some (ascii_of_nat n) else None.

Definition simple_escape (e : ascii) : option ascii :=
  if Ascii.eqb e dq then Some dq
  else if Ascii.eqb e bs then Some bs
  else if Ascii.eqb e "/" then Some "/"%char
  else if Ascii.eqb e "b" then Some "008"%char
  else if Ascii.eqb e "f" then Some "012"%char
  else if Ascii.eqb e "n" then Some "010"%char
  else if Ascii.eqb e "r" then Some "013"%char
  else if Ascii.eqb e "t" then Some "009"%char
  else None.

(** The characters of a string after its opening quote, up to and with
    the closing quote: the string and what follows it. *)
Fixpoint parse_string (s : string) : option (string * string) :=
  match s with
  | EmptyString => None
  | String c s' =>
      if Ascii.eqb c dq then Some (EmptyString, s')
      else if Ascii.eqb c bs then
        match s' with
        | EmptyString => None
        | String e s'' =>
            if Ascii.eqb e "u" then
              match s'' with
              | String h1 (String h2 (String h3 (String h4 r))) =>
                  u ← unicode_escape h1 h2 h3 h4;
                  '(t, r') ← parse_string r;
                  Some (String u t, r')
              | _ => None
              end
            else
              u ← simple_escape e;
              '(t, r') ← parse_string s'';
              Some (String u t, r')
        end
      else if (nat_of_ascii c <? 32)%nat then None
      else '(t, r') ← parse_string s'; Some (String c t, r')
  end.

Definition is_digit (c : ascii) : bool :=
  let n := nat_of_ascii c in ((48 <=? n) && (n <=? 57))%nat.

(** The longest run of digits at the front. *)
Fixpoint digits (s : string) : string * string :=
  match s with
  | String c s' =>
      if is_digit c then let '(d, r) := digits s' in (String c d, r)
      else (EmptyString, s)
  | EmptyString => (EmptyString, EmptyString)
  end.

(** At least one digit. *)
Definition digits1 (s : string) : option (string * string) :=
  match digits s with
  | (EmptyString, _) => None
  | (d, r) => Some (d, r)
  end.

(** The text after a leading [c], if it starts with one. *)
Definition eat (c : ascii) (s : string) : option string :=
  match s with
  | String d r => if Ascii.eqb d c then Some r else None
  | EmptyString => None
  end.

(** A leading character that satisfies [p], if there is one, and the
    rest. *)
Definition optional (p : ascii -> bool) (s : string) : string * string :=
  match s with
  | String c r => if p c then (String c EmptyString, r) else (EmptyString, s)
  | EmptyString => (EmptyString, s)
  end.

(** A number: an optional minus, then 0 or a run of digits that does not
    start with 0, then an optional fraction (a dot and digits) and an
    optional exponent (e or E, an optional sign, digits). *)
Definition parse_number (s : string) : option (string * string) :=
  let '(sign, s1) := optional (Ascii.eqb "-") s in
  '(int, s2) ←
    match eat "0" s1 with
    | Some r => Some ("0", r)
    | None => digits1 s1
    end;
  '(frac, s3) ←
    match eat "." s2 with
    | Some r => '(d, r') ← digits1 r; Some (String "." d, r')
    | None => Some (EmptyString, s2)
    end;
  '(exp, s4) ←
    (let '(e, r) :=
       optional (fun c => Ascii.eqb c "e" || Ascii.eqb c "E") s3 in
     match e with
     | EmptyString => Some (EmptyString, s3)
     | _ =>
         let '(sg, r1) :=
           optional (fun c => Ascii.eqb c "+" || Ascii.eqb c "-") r in
         '(d, r2) ← digits1 r1; Some (e +:+ sg +:+ d, r2)
     end);
  Some (sign +:+ int +:+ frac +:+ exp, s4).

Fixpoint strip_prefix (p s : string) : option string :=
  match p, s with
  | EmptyString, _ => Some s
  | String a p', String b s' =>
      if Ascii.eqb a b then strip_prefix p' s' else None
  | _, _ => None
  end.

(** A value, with the white space before it; the members of an object
    after its first key's white space, and the elements of an array, both
    up to and with the closing bracket.  A call needs no more fuel than
    the characters it reads ([parse_enough] below), so a fuel above
    the length of the text is never used up. *)
Fixpoint parse_value (fuel : nat) (s : string) {struct fuel}
  : option (json * string) :=
  match fuel with
  | O => None
  | S n =>
      match skip_ws s with
      | EmptyString => None
      | String c r =>
          if Ascii.eqb c "{" then
            match eat "}" (skip_ws r) with
            | Some r' => Some (JObject [], r')
            | None =>
                '(ms, r') ← parse_members n (skip_ws r); Some (JObject ms, r')
            end
          else if Ascii.eqb c "[" then
            match eat "]" (skip_ws r) with
            | Some r' => Some (JArray [], r')
            | None => '(vs, r') ← parse_elements n r; Some (JArray vs, r')
            end
          else if Ascii.eqb c dq then
            '(t, r') ← parse_string r; Some (JString t, r')
          else if Ascii.eqb c "t" then
            r' ← strip_prefix "rue" r; Some (JBool true, r')
          else if Ascii.eqb c "f" then
            r' ← strip_prefix "alse" r; Some (JBool false, r')
          else if Ascii.eqb c "n" then
            r' ← strip_prefix "ull" r; Some (JNull, r')
          else
            '(t, r') ← parse_number (String c r); Some (JNumber t, r')
      end
  end
with parse_members (fuel : nat) (s : string) {struct fuel}
  : option (list (string * json) * string) :=
  match fuel with
  | O => None
  | S n =>
      r ← eat dq s;
      '(k, r1) ← parse_string r;
      r2 ← eat ":" (skip_ws r1);
      '(x, r3) ← parse_value n r2;
      match eat "," (skip_ws r3) with
      | Some r4 =>
          '(ms, r5) ← parse_members n (skip_ws r4); Some ((k, x) :: ms, r5)
      | None => r4 ← eat "}" (skip_ws r3); Some ([(k, x)], r4)
      end
  end
with parse_elements (fuel : nat) (s : string) {struct fuel}
  : option (list json * string) :=
  match fuel with
  | O => None
  | S n =>
      '(x, r1) ← parse_value n s;
      match eat "," (skip_ws r1) with
      | Some r2 => '(vs, r3) ← parse_elements n r2; Some (x :: vs, r3)
      | None => r2 ← eat "]" (skip_ws r1); Some ([x], r2)
      end
  end.

(** [JSON.parse(text)]: one value, white space around it, nothing else;
    [None] is the [SyntaxError]. *)
Definition parse (text : string) : option json :=
  '(v, r) ← parse_value (S (String.length text)) text;
  match skip_ws r with
  | EmptyString => Some v
  | _ => None
  end.

(** *** Texts with escapes for code units above 255

    A [string] has no place for such a unit, so [parse] refuses a text
    with an escape for one.  Whether a text is read does not depend on
    the four digits of its escapes: [narrow] puts [003f] for the digits
    of every escape above [00ff], and the text is one that [JSON.parse]
    reads when [parse] reads it or its narrowed text. *)
Fixpoint narrow (s : string) : string :=
  match s with
  | EmptyString => EmptyString
  | String c s' =>
      if Ascii.eqb c bs then
        match s' with
        | EmptyString => s
        | String e s'' =>
            if Ascii.eqb e "u" then
              match s'' with
              | String h1 (String h2 (String h3 (String h4 r))) =>
                  match hex_value h1, hex_value h2, hex_value h3,
                        hex_value h4, unicode_escape h1 h2 h3 h4 with
                  | Some _, Some _, Some _, Some _, None =>
                      String c (String e ("003f" +:+ narrow r))
                  | _, _, _, _, _ =>
                      String c
                        (String e
                           (String h1
                              (String h2 (String h3 (String h4 (narrow r))))))
                  end
              | _ => s
              end
            else String c (String e (narrow s''))
        end
      else String c (narrow s')
  end.

Definition well_formed (text : string) : bool :=
  bool_decide (is_Some (parse text))
  || bool_decide (is_Some (parse (narrow text))).

(** *** Values at run time

    What an expression over a parsed value yields: a JSON value or
    [undefined]. *)
Inductive jsval :=
| Undefined
| J (v : json).

(** The value of the last member named [k] ([JSON.parse] lets a later
    duplicate win). *)
Fixpoint get_member (k : string) (ms : list (string * json)) : option json :=
  match ms with
  | [] => None
  | (k', x) :: ms' =>
      match get_member k ms' with
      | Some y => Some y
      | None => if String.eqb k' k then Some x else None
      end
  end.

(** [v.k] for the member names the handlers read (none of them is a
    property of strings, arrays or [Object.prototype]); [None] is the
    [TypeError] of reading a property of [null] or [undefined]. *)
Definition prop (k : string) (v : jsval) : option jsval :=
  match v with
  | Undefined | J JNull => None
  | J (JObject ms) =>
      Some (match get_member k ms with Some x => J x | None => Undefined end)
  | J _ => Some Undefined
  end.

(** The number that the digits of a text spell in base ten, what is not
    a digit left out. *)
Definition decimal (s : string) : Z :=
  fold_left (fun n c =>
               if is_digit c then (10 * n + Z.of_nat (nat_of_ascii c - 48))%Z
               else n)
    (list_ascii_of_string s) 0%Z.

(** The text of a number before its exponent, and the exponent. *)
Definition exponent_split (text : string) : string * string :=
  match Js.split "e" text, Js.split "E" text with
  | [m; x], _ | _, [m; x] => (m, x)
  | _, _ => (text, EmptyString)
  end.

(** The text of a number as [m * 10 ^ k]. *)
Definition scientific (text : string) : Z * Z :=
  let '(mantissa, exponent) := exponent_split text in
  let fraction :=
    match Js.split "." mantissa with
    | [_; f] => f
    | _ => EmptyString
    end in
  let e :=
    match exponent with
    | String "-" _ => (- decimal exponent)%Z
    | _ => decimal exponent
    end in
  (decimal mantissa, (e - Z.of_nat (String.length fraction))%Z).

(** ToBoolean; a number is falsy when the double it is read as is a
    zero: the text spells zero, or a value that is not above the half of
    the least positive double, [2 ^ -1075], and so is rounded to zero. *)
Definition number_is_zero (text : string) : bool :=
  let '(m, k) := scientific text in
  (m =? 0)%Z
  || (k <? 0)%Z && (m * 2 ^ 1075 <=? 10 ^ (- k))%Z.

Definition truthy (v : jsval) : bool :=
  match v with
  | Undefined | J JNull => false
  | J (JBool b) => b
  | J (JNumber text) => negb (number_is_zero text)
  | J (JString s) => Js.truthy s
  | J (JArray _) | J (JObject _) => true
  end.

(** Whether [String(v)] has a value.  An object is turned into a text
    by its [toString]; a member of that name from the parsed text is in
    the way of the inherited one and cannot be called, and the conversion
    throws a [TypeError].  An array is turned into a text element by
    element ([null] as the empty text). *)
Fixpoint printable (v : json) : bool :=
  match v with
  | JObject members => negb (Js.has_key "toString" members)
  | JArray items => forallb printable items
  | _ => true
  end.

(** [v === "s"] *)
Definition is_string (s : string) (v : jsval) : bool :=
  match v with
  | J (JString t) => String.eqb t s
  | _ => false
  end.

(** *** Values whose text is read back

    A value without numbers ([JSON.stringify] prints a number as the
    shortest text of its double, which is not modelled), and the depth of
    the recursion that reading its text takes. *)
Fixpoint number_free (v : json) : bool :=
  match v with
  | JNumber _ => false
  | JArray items => forallb number_free items
  | JObject members => forallb (fun m => number_free (snd m)) members
  | _ => true
  end.

Fixpoint fuel_needed (v : json) : nat :=
  match v with
  | JArray items =>
      S ((fix go (l : list json) : nat :=
            match l with
            | [] => O
            | x :: l' => S (Nat.max (fuel_needed x) (go l'))
            end) items)
  | JObject members =>
      S ((fix go (l : list (string * json)) : nat :=
            match l with
            | [] => O
            | m :: l' => S (Nat.max (fuel_needed (snd m)) (go l'))
            end) members)
  | _ => 1
  end.

Definition elems_fuel (l : list json) : nat :=
  fold_right (fun x n => S (Nat.max (fuel_needed x) n)) O l.

Definition membs_fuel (l : list (string * json)) : nat :=
  fold_right (fun m n => S (Nat.max (fuel_needed (snd m)) n)) O l.

(** The text of a member of an object. *)
Definition member_text (m : string * json) : string :=
  let '(k, x) := m in quote k +:+ ":" +:+ stringify x.

(** The first character of the text of a value without numbers. *)
Definition starts_value (t : string) : bool :=
  match t with
  | String c _ =>
      existsb (Ascii.eqb c) [dq; "{"; "["; "t"; "f"; "n"]%char
  | EmptyString => false
  end.

(** A text without a line break. *)
Fixpoint one_line (t : string) : bool :=
  match t with
  | EmptyString => true
  | String c t' => negb (Ascii.eqb c Js.nl) && one_line t'
  end.

(** *** Reading a part of a value: [v.k] and [v[i]] along a path *)
Inductive selector :=
| Key (k : string)
| Index (i : nat).

Definition select1 (sel : selector) (v : json) : option json :=
  match sel, v with
  | Key k, JObject ms => get_member k ms
  | Index i, JArray items => items !! i
  | _, _ => None
  end.

Fixpoint select (path : list selector) (v : json) : option json :=
  match path with
  | [] => Some v
  | sel :: path' => x ← select1 sel v; select path' x
  end.

(** [v?.k]: no error on [null] and [undefined]. *)
Definition opt_prop (k : string) (v : jsval) : jsval :=
  match prop k v with
  | Some x => x
  | None => Undefined
  end.

End Json.

(** ** The parse loop of the stdout [data] handlers

    For every complete line the handler skips a blank line, parses the rest,
    and calls the handler that the type of the record selects.  What the
    [try] block throws ends in its [catch], which prints the error; what a
    loop body throws outside of a [try] ends the loop. *)

Module Stream.
Import Json.

(** The handler called for a record; [SystemMessage init] is the branch
    of a [system] record, which calls [handleInitMessage] when [init]. *)
Inductive Handler :=
| AssistantMessage
| ToolResultMessage
| ResultMessage
| SystemMessage (init : bool)
| CodexThreadStarted
| CodexCommandStart
| CodexAgentMessage
| CodexReasoning
| CodexCommandComplete
| CodexFileChange
| CodexTurnCompleted.

(** What the loop body does with a line that it does not skip:
    [Malformed] is the [catch] block,
    [console.error("Error parsing JSON:", error, "Line:", line)];
    [Stored] is [db.setSession] with the value it is given;
    [Unhandled] is a record that no branch takes; [Beyond] is a line
    that [JSON.parse] reads as a value with a code unit above 255, for
    which the branch taken is not modelled. *)
Inductive LineEvent :=
| Malformed (line : string)
| Dispatched (h : Handler) (parsed : json)
| Stored (session : json)
| Unhandled (parsed : json)
| Beyond (line : string).

(** What is thrown inside the [try]: by [JSON.parse], by reading a
    property of [null] or [undefined], by the store. *)
Inductive Thrown := SyntaxError | TypeError | SQLiteError.

(** A statement of the loop: the events it causes, and the value it has
    or what it throws. *)
Definition Exc (A : Type) : Type := list LineEvent * (Thrown + A).

#[global] Instance Exc_ret : MRet Exc := fun A a => ([], inr a).
#[global] Instance Exc_bind : MBind Exc :=
  fun A B f m =>
    match m with
    | (es, inl t) => (es, inl t)
    | (es, inr a) => let '(es', r) := f a in (es ++ es', r)
    end.

Definition throw {A} (t : Thrown) : Exc A := ([], inl t).
Definition call (e : LineEvent) : Exc unit := ([e], inr tt).

(** [try { block } catch (error) { handler }] *)
Definition try_catch (block : Exc unit) (handler : Thrown -> Exc unit)
  : Exc unit :=
  match block with
  | (es, inl t) => let '(es', r) := handler t in (es ++ es', r)
  | (es, inr tt) => (es, inr tt)
  end.

(** [for (const x of xs) body(x)] *)
Fixpoint for_of {A} (xs : list A) (body : A -> Exc unit) : Exc unit :=
  match xs with
  | [] => mret tt
  | x :: xs' => body x;; for_of xs' body
  end.

(** An expression of the record that throws a [TypeError] when it has
    no value. *)
Definition read {A} (x : option A) : Exc A :=
  match x with
  | Some a => mret a
  | None => throw TypeError
  end.

(** [String(x || "")], for its value or the [TypeError]; the text is
    not kept. *)
Definition toString_or_empty (x : jsval) : Exc unit :=
  match x with
  | J v => if truthy x && negb (printable v) then throw TypeError else mret tt
  | Undefined => mret tt
  end.

(** [this.db.setSession(channelId, session, ...)]: the statement binds a
    string, a number or a boolean; [null] and [undefined] are bound as
    [NULL], which the column ([NOT NULL]) refuses, and an array or an
    object cannot be bound. *)
Definition setSession (session : jsval) : Exc unit :=
  match session with
  | Undefined | J JNull => throw SQLiteError
  | J (JArray _) | J (JObject _) => throw TypeError
  | J v => call (Stored v)
  end.

(** The branches of the Claude loop. *)
Definition dispatch_claude (v : json) : Exc unit :=
  type ← read (prop "type" (J v));
  if is_string "assistant" type then
    content ← read (prop "message" (J v) ≫= prop "content");
    call (if truthy content then Dispatched AssistantMessage v
          else Unhandled v)
  else if is_string "user" type then
    content ← read (prop "message" (J v) ≫= prop "content");
    call (if truthy content then Dispatched ToolResultMessage v
          else Unhandled v)
  else if is_string "result" type then call (Dispatched ResultMessage v)
  else if is_string "system" type then
    subtype ← read (prop "subtype" (J v));
    call (Dispatched (SystemMessage (is_string "init" subtype)) v);;
    setSession (opt_prop "session_id" (J v))
  else call (Unhandled v).

(** The branches of the Codex loop. *)
Definition dispatch_codex (v : json) : Exc unit :=
  type ← read (prop "type" (J v));
  let item_type := opt_prop "type" (opt_prop "item" (J v)) in
  if is_string "thread.started" type
     && truthy (opt_prop "thread_id" (J v)) then
    setSession (opt_prop "thread_id" (J v));;
    call (Dispatched CodexThreadStarted v)
  else if is_string "item.started" type
          && is_string "command_execution" item_type then
    call (Dispatched CodexCommandStart v)
  else if is_string "item.completed" type then
    if is_string "agent_message" item_type then
      toString_or_empty (opt_prop "text" (opt_prop "item" (J v)));;
      call (Dispatched CodexAgentMessage v)
    else
      call (if is_string "reasoning" item_type
            then Dispatched CodexReasoning v
            else if is_string "command_execution" item_type
            then Dispatched CodexCommandComplete v
            else if is_string "file_change" item_type
            then Dispatched CodexFileChange v
            else Unhandled v)
  else if is_string "turn.completed" type then
    call (Dispatched CodexTurnCompleted v)
  else call (Unhandled v).

(** The [try] block for a line. *)
Definition try_block (p : Shell.Provider) (line : string) : Exc unit :=
  match parse line with
  | Some v =>
      match p with
      | Shell.claude => dispatch_claude v
      | Shell.codex => dispatch_codex v
      end
  | None => if well_formed line then call (Beyond line) else throw SyntaxError
  end.

(** The loop body for one line. *)
Definition body (p : Shell.Provider) (line : string) : Exc unit :=
  if Framer.nonblank line then
    try_catch (try_block p line) (fun _ => call (Malformed line))
  else mret tt.

(** [for (const line of lines) ...] *)
Definition loop (p : Shell.Provider) (lines : list string) : Exc unit :=
  for_of lines (body p).

(** The events of a line, of the lines of a [data] event, and of a
    whole stream. *)
Definition line_events (p : Shell.Provider) (line : string)
  : list LineEvent :=
  fst (body p line).

Definition lines_events (p : Shell.Provider) (lines : list string)
  : list LineEvent :=
  fst (loop p lines).

Definition stream_events (p : Shell.Provider) (chunks : list string)
  : list LineEvent :=
  lines_events p (fst (Framer.run chunks)).

End Stream.


(** ** Paths ([path.join] and [path.normalize] of Node, POSIX flavour) *)

Module Path.

Definition sep : ascii := "/"%char.

(** [normalizeString]: the segments that are left when the empty ones
    and ["."] are dropped and every [".."] takes away the segment before
    it; [stack] holds the segments kept so far, the last one first.  A
    [".."] with nothing to take away is kept when [allowAboveRoot]. *)
Fixpoint resolve (allowAboveRoot : bool) (stack segments : list string)
  : list string :=
  match segments with
  | [] => stack
  | seg :: rest =>
      if String.eqb seg "" || String.eqb seg "." then
        resolve allowAboveRoot stack rest
      else if String.eqb seg ".." then
        match stack with
        | top :: below =>
            if String.eqb top ".."
            then resolve allowAboveRoot
                   (if allowAboveRoot then ".." :: stack else stack) rest
            else resolve allowAboveRoot below rest
        | [] =>
            resolve allowAboveRoot
              (if allowAboveRoot then [".."] else []) rest
        end
      else resolve allowAboveRoot (seg :: stack) rest
  end.

Definition normalizeString (path : string) (allowAboveRoot : bool) : string :=
  Js.join "/" (rev (resolve allowAboveRoot [] (Js.split sep path))).

Definition isAbsolute (path : string) : bool :=
  match path with
  | String c _ => Ascii.eqb c sep
  | EmptyString => false
  end.

(** The last character is a separator. *)
Fixpoint trailingSeparator (path : string) : bool :=
  match path with
  | EmptyString => false
  | String c EmptyString => Ascii.eqb c sep
  | String _ rest => trailingSeparator rest
  end.

Definition normalize (path : string) : string :=
  match path with
  | EmptyString => "."
  | _ =>
      let p := normalizeString path (negb (isAbsolute path)) in
      match p with
      | EmptyString =>
          if isAbsolute path then "/"
          else if trailingSeparator path then "./" else "."
      | _ =>
          let p := if trailingSeparator path then p +:+ "/" else p in
          if isAbsolute path then "/" +:+ p else p
      end
  end.

(** [path.join(...args)] *)
Definition join (args : list string) : string :=
  match List.filter Js.truthy args with
  | [] => "."
  | parts => normalize (Js.join "/" parts)
  end.

(** No separator in the text. *)
Definition nosep (s : string) : bool :=
  forallb (fun c => negb (Ascii.eqb c sep)) (list_ascii_of_string s).

(** A segment that stands for itself: not empty, not ["."] or [".."],
    without a separator. *)
Definition plain (seg : string) : bool :=
  negb (String.eqb seg "") && negb (String.eqb seg ".")
  && negb (String.eqb seg "..") && nosep seg.

(** The absolute path with the segments [segs]. *)
Definition absolute (segs : list string) : string :=
  "/" +:+ Js.join "/" segs.

End Path.


(** ** The file system ([fs.existsSync], [fs.mkdirSync])

    The file system is the set of its directories and the set of its files,
    each under its absolute path in normal form ([Path.absolute] of its
    segments), seen by a process with a working directory.  Symbolic links
    are left out.  The paths asked about are paths in normal form, which is
    what [path.join] returns. *)

Module Fs.

(** The segments of the absolute path that [path] names in a process
    with the working directory [cwd]. *)
Definition locate (cwd path : string) : list string :=
  rev (Path.resolve false []
         (Js.split Path.sep
            (if Path.isAbsolute path then path
             else cwd +:+ "/" +:+ path))).

Definition canonical (cwd path : string) : string :=
  Path.absolute (locate cwd path).

(** [fs.existsSync(path)]: the root, a directory, or a file that is not
    asked for as a directory (with a separator at the end). *)
Definition existsSync
    (cwd : string) (directories files : gset string) (path : string)
  : bool :=
  Js.truthy path
  && (let p := canonical cwd path in
      String.eqb p "/"
      || bool_decide (p ∈ directories)
      || negb (Path.trailingSeparator path) && bool_decide (p ∈ files)).

(** The paths of [segs] and of what is above it, the root left out;
    [above] holds the segments gone through. *)
Fixpoint prefixes (above segs : list string) : list string :=
  match segs with
  | [] => []
  | seg :: rest =>
      Path.absolute (above ++ [seg]) :: prefixes (above ++ [seg]) rest
  end.

(** [fs.mkdirSync(path, { recursive: true })]: the directories after the
    call; [None] when it throws because a file has the path or a path
    above it.  Other failures are left out. *)
Definition mkdirSync
    (cwd : string) (directories files : gset string) (path : string)
  : option (gset string) :=
  let made := prefixes [] (locate cwd path) in
  if negb (Js.truthy path)
     || existsb (fun p => bool_decide (p ∈ files)) made
  then None
  else Some (list_to_set made ∪ directories).

End Fs.
(** ** The process manager ([src/claude/manager.ts])

    [ClaudeManager] keeps four maps keyed by channel id and a database
    handle.  A method is modelled as a computation over [State]: the four
    maps, the database tables, and the part of the world that the methods
    act on.  An asynchronous handler is run as one uninterrupted step; the
    human's answer that it waits for is an argument.  [console.log] tracing
    is left out; [console.error] calls are kept. *)

Module Manager.
Import Json.

Abbreviation Provider := Shell.Provider.
Abbreviation claude := Shell.claude.
Abbreviation codex := Shell.codex.
Inductive ClaudeModel := opus | sonnet | haiku.

Definition model_name (m : ClaudeModel) : string :=
  match m with opus => "opus" | sonnet => "sonnet" | haiku => "haiku" end.

Definition provider_label (p : Provider) : string :=
  match p with codex => "Codex" | claude => "Claude Code" end.

(** *** Messages of the provider, at the types the handlers declare *)

(** A [tool_use] block of an assistant message. *)
Record ToolUse := {
  tool_id : string;
  tool_name : string;
  tool_input : json
}.

(** A [tool_result] block of a user message; [result_is_error] is
    [result.is_error === true]. *)
Record ToolResult := {
  tool_use_id : string;
  result_content : json;
  result_is_error : bool
}.

(** The terminal [result] message, at the type the handler declares for
    it, where a member may be missing.  [result_session_id] is [None]
    when [session_id] is missing or [null]: the store refuses it
    ([NOT NULL]) and [db.setSession] throws.  [result_total_cost_usd] is
    the cost as the embed shows it, [None] when [total_cost_usd] is
    missing: [cost.toFixed] throws a [TypeError]. *)
Record ResultMessage := {
  result_session_id : option string;
  result_subtype : string;
  result_num_turns : string;
  result_total_cost_usd : option string;
  result_text : option string
}.

(** A [command_execution] item of the Codex stream; [item_exit_code] is
    the number when [typeof item.exit_code === "number"]. *)
Record CodexItem := {
  item_id : string;
  item_command : string;
  item_aggregated_output : string;
  item_exit_code : option Z;
  item_status : string
}.

(** A question of [AskUserQuestion]. *)
Record QOption := { label : string; description : option string }.
Record Question := {
  question : string;
  header : option string;
  options : list QOption
}.

(** *** The chat surface

    An embed is kept as the template the code fills in and the values it
    fills in; the rendered text belongs to the chat surface. *)
Inductive Embed :=
| StatusEmbed (sessionId : option string) (providerLabel : string)
| FolderInfoEmbed (providerLabel projectPath : string)
| FolderCreatedEmbed (projectPath : string)
| PathChangeEmbed
| FolderTimedOutEmbed
| ErrorText (errorMessage : string)
| TimeoutEmbed (p : Provider)
| FailedEmbed (p : Provider) (code : Z)
| ProcessErrorEmbed (errorMessage : string)
| ResultEmbed (r : ResultMessage) (withResultText : bool)
| ToolCallEmbed (tool : ToolUse)
| ToolResultEmbed (original : Embed) (isError : bool) (resultText : string)
| CommandEmbed (description : string)
| CommandResultEmbed (original : Embed) (ok : bool) (resultText : string)
| CommandDoneEmbed (ok : bool) (description resultText : string)
| PlanReviewEmbed
| PlanApprovedEmbed
| PlanRejectedEmbed (feedback : string)
| PlanTimedOutEmbed
| QuestionEmbed (q : Question)
| QuestionAnsweredEmbed (q : Question) (answer : string)
| QuestionTimedOutEmbed (q : Question).

(** A message object of the chat library: its id, the channel it is in
    ([message.channel], absent on the stand-ins the tests pass) and its
    embeds. *)
Record Message := {
  msg_id : nat;
  msg_channel : option string;
  msg_embeds : list Embed
}.

(** *** Child processes *)

(** A [ChildProcess]: its pid and whether it has a [stdin] stream
    ([stdio[0]] is ["pipe"] for Claude and ["ignore"] for Codex). *)
Record ChildProcess := { pid : nat; stdin : bool }.

(** An entry of [channelProcesses]. *)
Record ProcEntry := {
  process : option ChildProcess;
  sessionId : option string;
  discordMessage : Message
}.

(** An entry of a channel's tool-call table. *)
Record ToolCall := { message : option Message; toolId : string }.

(** What the world knows of a spawned process: the channel and provider
    its handlers were registered for, whether its [close] event has been
    delivered, and whether its timeout timer is still armed. *)
Record ProcInfo := {
  proc_channel : string;
  proc_provider : Provider;
  proc_closed : bool;
  proc_timer : bool
}.

(** What a method does to the outside. *)
Inductive Effect :=
| Kill (p : nat) (signal : string)
| Spawn (p : nat) (command : string)
| StdinEnd (p : nat)
| StdinWrite (p : nat) (data : string)
| SetTimeout (p : nat) (ms : N)
| ClearTimeout (p : nat)
| Send (channel : string) (m : Message)
| Edit (m : nat) (e : Embed)
| Mkdir (path : string)
| ConsoleError (text : string).

Record State := MkState {
  (* the fields of [ClaudeManager] *)
  channelMessages : gmap string Message;
  channelToolCalls : gmap string (gmap string ToolCall);
  channelNames : gmap string string;
  channelProcesses : gmap string ProcEntry;
  (* the tables of [DatabaseManager], keyed by [channel_id] *)
  channel_sessions : gmap string (string * string);
  channel_modes : gmap string Shell.PermissionMode;
  channel_models : gmap string ClaudeModel;
  channel_providers : gmap string Provider;
  channel_paths : gmap string string;
  (* the world around the bot: the directories and the files that exist,
     each under its absolute path in normal form, the working directory
     of the bot, the child processes spawned so far, the next process and
     message identifiers, and everything done to the outside so far,
     oldest first *)
  directories : gset string;
  files : gset string;
  cwd : string;
  processes : gmap nat ProcInfo;
  next_pid : nat;
  next_msg : nat;
  effects : list Effect
}.

(** Field updates. *)
Definition upd_channelMessages
    (f : gmap string Message -> gmap string Message)
    (s : State) : State :=
  MkState (f (channelMessages s)) (channelToolCalls s) (channelNames
    s) (channelProcesses s) (channel_sessions s) (channel_modes s)
    (channel_models s) (channel_providers s) (channel_paths s)
    (directories s) (files s) (cwd s) (processes s) (next_pid s)
    (next_msg s) (effects s).
Definition upd_channelToolCalls
    (f : gmap string (gmap string ToolCall) -> gmap string (gmap string ToolCall))
    (s : State) : State :=
  MkState (channelMessages s) (f (channelToolCalls s)) (channelNames
    s) (channelProcesses s) (channel_sessions s) (channel_modes s)
    (channel_models s) (channel_providers s) (channel_paths s)
    (directories s) (files s) (cwd s) (processes s) (next_pid s)
    (next_msg s) (effects s).
Definition upd_channelNames
    (f : gmap string string -> gmap string string)
    (s : State) : State :=
  MkState (channelMessages s) (channelToolCalls s) (f (channelNames
    s)) (channelProcesses s) (channel_sessions s) (channel_modes s)
    (channel_models s) (channel_providers s) (channel_paths s)
    (directories s) (files s) (cwd s) (processes s) (next_pid s)
    (next_msg s) (effects s).
Definition upd_channelProcesses
    (f : gmap string ProcEntry -> gmap string ProcEntry)
    (s : State) : State :=
  MkState (channelMessages s) (channelToolCalls s) (channelNames s) (f
    (channelProcesses s)) (channel_sessions s) (channel_modes s)
    (channel_models s) (channel_providers s) (channel_paths s)
    (directories s) (files s) (cwd s) (processes s) (next_pid s)
    (next_msg s) (effects s).
Definition upd_channel_sessions
    (f : gmap string (string * string) -> gmap string (string * string))
    (s : State) : State :=
  MkState (channelMessages s) (channelToolCalls s) (channelNames s)
    (channelProcesses s) (f (channel_sessions s)) (channel_modes s)
    (channel_models s) (channel_providers s) (channel_paths s)
    (directories s) (files s) (cwd s) (processes s) (next_pid s)
    (next_msg s) (effects s).
Definition upd_channel_modes
    (f : gmap string Shell.PermissionMode -> gmap string Shell.PermissionMode)
    (s : State) : State :=
  MkState (channelMessages s) (channelToolCalls s) (channelNames s)
    (channelProcesses s) (channel_sessions s) (f (channel_modes s))
    (channel_models s) (channel_providers s) (channel_paths s)
    (directories s) (files s) (cwd s) (processes s) (next_pid s)
    (next_msg s) (effects s).
Definition upd_channel_models
    (f : gmap string ClaudeModel -> gmap string ClaudeModel)
    (s : State) : State :=
  MkState (channelMessages s) (channelToolCalls s) (channelNames s)
    (channelProcesses s) (channel_sessions s) (channel_modes s) (f
    (channel_models s)) (channel_providers s) (channel_paths s)
    (directories s) (files s) (cwd s) (processes s) (next_pid s)
    (next_msg s) (effects s).
Definition upd_channel_providers
    (f : gmap string Provider -> gmap string Provider)
    (s : State) : State :=
  MkState (channelMessages s) (channelToolCalls s) (channelNames s)
    (channelProcesses s) (channel_sessions s) (channel_modes s)
    (channel_models s) (f (channel_providers s)) (channel_paths s)
    (directories s) (files s) (cwd s) (processes s) (next_pid s)
    (next_msg s) (effects s).
Definition upd_channel_paths
    (f : gmap string string -> gmap string string)
    (s : State) : State :=
  MkState (channelMessages s) (channelToolCalls s) (channelNames s)
    (channelProcesses s) (channel_sessions s) (channel_modes s)
    (channel_models s) (channel_providers s) (f (channel_paths s))
    (directories s) (files s) (cwd s) (processes s) (next_pid s)
    (next_msg s) (effects s).
Definition upd_directories
    (f : gset string -> gset string)
    (s : State) : State :=
  MkState (channelMessages s) (channelToolCalls s) (channelNames s)
    (channelProcesses s) (channel_sessions s) (channel_modes s)
    (channel_models s) (channel_providers s) (channel_paths s) (f
    (directories s)) (files s) (cwd s) (processes s) (next_pid s)
    (next_msg s) (effects s).
Definition upd_processes
    (f : gmap nat ProcInfo -> gmap nat ProcInfo)
    (s : State) : State :=
  MkState (channelMessages s) (channelToolCalls s) (channelNames s)
    (channelProcesses s) (channel_sessions s) (channel_modes s)
    (channel_models s) (channel_providers s) (channel_paths s)
    (directories s) (files s) (cwd s) (f (processes s)) (next_pid s)
    (next_msg s) (effects s).
Definition upd_next_pid
    (f : nat -> nat)
    (s : State) : State :=
  MkState (channelMessages s) (channelToolCalls s) (channelNames s)
    (channelProcesses s) (channel_sessions s) (channel_modes s)
    (channel_models s) (channel_providers s) (channel_paths s)
    (directories s) (files s) (cwd s) (processes s) (f (next_pid s))
    (next_msg s) (effects s).
Definition upd_next_msg
    (f : nat -> nat)
    (s : State) : State :=
  MkState (channelMessages s) (channelToolCalls s) (channelNames s)
    (channelProcesses s) (channel_sessions s) (channel_modes s)
    (channel_models s) (channel_providers s) (channel_paths s)
    (directories s) (files s) (cwd s) (processes s) (next_pid s) (f
    (next_msg s)) (effects s).
Definition upd_effects
    (f : list Effect -> list Effect)
    (s : State) : State :=
  MkState (channelMessages s) (channelToolCalls s) (channelNames s)
    (channelProcesses s) (channel_sessions s) (channel_modes s)
    (channel_models s) (channel_providers s) (channel_paths s)
    (directories s) (files s) (cwd s) (processes s) (next_pid s)
    (next_msg s) (f (effects s)).

(** The state of a manager that was just constructed, in a world with
    the directories [dirs] and no files, where the bot runs in the root
    directory. *)
Definition initial (dirs : gset string) : State :=
  MkState ∅ ∅ ∅ ∅ ∅ ∅ ∅ ∅ ∅ dirs ∅ "/" ∅ 1 1 [].

(** *** Computations *)

Definition M (A : Type) : Type := State -> A * State.

#[global] Instance M_ret : MRet M := fun A a s => (a, s).
#[global] Instance M_bind : MBind M :=
  fun A B f m s => let '(a, s') := m s in f a s'.

Definition gets {A} (f : State -> A) : M A := fun s => (f s, s).
Definition modify (f : State -> State) : M unit := fun s => (tt, f s).
Definition emit (e : Effect) : M unit :=
  modify (upd_effects (fun l => l ++ [e])).
Definition skip : M unit := mret tt.

(** The state a computation leaves and what it did, from a state on. *)
Definition exec {A} (m : M A) (s : State) : State := snd (m s).
Definition eval {A} (m : M A) (s : State) : A := fst (m s).

(** The effects added by a computation. *)
Definition done_by {A} (m : M A) (s : State) : list Effect :=
  skipn (length (effects s)) (effects (exec m s)).

(** The effects that a later state has on top of an earlier one. *)
Definition since (s s' : State) : list Effect :=
  skipn (length (effects s)) (effects s').

(** [for (const x of xs) body(x)] *)
Fixpoint for_each {A} (xs : list A) (body : A -> M unit) : M unit :=
  match xs with
  | [] => skip
  | x :: xs' => body x;; for_each xs' body
  end.

(** *** The database ([src/db/database.ts]); [last_used] is left out *)

Definition db_getSession (s : State) (channelId : string) : option string :=
  fst <$> channel_sessions s !! channelId.

Definition db_setSession (channelId sid channelName : string) : M unit :=
  modify (upd_channel_sessions <[channelId := (sid, channelName)]>).

Definition db_clearSession (channelId : string) : M unit :=
  modify (upd_channel_sessions (delete channelId)).

Definition db_getMode (s : State) (channelId : string) : Shell.PermissionMode :=
  default Shell.auto (channel_modes s !! channelId).

Definition db_getModel (s : State) (channelId : string) : ClaudeModel :=
  default sonnet (channel_models s !! channelId).

Definition db_getProvider (s : State) (channelId : string) : Provider :=
  default claude (channel_providers s !! channelId).

Definition db_setProvider (channelId : string) (p : Provider) : M unit :=
  modify (upd_channel_providers <[channelId := p]>).

Definition db_getPath (s : State) (channelId : string) : option string :=
  channel_paths s !! channelId.

(** *** The chat library *)

(** [await channel.send({ embeds: [e] })]: the message that was created. *)
Definition send (channel : string) (e : Embed) : M Message :=
  n ← gets next_msg;
  let m := {| msg_id := n; msg_channel := Some channel; msg_embeds := [e] |} in
  modify (upd_next_msg S);;
  emit (Send channel m);;
  mret m.

(** [await message.edit({ embeds: [e] })] *)
Definition edit (m : Message) (e : Embed) : M unit := emit (Edit (msg_id m) e).

(** [this.channelMessages.get(channelId)?.channel] *)
Definition channel_of (s : State) (channelId : string) : option string :=
  m ← channelMessages s !! channelId; msg_channel m.

(** *** [ClaudeManager] *)

Definition hasActiveProcess (s : State) (channelId : string) : bool :=
  bool_decide (is_Some (channelProcesses s !! channelId)).

(** [this.channelProcesses.get(channelId)?.process] *)
Definition entry_process (s : State) (channelId : string)
  : option ChildProcess :=
  channelProcesses s !! channelId ≫= process.

(** The signal that goes to the process of the channel's entry, if the
    entry has one. *)
Definition kill_of (s : State) (channelId : string) : list Effect :=
  match entry_process s channelId with
  | Some p => [Kill (pid p) "SIGTERM"]
  | None => []
  end.

Definition killActiveProcess (channelId : string) : M unit :=
  activeProcess ← gets (fun s => channelProcesses s !! channelId);
  match activeProcess with
  | Some {| process := Some p |} => emit (Kill (pid p) "SIGTERM")
  | _ => skip
  end.

Definition clearSession (channelId : string) : M unit :=
  killActiveProcess channelId;;
  db_clearSession channelId;;
  modify (upd_channelMessages (delete channelId));;
  modify (upd_channelToolCalls (delete channelId));;
  modify (upd_channelNames (delete channelId));;
  modify (upd_channelProcesses (delete channelId)).

Definition getProvider := db_getProvider.
Definition getMode := db_getMode.
Definition getModel := db_getModel.
Definition getPath := db_getPath.

Definition setProvider (channelId : string) (p : Provider) : M unit :=
  db_setProvider channelId p;;
  clearSession channelId.

Definition setDiscordMessage (channelId : string) (m : Message) : M unit :=
  modify (upd_channelMessages <[channelId := m]>);;
  modify (upd_channelToolCalls <[channelId := ∅]>).

Definition reserveChannel
    (channelId : string) (sid : option string) (m : Message) : M unit :=
  existingProcess ← gets (fun s => channelProcesses s !! channelId);
  match existingProcess with
  | Some {| process := Some p |} => emit (Kill (pid p) "SIGTERM")
  | _ => skip
  end;;
  modify (upd_channelProcesses
            <[channelId := {| process := None; sessionId := sid;
                              discordMessage := m |}]>).

Definition getSessionId (s : State) (channelId : string) : option string :=
  db_getSession s channelId.

(** *** Starting a provider *)

(** What an [async] method ends with: it resolves, or rejects with the
    message of the [Error] it threw (for an error of the runtime or of
    the store: the name of its class). *)
Inductive Outcome := Resolved | Rejected (errorMessage : string).

(** [path.join(base, name)] *)
Definition path_join (base name : string) : string := Path.join [base; name].

(** [fs.existsSync(path)] *)
Definition existsSync (s : State) (path : string) : bool :=
  Fs.existsSync (cwd s) (directories s) (files s) path.

(** [fs.mkdirSync(path, { recursive: true })]; [false] when it throws. *)
Definition mkdirSync (path : string) : M bool :=
  made ← gets (fun s => Fs.mkdirSync (cwd s) (directories s) (files s) path);
  match made with
  | Some dirs =>
      emit (Mkdir path);;
      modify (upd_directories (fun _ => dirs));;
      mret true
  | None => mret false
  end.

(** [customPath || channelName] *)
Definition folder_name (customPath : option string) (channelName : string)
  : string :=
  match customPath with
  | Some p => if Js.truthy p then p else channelName
  | None => channelName
  end.

(** [spawn("/bin/bash", ["-c", commandString], ...)], then the assignment
    [channelProcess.process = child] when the channel has an entry. *)
Definition spawn
    (channelId : string) (prov : Provider) (commandString : string)
    (has_stdin : bool) : M ChildProcess :=
  n ← gets next_pid;
  let child := {| pid := n; stdin := has_stdin |} in
  modify (upd_next_pid S);;
  modify (upd_processes
            <[n := {| proc_channel := channelId; proc_provider := prov;
                      proc_closed := false; proc_timer := false |}]>);;
  emit (Spawn n commandString);;
  modify (upd_channelProcesses
            (alter (fun e => {| process := Some child;
                                sessionId := sessionId e;
                                discordMessage := discordMessage e |})
                   channelId));;
  mret child.

(** [setTimeout(..., 5 * 60 * 1000)] *)
Definition arm_timer (p : nat) : M unit :=
  modify (upd_processes
            (alter (fun i => {| proc_channel := proc_channel i;
                                proc_provider := proc_provider i;
                                proc_closed := proc_closed i;
                                proc_timer := true |}) p));;
  emit (SetTimeout p 300000%N).

Definition clearTimeout (p : nat) : M unit :=
  modify (upd_processes
            (alter (fun i => {| proc_channel := proc_channel i;
                                proc_provider := proc_provider i;
                                proc_closed := proc_closed i;
                                proc_timer := false |}) p));;
  emit (ClearTimeout p).

Definition runCodex
    (baseFolder channelId channelName prompt : string)
    (sid : option string) : M Outcome :=
  customPath ← gets (fun s => getPath s channelId);
  let folderName := folder_name customPath channelName in
  modify (upd_channelNames <[channelId := folderName]>);;
  let workingDir := path_join baseFolder folderName in
  present ← gets (fun s => existsSync s workingDir);
  if negb present then
    mret (Rejected ("Working directory does not exist: " +:+ workingDir))
  else
    let commandString := Shell.buildCodexCommand workingDir prompt sid in
    child ← spawn channelId codex commandString false;
    arm_timer (pid child);;
    mret Resolved.

(** [mcpConfigPath] is the path [createSessionMcpConfig] returns. *)
Definition runClaudeCode
    (baseFolder mcpConfigPath channelId channelName prompt : string)
    (sid : option string) : M Outcome :=
  prov ← gets (fun s => getProvider s channelId);
  match prov with
  | codex => runCodex baseFolder channelId channelName prompt sid
  | claude =>
      customPath ← gets (fun s => getPath s channelId);
      let folderName := folder_name customPath channelName in
      modify (upd_channelNames <[channelId := folderName]>);;
      let workingDir := path_join baseFolder folderName in
      present ← gets (fun s => existsSync s workingDir);
      if negb present then
        mret (Rejected ("Working directory does not exist: " +:+ workingDir))
      else
        mode ← gets (fun s => getMode s channelId);
        model ← gets (fun s => getModel s channelId);
        let commandString :=
          Shell.buildClaudeCommand workingDir prompt sid mcpConfigPath mode
            (model_name model) in
        child ← spawn channelId claude commandString true;
        emit (StdinEnd (pid child));;
        arm_timer (pid child);;
        mret Resolved
  end.

(** *** The handlers registered on a child process

    Each closes over the channel id, the child and its timer. *)

(** [setTimeout] callback. *)
Definition on_timeout (prov : Provider) (channelId : string) (p : nat)
  : M unit :=
  emit (Kill p "SIGTERM");;
  channel ← gets (fun s => channel_of s channelId);
  match channel with
  | Some c => _ ← send c (TimeoutEmbed prov); skip
  | None => skip
  end.

(** [child.on("close", (code) => ...)]; [code] is [null] when the child
    was ended by a signal. *)
Definition on_close
    (prov : Provider) (channelId : string) (p : nat) (code : option Z)
  : M unit :=
  clearTimeout p;;
  modify (upd_channelProcesses (delete channelId));;
  match code with
  | Some c =>
      if bool_decide (c = 0%Z) then skip
      else
        channel ← gets (fun s => channel_of s channelId);
        match channel with
        | Some ch => _ ← send ch (FailedEmbed prov c); skip
        | None => skip
        end
  | None => skip
  end.

(** [child.on("error", (error) => ...)]; a Claude child has two
    listeners, which run in the order they were added: the first only
    prints. *)
Definition on_error
    (prov : Provider) (channelId : string) (p : nat) (errorMessage : string)
  : M unit :=
  match prov with
  | claude =>
      emit (ConsoleError "Process spawn error:");;
      emit (ConsoleError "Claude process error:")
  | codex => emit (ConsoleError "Codex process error:")
  end;;
  clearTimeout p;;
  modify (upd_channelProcesses (delete channelId));;
  channel ← gets (fun s => channel_of s channelId);
  match channel with
  | Some ch => _ ← send ch (ProcessErrorEmbed errorMessage); skip
  | None => skip
  end.

(** [channelNames.get(channelId) || "default"] *)
Definition session_channel_name (s : State) (channelId : string) : string :=
  match channelNames s !! channelId with
  | Some n => if Js.truthy n then n else "default"
  | None => "default"
  end.

(** [handleResultMessage] rejects when [db.setSession] throws, which is
    before anything is stored, and when the cost cannot be formatted,
    which is after the session was stored and only when there is a
    channel to send to.  A failure of [channel.send] is caught inside. *)
Definition handleResultMessage (channelId : string) (r : ResultMessage)
  : M Outcome :=
  channelName ← gets (fun s => session_channel_name s channelId);
  match result_session_id r with
  | None => mret (Rejected "SQLiteError")
  | Some sid =>
      db_setSession channelId sid channelName;;
      channel ← gets (fun s => channel_of s channelId);
      match channel with
      | None => mret Resolved
      | Some ch =>
          match result_total_cost_usd r with
          | None => mret (Rejected "TypeError")
          | Some _ =>
              mode ← gets (fun s => getMode s channelId);
              let resultText :=
                match result_text r with
                | Some t => t
                | None => EmptyString
                end in
              let withText :=
                String.eqb (result_subtype r) "success"
                && match mode with Shell.plan => true | _ => false end
                && (50 <? String.length resultText)%nat in
              _ ← send ch (ResultEmbed r withText);
              mret Resolved
          end
      end
  end.

(** The [result] branch of the Claude stdout loop:
    [handleResultMessage(...).then(() => { clearTimeout(timeout);
    claude.kill("SIGTERM"); this.channelProcesses.delete(channelId);
    }).catch(console.error)]: the clean-up runs when the handler
    resolves, and only then. *)
Definition on_result (channelId : string) (p : nat) (r : ResultMessage)
  : M unit :=
  out ← handleResultMessage channelId r;
  match out with
  | Resolved =>
      clearTimeout p;;
      emit (Kill p "SIGTERM");;
      modify (upd_channelProcesses (delete channelId))
  | Rejected errorMessage => emit (ConsoleError errorMessage)
  end.

(** *** Tool calls and their results *)

(** [this.channelToolCalls.get(channelId) || new Map()] *)
Definition tool_calls (s : State) (channelId : string) : gmap string ToolCall :=
  default ∅ (channelToolCalls s !! channelId).

(** The first line of a result, cut to [limit] characters. *)
Definition shorten (limit : nat) (line : string) : string :=
  if (limit <? String.length line)%nat then Js.take limit line +:+ "..."
  else line.

Definition first_line (text : string) : string :=
  List.hd EmptyString (Js.split Js.nl text).

(** The body of the loop of [handleToolResultMessage] for one result. *)
Definition update_tool_result
    (toolCalls : gmap string ToolCall) (result : ToolResult) : M unit :=
  match toolCalls !! tool_use_id result with
  | Some {| message := Some m |} =>
      match result_content result, msg_embeds m with
      | JString text, currentEmbed :: _ =>
          let resultText := shorten 100 (Js.trim (first_line text)) in
          edit m (ToolResultEmbed currentEmbed (result_is_error result)
                    resultText)
      | _, _ => emit (ConsoleError "Error updating tool result message:")
      end
  | _ => skip
  end.

(** [toolResults] are the [tool_result] blocks of the message. *)
Definition handleToolResultMessage
    (channelId : string) (toolResults : list ToolResult) : M unit :=
  match toolResults with
  | [] => skip
  | _ =>
      toolCalls ← gets (fun s => tool_calls s channelId);
      for_each toolResults (update_tool_result toolCalls)
  end.

Definition handleCodexCommandStart (channelId : string) (item : CodexItem)
  : M unit :=
  channel ← gets (fun s => channel_of s channelId);
  match channel with
  | None => skip
  | Some ch =>
      m ← send ch (CommandEmbed (item_command item));
      toolCalls ← gets (fun s => tool_calls s channelId);
      modify (upd_channelToolCalls
                <[channelId :=
                    <[item_id item :=
                        {| message := Some m; toolId := item_id item |}]>
                      toolCalls]>)
  end.

Definition handleCodexCommandComplete (channelId : string) (item : CodexItem)
  : M unit :=
  channel ← gets (fun s => channel_of s channelId);
  match channel with
  | None => skip
  | Some ch =>
      toolCalls ← gets (fun s => tool_calls s channelId);
      let output := Js.trim (item_aggregated_output item) in
      let resultText := shorten 120 (first_line output) in
      let failed :=
        String.eqb (item_status item) "failed"
        || match item_exit_code item with
           | Some c => negb (bool_decide (c = 0%Z))
           | None => false
           end in
      match toolCalls !! item_id item with
      | Some {| message := Some {| msg_id := i; msg_channel := c;
                                   msg_embeds := currentEmbed :: es |} |} =>
          edit {| msg_id := i; msg_channel := c;
                  msg_embeds := currentEmbed :: es |}
            (CommandResultEmbed currentEmbed (negb failed) resultText)
      | Some {| message := Some {| msg_embeds := [] |} |} =>
          (* [toolCall.message.embeds[0].data]: a TypeError that rejects
             the handler; the caller's [.catch(console.error)] prints it *)
          emit (ConsoleError "TypeError")
      | _ =>
          _ ← send ch (CommandDoneEmbed (negb failed) (item_command item)
                         resultText);
          skip
      end
  end.

(** *** Answering the provider on its stdin *)

(** The object [sendToolResponse] builds. *)
Definition tool_response (toolUseId : string) (result : json) : json :=
  JObject
    [("type", JString "user");
     ("message",
      JObject
        [("role", JString "user");
         ("content",
          JArray
            [JObject
               [("type", JString "tool_result");
                ("tool_use_id", JString toolUseId);
                ("content", JString (stringify result));
                ("is_error", JBool false)]])])].

(** [JSON.stringify(response) + "\n"] *)
Definition tool_response_line (toolUseId : string) (result : json) : string :=
  stringify (tool_response toolUseId result) +:+ Js.LF.

(** [channelProcess?.process?.stdin] *)
Definition stdin_of (s : State) (channelId : string) : option nat :=
  e ← channelProcesses s !! channelId;
  p ← process e;
  if stdin p then Some (pid p) else None.

(** What [sendToolResponse] does to the outside in a state. *)
Definition answer_effect
    (s : State) (channelId toolUseId : string) (result : json) : Effect :=
  match stdin_of s channelId with
  | Some p => StdinWrite p (tool_response_line toolUseId result)
  | None =>
      ConsoleError "Cannot send tool response: no process stdin available"
  end.

Definition sendToolResponse
    (channelId toolUseId : string) (result : json) : M unit :=
  target ← gets (fun s => stdin_of s channelId);
  match target with
  | None =>
      emit (ConsoleError
              "Cannot send tool response: no process stdin available")
  | Some p => emit (StdinWrite p (tool_response_line toolUseId result))
  end.



(** *** Plan approval *)

(** What the wait for the plan buttons ends with: a click on Approve, a
    click on Reject followed by the feedback message (if one came), or
    the timeout. *)
Inductive PlanAnswer :=
| PlanApprove
| PlanReject (feedback : option string)
| PlanTimeout.

Definition plan_timeout_payload : json :=
  JObject [("rejected", JBool true);
           ("feedback", JString "Review timed out - no response from user")].

(** [handleExitPlanMode] up to its wait: the review message is sent. *)
Definition plan_review_open (channel : string) : M Message :=
  send channel PlanReviewEmbed.

(** [handleExitPlanMode] from the end of its wait on: the review message
    [m] is updated and the decision goes to [sendToolResponse]. *)
Definition plan_review_close
    (channelId : string) (tool : ToolUse) (m : Message)
    (answer : PlanAnswer) : M unit :=
  match answer with
  | PlanApprove =>
      edit m PlanApprovedEmbed;;
      sendToolResponse channelId (tool_id tool) (JObject [])
  | PlanReject collected =>
      let feedback :=
        match collected with
        | Some t => if Js.truthy t then t else "Plan rejected without feedback"
        | None => "Plan rejected without feedback"
        end in
      edit m (PlanRejectedEmbed feedback);;
      sendToolResponse channelId (tool_id tool)
        (JObject [("rejected", JBool true); ("feedback", JString feedback)])
  | PlanTimeout =>
      edit m PlanTimedOutEmbed;;
      sendToolResponse channelId (tool_id tool) plan_timeout_payload
  end.

Definition handleExitPlanMode
    (channelId : string) (tool : ToolUse) (channel : string)
    (answer : PlanAnswer) : M unit :=
  m ← plan_review_open channel;
  plan_review_close channelId tool m answer.

(** *** Questions *)

(** What the wait for a question's buttons ends with: a click on the
    option with the given index, a click on Other followed by the typed
    answer (if one came), or the timeout. *)
Inductive QuestionAnswer :=
| Chose (index : nat)
| Other (typed : option string)
| NoAnswer.

Definition no_response_timed_out : string := "No response (timed out)".

(** [answers[q.question] = value] on the object [answers]. *)
Definition set_answer (k v : string) (answers : list (string * json))
  : list (string * json) :=
  Js.objSet k (JString v) answers.


(** One turn of the loop: the question is sent, the wait ends, the answer
    is noted and the message is updated.  A failure inside the [try]
    (here: an index that names no option) lands in the same [catch] as
    the timeout. *)
Definition ask_one
    (channel : string) (q : Question) (answer : QuestionAnswer)
    (answers : list (string * json)) : M (list (string * json)) :=
  m ← send channel (QuestionEmbed q);
  match answer with
  | Other typed =>
      let userResponse :=
        match typed with
        | Some t => if Js.truthy t then t else "No response"
        | None => "No response"
        end in
      edit m (QuestionAnsweredEmbed q userResponse);;
      mret (set_answer (question q) userResponse answers)
  | Chose index =>
      match options q !! index with
      | Some selectedOption =>
          edit m (QuestionAnsweredEmbed q (label selectedOption));;
          mret (set_answer (question q) (label selectedOption) answers)
      | None =>
          edit m (QuestionTimedOutEmbed q);;
          mret (set_answer (question q) no_response_timed_out answers)
      end
  | NoAnswer =>
      edit m (QuestionTimedOutEmbed q);;
      mret (set_answer (question q) no_response_timed_out answers)
  end.

(** The loop over the questions, each with the end of its wait. *)
Fixpoint ask_all
    (channel : string) (qs : list (Question * QuestionAnswer))
    (answers : list (string * json)) : M (list (string * json)) :=
  match qs with
  | [] => mret answers
  | (q, a) :: qs' =>
      answers' ← ask_one channel q a answers;
      ask_all channel qs' answers'
  end.

(** [questions] are [tool.input?.questions || []], each paired with the
    end of its wait. *)
Definition handleAskUserQuestion
    (channelId : string) (toolUseId : string)
    (questions : list (Question * QuestionAnswer)) (channel : string)
  : M unit :=
  match questions with
  | [] => sendToolResponse channelId toolUseId (JObject [("answers", JObject [])])
  | _ =>
      answers ← ask_all channel questions [];
      sendToolResponse channelId toolUseId
        (JObject [("answers", JObject answers)])
  end.

(** *** Tool uses of an assistant message

    The loop over the [tool_use] blocks of [handleAssistantMessage], which
    follows the sending of the text.  The two interactive tools come with
    the end of their wait. *)
Inductive Human :=
| Nobody
| Planner (a : PlanAnswer)
| Answerer (qs : list (Question * QuestionAnswer)).

Definition show_tool
    (channelId channel : string) (aliased : bool)
    (toolCalls : gmap string ToolCall) (tool : ToolUse) (h : Human)
  : M (gmap string ToolCall) :=
  if String.eqb (tool_name tool) "AskUserQuestion" then
    handleAskUserQuestion channelId (tool_id tool)
      (match h with Answerer qs => qs | _ => [] end) channel;;
    mret toolCalls
  else if String.eqb (tool_name tool) "ExitPlanMode" then
    handleExitPlanMode channelId tool channel
      (match h with Planner a => a | _ => PlanTimeout end);;
    mret toolCalls
  else
    sentMessage ← send channel (ToolCallEmbed tool);
    let toolCalls' :=
      <[tool_id tool := {| message := Some sentMessage;
                           toolId := tool_id tool |}]> toolCalls in
    (* [toolCalls] is the map of the channel itself when there is one *)
    (if aliased
     then modify (upd_channelToolCalls <[channelId := toolCalls']>)
     else skip);;
    mret toolCalls'.

Fixpoint show_tools
    (channelId channel : string) (aliased : bool)
    (toolCalls : gmap string ToolCall) (tools : list (ToolUse * Human))
  : M (gmap string ToolCall) :=
  match tools with
  | [] => mret toolCalls
  | (tool, h) :: rest =>
      toolCalls' ← show_tool channelId channel aliased toolCalls tool h;
      show_tools channelId channel aliased toolCalls' rest
  end.

Definition handleAssistantTools
    (channelId : string) (session_id : string)
    (toolUses : list (ToolUse * Human)) : M unit :=
  channel ← gets (fun s => channel_of s channelId);
  match channel with
  | None => skip
  | Some ch =>
      aliased ← gets (fun s =>
                        bool_decide (is_Some (channelToolCalls s !! channelId)));
      toolCalls ← gets (fun s => tool_calls s channelId);
      toolCalls' ← show_tools channelId ch aliased toolCalls toolUses;
      channelName ← gets (fun s => session_channel_name s channelId);
      db_setSession channelId session_id channelName;;
      modify (upd_channelToolCalls <[channelId := toolCalls']>)
  end.

End Manager.

(** ** Message intake ([DiscordBot.handleMessage], [src/bot/client.ts])

    [handleMessage] is an [async] method: between two [await]s it runs
    without interruption, and at an [await] on the chat surface other events
    are handled.  It is modelled by its uninterrupted segments; a message
    whose handling waits at an [await] is kept with what its continuation
    needs. *)

Module Bot.
Import Manager.

Record Config := {
  allowedUserId : string;
  baseFolder : string;
  mcpConfigPath : string
}.

(** An inbound chat message: [in_channel_name] is [message.channel.name]
    when the channel has a name, and [in_prompt] is the prompt that
    [buildPromptWithAttachments] makes of the content and the downloaded
    attachments. *)
Record Inbound := {
  author_bot : bool;
  author_id : string;
  in_channel : string;
  in_channel_name : option string;
  in_content : string;
  in_prompt : string
}.

Definition channel_name (m : Inbound) : string :=
  default "default" (in_channel_name m).

(** A suspended [handleMessage]: at the wait for the folder buttons, or at
    the sending of the status message (after [getSessionId]). *)
Inductive Cont :=
| AwaitFolderChoice (m : Inbound) (providerLabel projectPath : string)
    (infoMsg : Message)
| AwaitStatusSent (m : Inbound) (sid : option string) (reply : Message).

Record BotState := MkBot {
  core : State;
  waiting : gmap nat Cont;
  next_wait : nat
}.

Definition initial (dirs : gset string) : BotState :=
  MkBot (Manager.initial dirs) ∅ 1.

Definition with_core (bs : BotState) (s : State) : BotState :=
  MkBot s (waiting bs) (next_wait bs).

Definition suspend (bs : BotState) (c : Cont) : BotState :=
  MkBot (core bs) (<[next_wait bs := c]> (waiting bs)) (S (next_wait bs)).

Definition resume (bs : BotState) (k : nat) : BotState :=
  MkBot (core bs) (delete k (waiting bs)) (next_wait bs).

(** From [getSessionId] to the [await] on the status message. *)
Definition begin_session
    (m : Inbound) (providerLabel : string) (bs : BotState) : BotState :=
  let sid := getSessionId (core bs) (in_channel m) in
  let '(reply, s') :=
    send (in_channel m) (StatusEmbed sid providerLabel) (core bs) in
  suspend (with_core bs s') (AwaitStatusSent m sid reply).

Definition starts_with_slash (content : string) : bool :=
  match content with
  | String "/" _ => true
  | _ => false
  end.

(** The first segment of [handleMessage]. *)
Definition handleMessage (cfg : Config) (m : Inbound) (bs : BotState)
  : BotState :=
  if author_bot m then bs
  else if negb (String.eqb (author_id m) (allowedUserId cfg)) then bs
  else if hasActiveProcess (core bs) (in_channel m) then bs
  else
    let channelName := channel_name m in
    let providerLabel :=
      provider_label (getProvider (core bs) (in_channel m)) in
    if String.eqb channelName "general" then bs
    else if starts_with_slash (in_content m) then bs
    else
      let folderName :=
        folder_name (getPath (core bs) (in_channel m)) channelName in
      let projectPath := path_join (baseFolder cfg) folderName in
      if existsSync (core bs) projectPath then
        begin_session m providerLabel bs
      else
        let '(infoMsg, s') :=
          send (in_channel m) (FolderInfoEmbed providerLabel projectPath)
            (core bs) in
        suspend (with_core bs s')
          (AwaitFolderChoice m providerLabel projectPath infoMsg).

(** The segment after the wait for the folder buttons: [choice] is
    [Some true] for Create Folder, [Some false] for Change Path and
    [None] for the timeout.  The [catch] of the timeout is also where a
    failure of [fs.mkdirSync] ends. *)
Definition after_folder_choice
    (m : Inbound) (providerLabel projectPath : string) (infoMsg : Message)
    (choice : option bool) (bs : BotState) : BotState :=
  match choice with
  | Some true =>
      let '(made, s') := mkdirSync projectPath (core bs) in
      if (made : bool) then
        begin_session m providerLabel
          (with_core bs
             (exec (edit infoMsg (FolderCreatedEmbed projectPath)) s'))
      else with_core bs (exec (edit infoMsg FolderTimedOutEmbed) s')
  | Some false => with_core bs (exec (edit infoMsg PathChangeEmbed) (core bs))
  | None => with_core bs (exec (edit infoMsg FolderTimedOutEmbed) (core bs))
  end.

(** The segment after the status message was sent, to the end. *)
Definition after_status_sent
    (cfg : Config) (m : Inbound) (sid : option string) (reply : Message)
  : M unit :=
  setDiscordMessage (in_channel m) reply;;
  reserveChannel (in_channel m) sid reply;;
  out ← runClaudeCode (baseFolder cfg) (mcpConfigPath cfg) (in_channel m)
          (channel_name m) (in_prompt m) sid;
  match out with
  | Resolved => skip
  | Rejected errorMessage =>
      emit (ConsoleError "Error running provider:");;
      clearSession (in_channel m);;
      _ ← send (in_channel m) (ErrorText errorMessage); skip
  end.

(** *** Events

    What the event loop delivers: a chat message, the end of a wait of a
    suspended [handleMessage], and the events of a child process.  An
    event of a process is delivered to the handlers registered for it,
    which exist from its spawning to its [close]; the timer callback runs
    only while the timer is armed. *)
Inductive Event :=
| MessageCreate (m : Inbound)
| FolderChoice (k : nat) (choice : option bool)
| StatusSent (k : nat)
| TimerFired (p : nat)
| ResultLine (p : nat) (r : ResultMessage)
| ProcessError (p : nat) (errorMessage : string)
| ProcessClose (p : nat) (code : option Z).

Definition mark_closed (p : nat) : M unit :=
  modify (upd_processes
            (alter (fun i => {| proc_channel := proc_channel i;
                                proc_provider := proc_provider i;
                                proc_closed := true;
                                proc_timer := proc_timer i |}) p)).

(** The handlers of process [p], if it is still open. *)
Definition open_process (s : State) (p : nat) : option ProcInfo :=
  i ← processes s !! p;
  if proc_closed i then None else Some i.

Definition step (cfg : Config) (bs : BotState) (e : Event) : BotState :=
  match e with
  | MessageCreate m => handleMessage cfg m bs
  | FolderChoice k choice =>
      match waiting bs !! k with
      | Some (AwaitFolderChoice m providerLabel projectPath infoMsg) =>
          after_folder_choice m providerLabel projectPath infoMsg choice
            (resume bs k)
      | _ => bs
      end
  | StatusSent k =>
      match waiting bs !! k with
      | Some (AwaitStatusSent m sid reply) =>
          with_core (resume bs k)
            (exec (after_status_sent cfg m sid reply) (core bs))
      | _ => bs
      end
  | TimerFired p =>
      match open_process (core bs) p with
      | Some i =>
          if proc_timer i then
            with_core bs
              (exec (on_timeout (proc_provider i) (proc_channel i) p)
                 (core bs))
          else bs
      | None => bs
      end
  | ResultLine p r =>
      match open_process (core bs) p with
      | Some i =>
          match proc_provider i with
          | claude =>
              with_core bs (exec (on_result (proc_channel i) p r) (core bs))
          | codex => bs
          end
      | None => bs
      end
  | ProcessError p errorMessage =>
      match open_process (core bs) p with
      | Some i =>
          with_core bs
            (exec (on_error (proc_provider i) (proc_channel i) p
                     errorMessage) (core bs))
      | None => bs
      end
  | ProcessClose p code =>
      match open_process (core bs) p with
      | Some i =>
          with_core bs
            (exec (on_close (proc_provider i) (proc_channel i) p code;;
                   mark_closed p) (core bs))
      | None => bs
      end
  end.

Definition run (cfg : Config) (bs : BotState) (events : list Event)
  : BotState :=
  fold_left (step cfg) events bs.

(** A process that was spawned for the channel and has not terminated. *)
Definition is_live (s : State) (channelId : string) (p : nat) : bool :=
  match open_process s p with
  | Some i => String.eqb (proc_channel i) channelId
  | None => false
  end.

(** A signal was sent to the process. *)
Definition signalled (s : State) (p : nat) : bool :=
  existsb (fun e => match e with
                    | Kill q _ => Nat.eqb p q
                    | _ => false
                    end) (effects s).

End Bot.

(** ** The command line as the shell reads it

    [/bin/bash -c commandString] splits the command string into tokens
    (POSIX Shell Command Language, 2.3 Token Recognition, with the quoting of
    2.2): unquoted blanks end a word, [&&] is an operator, a single quote
    opens a quotation in which every character is literal, a backslash makes
    the next character literal.  Any other character that is special to the
    shell when unquoted makes the result [None]: the command line is not a
    list of plain commands. *)

Module ShellLine.

Inductive token :=
| Word (value : string)
| AndIf.

Definition is_blank (c : ascii) : bool :=
  Ascii.eqb c " " || Ascii.eqb c "009".

(** The word in progress, with one more character. *)
Definition push (cur : option string) (c : ascii) : option string :=
  Some (default EmptyString cur +:+ String c EmptyString).

(** The word in progress, ended. *)
Definition flush (cur : option string) : list token :=
  match cur with
  | Some w => [Word w]
  | None => []
  end.

Fixpoint scan (in_quote : bool) (cur : option string) (s : string)
  : option (list token) :=
  match s with
  | EmptyString => if in_quote then None else Some (flush cur)
  | String c s' =>
      if in_quote then
        if Ascii.eqb c "'" then scan false cur s'
        else scan true (push cur c) s'
      else if Ascii.eqb c "'" then
        scan true (Some (default EmptyString cur)) s'
      else if Ascii.eqb c "\" then
        match s' with
        | EmptyString => None
        | String d s'' =>
            if Ascii.eqb d Js.nl then scan false cur s''
            else scan false (push cur d) s''
        end
      else if is_blank c then
        app (flush cur) <$> scan false None s'
      else if Ascii.eqb c "&" then
        match s' with
        | String d s'' =>
            if Ascii.eqb d "&"
            then (fun l => flush cur ++ AndIf :: l) <$> scan false None s''
            else None
        | EmptyString => None
        end
      else if Shell.is_special c then None
      else scan false (push cur c) s'
  end.

(** The tokens of a command line. *)
Definition tokens (commandString : string) : option (list token) :=
  scan false None commandString.

(** A word that needs no quoting: not empty, and every character stands
    for itself. *)
Definition bare (w : string) : bool :=
  negb (String.eqb w "")
  && forallb (fun c => negb (Shell.is_special c || Ascii.eqb c "'"
                             || Ascii.eqb c "\"))
       (list_ascii_of_string w).

(** [text] is read as one word, or as the rest of one, with the value
    [value]. *)
Definition reads (text value : string) : Prop :=
  forall cur rest,
    scan false cur (text +:+ rest)
    = scan false (Some (default EmptyString cur +:+ value)) rest.

End ShellLine.

(** ** Long texts ([handleAssistantMessage] and [handleCodexMessage])

    A text of more than [MAX_EMBED_LENGTH] characters is cut into chunks, one
    embed each, by the same loop in both handlers:
<<
      while (remaining.length > 0) {
        if (remaining.length <= MAX_EMBED_LENGTH) { chunks.push(remaining); break; }
        let splitIndex = remaining.lastIndexOf("\n\n", MAX_EMBED_LENGTH);
        if (splitIndex === -1 || splitIndex < MAX_EMBED_LENGTH / 2)
          splitIndex = remaining.lastIndexOf("\n", MAX_EMBED_LENGTH);
        if (splitIndex === -1 || splitIndex < MAX_EMBED_LENGTH / 2) {
          splitIndex = remaining.lastIndexOf(". ", MAX_EMBED_LENGTH);
          if (splitIndex !== -1) splitIndex += 1;
        }
        if (splitIndex === -1 || splitIndex < MAX_EMBED_LENGTH / 2)
          splitIndex = MAX_EMBED_LENGTH;
        chunks.push(remaining.substring(0, splitIndex));
        remaining = remaining.substring(splitIndex).trim();
      }
>>
    The loop is written for any limit; [splitIndex < limit / 2] is the
    comparison [2 * splitIndex < limit]. *)

Module Text.

(** [s.startsWith(p)] *)
Fixpoint startsWith (p s : string) : bool :=
  match p, s with
  | EmptyString, _ => true
  | String a p', String b s' => Ascii.eqb a b && startsWith p' s'
  | _, _ => false
  end.

(** [s.substring(n)] *)
Fixpoint drop (n : nat) (s : string) : string :=
  match n, s with
  | S n', String _ s' => drop n' s'
  | _, _ => s
  end.

(** [s.lastIndexOf(p, from)]: the largest index up to [from] at which [p]
    starts in [s]; [None] is [-1]. *)
Fixpoint lastIndexOf (p s : string) (from : nat) : option nat :=
  let here := if startsWith p s then Some 0 else None in
  match s, from with
  | String _ s', S from' =>
      match lastIndexOf p s' from' with
      | Some i => Some (S i)
      | None => here
      end
  | _, _ => here
  end.

Definition MAX_EMBED_LENGTH : nat := 4000.

(** [splitIndex === -1 || splitIndex < limit / 2] *)
Definition unusable (limit : nat) (splitIndex : option nat) : bool :=
  match splitIndex with
  | None => true
  | Some i => (2 * i <? limit)%nat
  end.

(** Where the loop cuts a text longer than [limit]: at the last blank
    line, else at the last line break, else after the last full stop that
    a space follows, each within the first [limit] characters and not
    before the middle; else at [limit]. *)
Definition split_index (limit : nat) (remaining : string) : nat :=
  let splitIndex := lastIndexOf (Js.LF +:+ Js.LF) remaining limit in
  let splitIndex :=
    if unusable limit splitIndex then lastIndexOf Js.LF remaining limit
    else splitIndex in
  let splitIndex :=
    if unusable limit splitIndex
    then S <$> lastIndexOf ". " remaining limit
    else splitIndex in
  match splitIndex with
  | Some i => if (2 * i <? limit)%nat then limit else i
  | None => limit
  end.

(** The text without its white space. *)
Fixpoint visible (s : string) : string :=
  match s with
  | EmptyString => EmptyString
  | String c s' => if Js.is_space c then visible s' else String c (visible s')
  end.


(** The [while] loop; [None] when the fuel runs out before the loop
    ends. *)
Fixpoint chunk_loop (limit fuel : nat) (remaining : string)
  : option (list string) :=
  if (String.length remaining =? 0)%nat then Some []
  else if (String.length remaining <=? limit)%nat then Some [remaining]
  else
    match fuel with
    | O => None
    | S fuel' =>
        let splitIndex := split_index limit remaining in
        cons (Js.take splitIndex remaining)
          <$> chunk_loop limit fuel' (Js.trim (drop splitIndex remaining))
    end.

(** The chunks of a text. *)
Definition chunks (content : string) : option (list string) :=
  chunk_loop MAX_EMBED_LENGTH (String.length content) content.

End Text.

(** ** Slash commands ([CommandHandler], [src/bot/client.ts])

    [handleInteraction] tests [interaction.commandName] against every
    command in turn; the names differ, so one branch runs, and it is
    modelled as a case distinction on the command with its options.  A
    reply is kept as the template the code fills in and the values it fills
    in.  What [/ls], [/cat] and [/tree] read from the file system is named
    by the path they read; reading a directory or a file as what it is
    does not fail. *)

Module Commands.
Import Manager.

(** [s.toLowerCase()] on code units below 256: the letters [A] to [Z] and
    the capital letters of Latin-1 ([U+00C0] to [U+00DE] without the
    multiplication sign). *)
Definition lower (c : ascii) : ascii :=
  let n := nat_of_ascii c in
  if ((65 <=? n) && (n <=? 90)
      || (192 <=? n) && (n <=? 222) && negb (n =? 215))%nat
  then ascii_of_nat (n + 32)
  else c.

Fixpoint toLowerCase (s : string) : string :=
  match s with
  | EmptyString => EmptyString
  | String c s' => String (lower c) (toLowerCase s')
  end.

Inductive Command :=
| Clear
| Stop
| Mode (mode : Shell.PermissionMode)
| Model (model : ClaudeModel)
| Provider (provider : Manager.Provider)
| Status
| Init
| Ls (path : option string)
| Cat (file : string) (lines : option nat)
| Tree (depth : option nat)
| Setpath (folder : string).

(** An interaction: [channel_name] is [interaction.channel.name] when the
    channel has a name, and [command] is the chat input command, if the
    interaction is one. *)
Record Interaction := {
  user_id : string;
  channelId : string;
  channel_name : option string;
  command : option Command
}.

Inductive Reply :=
| NotAuthorized
| SessionCleared
| Stopped
| NoActiveProcess
| ModeUpdated (mode : Shell.PermissionMode)
| ModelUpdated (model : ClaudeModel)
| ProviderUpdated (provider : Manager.Provider)
| ChannelStatus (provider : Manager.Provider) (mode : Shell.PermissionMode)
    (model : option ClaudeModel) (hasSession : bool) (folder : string)
    (custom : bool)
| CannotInitialize
| FolderExists (projectPath : string)
| FolderCreated (projectPath : string)
| FolderFailed (errorMessage : string)
| NoProjectFolder
| OutsideProject
| PathNotFound (displayPath : string)
| Listing (displayPath targetPath : string)
| ListingFailed (targetPath : string)
| FileNotFound (filePath : string)
| IsDirectory (filePath : string)
| FileContent (filePath targetPath : string) (maxLines : nat)
| TreeOf (channelName projectPath : string) (maxDepth : nat)
| PathCleared (channelName : string)
| FolderNotFound (folderPath : string)
| PathSet (folderPath : string).

(** *** The setters of [ClaudeManager] and [DatabaseManager] *)

Definition setMode (channelId : string) (mode : Shell.PermissionMode)
  : M unit :=
  modify (upd_channel_modes <[channelId := mode]>).

Definition setModel (channelId : string) (model : ClaudeModel) : M unit :=
  modify (upd_channel_models <[channelId := model]>).

Definition setPath (channelId folderName : string) : M unit :=
  modify (upd_channel_paths <[channelId := folderName]>).

Definition clearPath (channelId : string) : M unit :=
  modify (upd_channel_paths (delete channelId)).

(** [fs.statSync(path).isDirectory()] for a path that exists. *)
Definition isDirectory (s : State) (path : string) : bool :=
  let p := Fs.canonical (cwd s) path in
  String.eqb p "/" || bool_decide (p ∈ directories s).

(** [x || d] for a string that may be absent. *)
Definition or_else (x : option string) (d : string) : string :=
  match x with
  | Some v => if Js.truthy v then v else d
  | None => d
  end.

(** [n || d] for a number that may be absent. *)
Definition or_number (n : option nat) (d : nat) : nat :=
  match n with
  | Some 0 | None => d
  | Some v => v
  end.

Definition getProjectPath
    (baseFolder : string) (s : State) (i : Interaction) : option string :=
  let fallback :=
    match channel_name i with
    | Some channelName =>
        if Js.truthy channelName then
          let projectPath := Path.join [baseFolder; channelName] in
          if existsSync s projectPath then Some projectPath else None
        else None
    | None => None
    end in
  match getPath s (channelId i) with
  | Some customFolder =>
      if Js.truthy customFolder then
        let customPath := Path.join [baseFolder; customFolder] in
        if existsSync s customPath then Some customPath
        else fallback
      else fallback
  | None => fallback
  end.

(** The path that [/ls] and [/cat] read: [path.join(projectPath,
    relativePath)] when it passes the check [startsWith(projectPath)]. *)
Definition guarded (projectPath relativePath : string) : option string :=
  let targetPath := Path.join [projectPath; relativePath] in
  if Text.startsWith projectPath targetPath then Some targetPath else None.

(** [handleInteraction]; [mkdirError] is the message of what
    [fs.mkdirSync] throws, if it throws for a reason outside the model of
    the file system (permissions, a full disk). *)
Definition handleInteraction
    (allowedUserId baseFolder : string) (mkdirError : option string)
    (i : Interaction) : M (option Reply) :=
  match command i with
  | None => mret None
  | Some cmd =>
      if negb (String.eqb (user_id i) allowedUserId) then
        mret (Some NotAuthorized)
      else
        match cmd with
        | Clear =>
            clearSession (channelId i);;
            mret (Some SessionCleared)
        | Stop =>
            active ← gets (fun s => hasActiveProcess s (channelId i));
            if (active : bool) then
              killActiveProcess (channelId i);;
              mret (Some Stopped)
            else mret (Some NoActiveProcess)
        | Mode mode =>
            setMode (channelId i) mode;;
            mret (Some (ModeUpdated mode))
        | Model model =>
            setModel (channelId i) model;;
            mret (Some (ModelUpdated model))
        | Provider provider =>
            setProvider (channelId i) provider;;
            mret (Some (ProviderUpdated provider))
        | Status =>
            s ← gets id;
            let provider := getProvider s (channelId i) in
            let customPath := getPath s (channelId i) in
            let channelName := or_else (channel_name i) "unknown" in
            mret (Some (ChannelStatus provider
                          (getMode s (channelId i))
                          match provider with
                          | claude => Some (getModel s (channelId i))
                          | codex => None
                          end
                          match getSessionId s (channelId i) with
                          | Some sid => Js.truthy sid
                          | None => false
                          end
                          (or_else customPath channelName)
                          match customPath with
                          | Some p => Js.truthy p
                          | None => false
                          end))
        | Init =>
            match channel_name i with
            | None => mret (Some CannotInitialize)
            | Some channelName =>
                if negb (Js.truthy channelName)
                   || String.eqb channelName "general"
                then mret (Some CannotInitialize)
                else
                  let projectPath := Path.join [baseFolder; channelName] in
                  present ← gets (fun s => existsSync s projectPath);
                  if (present : bool) then
                    mret (Some (FolderExists projectPath))
                  else
                    match mkdirError with
                    | Some errorMessage =>
                        mret (Some (FolderFailed errorMessage))
                    | None =>
                        made ← mkdirSync projectPath;
                        if (made : bool) then
                          mret (Some (FolderCreated projectPath))
                        else
                          mret (Some (FolderFailed
                                        ("ENOTDIR: not a directory, mkdir '"
                                         +:+ projectPath +:+ "'")))
                    end
            end
        | Ls path =>
            s ← gets id;
            match getProjectPath baseFolder s i with
            | None => mret (Some NoProjectFolder)
            | Some projectPath =>
                let relativePath := or_else path "" in
                match guarded projectPath relativePath with
                | None => mret (Some OutsideProject)
                | Some targetPath =>
                    if negb (existsSync s targetPath) then
                      mret (Some (PathNotFound (or_else path "/")))
                    else if isDirectory s targetPath then
                      mret (Some (Listing (or_else path "/") targetPath))
                    else
                      (* [fs.readdirSync] throws on a file *)
                      mret (Some (ListingFailed targetPath))
                end
            end
        | Cat filePath lines =>
            s ← gets id;
            match getProjectPath baseFolder s i with
            | None => mret (Some NoProjectFolder)
            | Some projectPath =>
                match guarded projectPath filePath with
                | None => mret (Some OutsideProject)
                | Some targetPath =>
                    if negb (existsSync s targetPath) then
                      mret (Some (FileNotFound filePath))
                    else if isDirectory s targetPath then
                      mret (Some (IsDirectory filePath))
                    else
                      mret (Some (FileContent filePath targetPath
                                    (or_number lines 50)))
                end
            end
        | Tree depth =>
            s ← gets id;
            match getProjectPath baseFolder s i with
            | None => mret (Some NoProjectFolder)
            | Some projectPath =>
                mret (Some (TreeOf (or_else (channel_name i) "project")
                              projectPath (or_number depth 2)))
            end
        | Setpath folder =>
            if String.eqb (toLowerCase folder) "clear" then
              clearPath (channelId i);;
              mret (Some (PathCleared
                            (or_else (channel_name i) "unknown")))
            else
              let folderPath := Path.join [baseFolder; folder] in
              present ← gets (fun s => existsSync s folderPath);
              if negb present then mret (Some (FolderNotFound folderPath))
              else
                setPath (channelId i) folder;;
                mret (Some (PathSet folderPath))
        end
  end.

(** *** The event loop with interactions

    [interactionCreate] is one more event of the client. *)
Inductive Event :=
| Other (e : Bot.Event)
| InteractionCreate (mkdirError : option string) (i : Interaction).

Definition step (cfg : Bot.Config) (bs : Bot.BotState) (e : Event)
  : Bot.BotState :=
  match e with
  | Other e' => Bot.step cfg bs e'
  | InteractionCreate mkdirError i =>
      Bot.with_core bs
        (exec (handleInteraction (Bot.allowedUserId cfg)
                 (Bot.baseFolder cfg) mkdirError i) (Bot.core bs))
  end.

Definition run (cfg : Bot.Config) (bs : Bot.BotState) (events : list Event)
  : Bot.BotState :=
  fold_left (step cfg) events bs.



End Commands.
(** ** Paths shown in tool calls ([formatToolCall], [src/claude/manager.ts])

<<
      const channelName = this.channelNames.get(channelId);
      const basePath = channelName ? `${this.baseFolder}${channelName}` : "";
      const cleanPath = (val: string): string => {
        if (basePath && val === basePath) return ".";
        if (basePath && val.startsWith(basePath + "/")) {
          return val.replace(basePath + "/", "./");
        }
        return val;
      };
>>
*)

Module Format.

(** [s.replace(p, by)] for a string pattern and a replacement without
    [$] patterns: the first occurrence is replaced. *)
Fixpoint replace (p by_ s : string) : string :=
  if Text.startsWith p s then by_ +:+ Text.drop (String.length p) s
  else
    match s with
    | EmptyString => EmptyString
    | String c s' => String c (replace p by_ s')
    end.

Definition basePath (baseFolder : string) (channelName : option string)
  : string :=
  match channelName with
  | Some name => if Js.truthy name then baseFolder +:+ name else ""
  | None => ""
  end.

Definition cleanPath (basePath val : string) : string :=
  if Js.truthy basePath && String.eqb val basePath then "."
  else if Js.truthy basePath && Text.startsWith (basePath +:+ "/") val
  then replace (basePath +:+ "/") "./" val
  else val.

End Format.

(** ** Attachments ([src/utils/attachments.ts]) *)

Module Attachments.

(** [String(n)] for a non-negative integer below [10^21]: its decimal
    digits. *)
Definition decimal (n : N) : string :=
  DecimalString.NilEmpty.string_of_uint (N.to_uint n).

(** A character that [/[^a-zA-Z0-9.-]/] does not match. *)
Definition is_safe (c : ascii) : bool :=
  let n := nat_of_ascii c in
  ((97 <=? n) && (n <=? 122) || (65 <=? n) && (n <=? 90)
   || (48 <=? n) && (n <=? 57) || (n =? 46) || (n =? 45))%nat.

(** [name.replace(/[^a-zA-Z0-9.-]/g, '_')] *)
Fixpoint sanitize (name : string) : string :=
  match name with
  | EmptyString => EmptyString
  | String c name' =>
      String (if is_safe c then c else "_"%char) (sanitize name')
  end.

(** [path.join(os.tmpdir(), 'claude-discord-attachments')] *)
Definition ATTACHMENT_DIR (tmpdir : string) : string :=
  Path.join [tmpdir; "claude-discord-attachments"].

(** The name of the file in the directory. *)
Definition file_name (timestamp : N) (channelId name : string) (index : N)
  : string :=
  decimal timestamp +:+ "-" +:+ channelId +:+ "-" +:+ decimal index
    +:+ "-" +:+ sanitize name.

(** [getTempPath]; [timestamp] is [Date.now()]. *)
Definition getTempPath
    (tmpdir : string) (timestamp : N) (channelId name : string) (index : N)
  : string :=
  Path.join [ATTACHMENT_DIR tmpdir; file_name timestamp channelId name index].

End Attachments.
(** * Properties *)

(** ** Line framing *)

Section FramerFacts.
Import Framer.

Lemma split_nonempty sep s : Js.split sep s <> [].
Proof.
  destruct s as [|c s]; simpl; [discriminate|].
  destruct (Ascii.eqb c sep); [discriminate|].
  destruct (Js.split sep s); discriminate.
Qed.

Lemma removelast_cons_ne {A} (x : A) l :
  l <> [] -> removelast (x :: l) = x :: removelast l.
Proof. destruct l; [congruence | reflexivity]. Qed.

Lemma last_cons_ne {A} (x d : A) l : l <> [] -> List.last (x :: l) d = List.last l d.
Proof. destruct l; [congruence | reflexivity]. Qed.

(** Splitting a concatenation: the last piece of the left part is the
    only one that the right part can extend. *)
Lemma split_app sep x y :
  Js.split sep (x +:+ y)
  = removelast (Js.split sep x)
      ++ Js.split sep (List.last (Js.split sep x) EmptyString +:+ y).
Proof.
  induction x as [|c x IH]; simpl; [reflexivity|].
  pose proof (split_nonempty sep x) as Hne.
  destruct (Ascii.eqb c sep) eqn:Hc.
  - rewrite IH, removelast_cons_ne, last_cons_ne by assumption. reflexivity.
  - rewrite IH. destruct (Js.split sep x) as [|p [|q qs]]; [congruence| |].
    + simpl. rewrite Hc. reflexivity.
    + reflexivity.
Qed.

Lemma removelast_app_ne {A} (l1 l2 : list A) :
  l2 <> [] -> removelast (l1 ++ l2) = l1 ++ removelast l2.
Proof. intros. apply removelast_app. assumption. Qed.

Lemma last_app_ne {A} (l1 l2 : list A) d :
  l2 <> [] -> List.last (l1 ++ l2) d = List.last l2 d.
Proof.
  intros H. induction l1 as [|a l1 IH]; [reflexivity|].
  simpl. destruct (l1 ++ l2) eqn:E; [|assumption].
  apply app_eq_nil in E. tauto.
Qed.

Lemma append_assoc (a b c : string) : (a +:+ b) +:+ c = a +:+ (b +:+ c).
Proof. induction a; simpl; congruence. Qed.

Lemma append_empty_r (a : string) : a +:+ "" = a.
Proof. induction a; simpl; congruence. Qed.

(** The buffer left behind by a handler run holds no newline. *)
Lemma split_last sep s :
  Js.split sep (List.last (Js.split sep s) EmptyString)
  = [List.last (Js.split sep s) EmptyString].
Proof.
  induction s as [|c s IH]; simpl; [reflexivity|].
  pose proof (split_nonempty sep s) as Hne.
  destruct (Ascii.eqb c sep) eqn:Hc.
  - rewrite last_cons_ne by assumption. exact IH.
  - destruct (Js.split sep s) as [|p [|q qs]]; [congruence| |].
    + simpl in *. rewrite Hc, IH. reflexivity.
    + exact IH.
Qed.

(** Feeding chunk by chunk frames exactly as one split of the buffer
    followed by the whole output. *)
Lemma feed_whole chunks : forall buffer,
  Js.split Js.nl buffer = [buffer] ->
  feed buffer chunks = framed (buffer +:+ output chunks).
Proof.
  induction chunks as [|c cs IH]; intros buffer Hb; simpl.
  - unfold framed. rewrite append_empty_r, Hb. reflexivity.
  - rewrite IH by apply split_last.
    unfold framed. rewrite <- append_assoc.
    rewrite (split_app Js.nl (buffer +:+ c) (output cs)).
    pose proof (split_nonempty Js.nl
      (List.last (Js.split Js.nl (buffer +:+ c)) "" +:+ output cs)) as Hne.
    rewrite removelast_app_ne, last_app_ne by assumption.
    reflexivity.
Qed.

Lemma run_whole chunks : run chunks = framed (output chunks).
Proof. unfold run. rewrite feed_whole; reflexivity. Qed.

End FramerFacts.

(** Examples of framing: a record cut in two by a chunk boundary, a blank
    line, and an unfinished last line. *)
Example run_example :
  Framer.run ["ab" +:+ Js.LF +:+ "c"; "d" +:+ Js.LF +:+ Js.LF +:+ "e"]
  = (["ab"; "cd"; ""], "e").
Proof. reflexivity. Qed.

Example processed_example : Framer.processed ["ab"; "cd"; ""; "  "] = ["ab"; "cd"].
Proof. reflexivity. Qed.

(** Chunk-boundary independence of the framing on strings: two sequences
    of chunks that carry the same text make the handler emit the same
    complete lines in the same order, leave the same partial line in the
    buffer, and hand the same lines to the parser. *)
Lemma framer_chunk_independent (chunks1 chunks2 : list string) :
  Framer.output chunks1 = Framer.output chunks2 ->
  Framer.run chunks1 = Framer.run chunks2
  /\ Framer.processed (fst (Framer.run chunks1))
     = Framer.processed (fst (Framer.run chunks2)).
Proof.
  intros Hout. rewrite !run_whole, Hout. split; reflexivity.
Qed.

Example framer_chunk_independent_example :
  Framer.run ["ab" +:+ Js.LF +:+ "c"; "d" +:+ Js.LF]
  = Framer.run ["a"; "b" +:+ Js.LF; "cd"; Js.LF].
Proof.
  exact (proj1 (framer_chunk_independent
                  ["ab" +:+ Js.LF +:+ "c"; "d" +:+ Js.LF]
                  ["a"; "b" +:+ Js.LF; "cd"; Js.LF] eq_refl)).
Qed.

(** ** Line framing of the bytes *)

Section StdoutFacts.
Import Stdout.

Lemma usplit_nonempty s : split s <> [].
Proof.
  destruct s as [|u s]; simpl; [discriminate|].
  destruct (N.eqb u LF); [discriminate|].
  destruct (split s); discriminate.
Qed.

Lemma usplit_app x y :
  split (x ++ y) = removelast (split x) ++ split (List.last (split x) [] ++ y).
Proof.
  induction x as [|u x IH]; simpl; [reflexivity|].
  pose proof (usplit_nonempty x) as Hne.
  destruct (N.eqb u LF) eqn:Hu.
  - rewrite IH. destruct (split x) as [|p ps]; [congruence|].
    destruct ps; reflexivity.
  - rewrite IH. destruct (split x) as [|p [|q qs]]; [congruence| |].
    + simpl. rewrite Hu. reflexivity.
    + reflexivity.
Qed.

Lemma usplit_last s : split (List.last (split s) []) = [List.last (split s) []].
Proof.
  induction s as [|u s IH]; simpl; [reflexivity|].
  pose proof (usplit_nonempty s) as Hne.
  destruct (N.eqb u LF) eqn:Hu.
  - destruct (split s) as [|p ps]; [congruence|]. exact IH.
  - destruct (split s) as [|p [|q qs]]; [congruence| |].
    + simpl in *. rewrite Hu, IH. reflexivity.
    + exact IH.
Qed.

(** Feeding chunk by chunk frames as one split of the buffer followed by
    the decoded chunks. *)
Lemma ufeed_whole chunks : forall buffer,
  split buffer = [buffer] ->
  feed buffer chunks
  = framed (buffer ++ concat (List.map Utf8.toString chunks)).
Proof.
  induction chunks as [|c cs IH]; intros buffer Hb; simpl.
  - unfold framed. rewrite app_nil_r, Hb. reflexivity.
  - rewrite IH by apply usplit_last.
    unfold framed. rewrite app_assoc.
    rewrite (usplit_app (buffer ++ Utf8.toString c)).
    set (rest := concat (List.map Utf8.toString cs)).
    pose proof (usplit_nonempty
      (List.last (split (buffer ++ Utf8.toString c)) [] ++ rest)) as Hne.
    rewrite removelast_app_ne, last_app_ne by assumption.
    reflexivity.
Qed.

Lemma urun_whole chunks :
  run chunks = framed (concat (List.map Utf8.toString chunks)).
Proof. unfold run. rewrite ufeed_whole; reflexivity. Qed.

(** Decoding, byte sequence after byte sequence. *)
Lemma steps_app a : forall st b,
  Utf8.steps st (a ++ b)
  = let '(o1, s1) := Utf8.steps st a in
    let '(o2, s2) := Utf8.steps s1 b in (o1 ++ o2, s2).
Proof.
  induction a as [|x a IH]; intros st b; simpl.
  - destruct (Utf8.steps st b); reflexivity.
  - destruct (Utf8.step st (Byte.to_N x)) as [o s1].
    rewrite IH. destruct (Utf8.steps s1 a) as [o1 s2].
    destruct (Utf8.steps s2 b) as [o2 s3]. rewrite app_assoc. reflexivity.
Qed.

(** A state with no sequence open is the initial one. *)
Lemma start_idle b :
  Utf8.bytes_needed (snd (Utf8.start b)) = 0%N -> snd (Utf8.start b) = Utf8.init.
Proof.
  unfold Utf8.start.
  repeat (match goal with |- context [if ?c then _ else _] =>
            destruct c end; simpl; try discriminate; try reflexivity).
Qed.

Lemma step_idle st b :
  Utf8.bytes_needed (snd (Utf8.step st b)) = 0%N ->
  snd (Utf8.step st b) = Utf8.init.
Proof.
  unfold Utf8.step.
  destruct (N.eqb (Utf8.bytes_needed st) 0) eqn:E0; [apply start_idle|].
  destruct (negb (N.leb (Utf8.lower st) b && N.leb b (Utf8.upper st))).
  - pose proof (start_idle b) as H. destruct (Utf8.start b). exact H.
  - destruct (N.eqb (Utf8.bytes_seen st + 1) (Utf8.bytes_needed st));
      [reflexivity|].
    simpl. intros H. rewrite H in E0. discriminate.
Qed.

Lemma steps_idle bytes : forall st,
  (Utf8.bytes_needed st = 0%N -> st = Utf8.init) ->
  Utf8.bytes_needed (snd (Utf8.steps st bytes)) = 0%N ->
  snd (Utf8.steps st bytes) = Utf8.init.
Proof.
  induction bytes as [|b bs IH]; intros st Hst; simpl; [exact Hst|].
  pose proof (step_idle st (Byte.to_N b)) as Hs.
  destruct (Utf8.step st (Byte.to_N b)) as [o s1]. simpl in Hs.
  specialize (IH s1 Hs). destruct (Utf8.steps s1 bs). exact IH.
Qed.

(** Bytes that end where a character ends are decoded on their own as
    they are within a longer sequence. *)
Lemma decode_app a b :
  Utf8.whole_characters a = true ->
  Utf8.decode (a ++ b) = Utf8.decode a ++ Utf8.decode b.
Proof.
  unfold Utf8.whole_characters, Utf8.decode. intros H%N.eqb_eq.
  pose proof (steps_idle a Utf8.init (fun _ => eq_refl) H) as Hi.
  rewrite steps_app.
  destruct (Utf8.steps Utf8.init a) as [o1 s1]. simpl in H, Hi. subst s1.
  destruct (Utf8.steps Utf8.init b) as [o2 s2].
  simpl. rewrite app_nil_r, app_assoc. reflexivity.
Qed.

Lemma toString_app a b :
  Utf8.whole_characters a = true ->
  Utf8.toString (a ++ b) = Utf8.toString a ++ Utf8.toString b.
Proof.
  intros H. unfold Utf8.toString.
  rewrite decode_app, flat_map_app by assumption. reflexivity.
Qed.

Lemma toString_concat chunks :
  forallb Utf8.whole_characters chunks = true ->
  Utf8.toString (concat chunks) = concat (List.map Utf8.toString chunks).
Proof.
  induction chunks as [|c cs IH]; simpl; [reflexivity|].
  intros [Hc Hcs]%andb_prop.
  rewrite toString_app, IH by assumption. reflexivity.
Qed.

(** Chunks that end where characters end are framed as the whole
    output. *)
Lemma run_whole_characters chunks :
  forallb Utf8.whole_characters chunks = true ->
  run chunks = framed (Utf8.toString (output chunks)).
Proof.
  intros H. rewrite urun_whole. unfold output.
  rewrite toString_concat by assumption. reflexivity.
Qed.

(** Bytes below 128 are characters of their own. *)
Lemma ascii_whole_characters bytes :
  forallb (fun b => Byte.to_N b <? 128)%N bytes = true ->
  Utf8.whole_characters bytes = true.
Proof.
  unfold Utf8.whole_characters.
  enough (forall o, Utf8.steps Utf8.init bytes = (o, snd (Utf8.steps Utf8.init bytes)) ->
                    forallb (fun b => Byte.to_N b <? 128)%N bytes = true ->
                    snd (Utf8.steps Utf8.init bytes) = Utf8.init) as E.
  { intros H. destruct (Utf8.steps Utf8.init bytes) as [o s] eqn:Es.
    simpl in *. rewrite (E o eq_refl H). reflexivity. }
  intros o _. clear o.
  induction bytes as [|b bs IH]; simpl; [reflexivity|].
  intros [Hb Hbs]%andb_prop. apply N.ltb_lt in Hb.
  unfold Utf8.step at 1. cbn [Utf8.bytes_needed Utf8.init N.eqb].
  unfold Utf8.start.
  destruct (N.leb_spec (Byte.to_N b) 127); [|lia].
  specialize (IH Hbs). destruct (Utf8.steps Utf8.init bs). exact IH.
Qed.

(** On the strings of the embedding the handler is [Framer.on_data]. *)
Lemma units_app a b : units (a +:+ b) = units a ++ units b.
Proof.
  unfold units. induction a as [|c a IH]; simpl; [reflexivity|].
  rewrite IH. reflexivity.
Qed.

Lemma N_of_ascii_nl c : N.eqb (N_of_ascii c) LF = Ascii.eqb c Js.nl.
Proof. destruct c as [[] [] [] [] [] [] [] []]; reflexivity. Qed.

Lemma split_units s : split (units s) = List.map units (Js.split Js.nl s).
Proof.
  induction s as [|c s IH]; [reflexivity|].
  change (units (String c s)) with (N_of_ascii c :: units s).
  simpl. rewrite N_of_ascii_nl, IH.
  destruct (Ascii.eqb c Js.nl); [reflexivity|].
  pose proof (split_nonempty Js.nl s).
  destruct (Js.split Js.nl s); [congruence|reflexivity].
Qed.

Lemma removelast_map {A B} (f : A -> B) l :
  removelast (List.map f l) = List.map f (removelast l).
Proof.
  induction l as [|x [|y l] IH]; [reflexivity..|].
  change (removelast (List.map f (x :: y :: l)))
    with (f x :: removelast (List.map f (y :: l))).
  rewrite IH. reflexivity.
Qed.

Lemma last_map {A B} (f : A -> B) l d :
  List.last (List.map f l) (f d) = f (List.last l d).
Proof. induction l as [|x [|y l] IH]; [reflexivity..|exact IH]. Qed.

Lemma on_data_units buffer data rawData :
  Utf8.toString data = units rawData ->
  on_data (units buffer) data
  = (List.map units (fst (Framer.on_data buffer rawData)),
     units (snd (Framer.on_data buffer rawData))).
Proof.
  intros H. unfold on_data, Framer.on_data.
  rewrite H, <- units_app, split_units, removelast_map.
  change (@nil N) with (units EmptyString). rewrite last_map. reflexivity.
Qed.

Lemma steps_cons st b rest :
  Utf8.steps st (b :: rest)
  = let '(out, st') := Utf8.step st (Byte.to_N b) in
    let '(outs, st'') := Utf8.steps st' rest in (out ++ outs, st'').
Proof. reflexivity. Qed.

Ltac one_step :=
  rewrite steps_cons;
  match goal with
  | |- context [Utf8.step ?st (Byte.to_N ?b)] =>
      let x := eval vm_compute in (Utf8.step st (Byte.to_N b)) in
      change (Utf8.step st (Byte.to_N b)) with x
  end;
  cbv beta iota.

Lemma steps_encode_unit c rest :
  Utf8.steps Utf8.init (Utf8.encode_unit c ++ rest)
  = let '(o, st) := Utf8.steps Utf8.init rest in (N_of_ascii c :: o, st).
Proof.
  destruct c as [[] [] [] [] [] [] [] []];
    match goal with
    | |- context [Utf8.encode_unit ?c] =>
        let e := eval vm_compute in (Utf8.encode_unit c) in
        change (Utf8.encode_unit c) with e
    end;
    match goal with
    | |- context [N_of_ascii ?c] =>
        let e := eval vm_compute in (N_of_ascii c) in
        change (N_of_ascii c) with e
    end;
    cbn [app]; repeat one_step;
    change (Utf8.steps {| Utf8.code_point := 0; Utf8.bytes_seen := 0;
                          Utf8.bytes_needed := 0; Utf8.lower := 128;
                          Utf8.upper := 191 |} rest)
      with (Utf8.steps Utf8.init rest);
    destruct (Utf8.steps Utf8.init rest); reflexivity.
Qed.

Lemma steps_encode s :
  Utf8.steps Utf8.init (Utf8.encode s) = (units s, Utf8.init).
Proof.
  induction s as [|c s IH]; [reflexivity|].
  simpl Utf8.encode. rewrite steps_encode_unit, IH. reflexivity.
Qed.

Lemma utf16_units s : flat_map Utf8.utf16 (units s) = units s.
Proof.
  induction s as [|c s IH]; [reflexivity|].
  change (units (String c s)) with (N_of_ascii c :: units s).
  simpl. rewrite IH.
  destruct c as [[] [] [] [] [] [] [] []]; reflexivity.
Qed.

Lemma toString_encode s : Utf8.toString (Utf8.encode s) = units s.
Proof.
  unfold Utf8.toString, Utf8.decode. rewrite steps_encode. simpl.
  rewrite app_nil_r. apply utf16_units.
Qed.

Lemma units_output chunks :
  concat (List.map units chunks) = units (Framer.output chunks).
Proof.
  induction chunks as [|c cs IH]; [reflexivity|].
  simpl. rewrite IH, units_app. reflexivity.
Qed.

Lemma framed_units s :
  framed (units s)
  = (List.map units (fst (Framer.framed s)),
     units (snd (Framer.framed s))).
Proof.
  unfold framed, Framer.framed. rewrite split_units, removelast_map.
  change (@nil N) with (units EmptyString). rewrite last_map.
  reflexivity.
Qed.

(** For a child that writes strings of the embedding, one per chunk, the
    handler frames what [Framer.run] frames. *)
Lemma run_encoded chunks :
  run (List.map Utf8.encode chunks)
  = (List.map units (fst (Framer.run chunks)),
     units (snd (Framer.run chunks))).
Proof.
  rewrite urun_whole, List.map_map.
  rewrite (List.map_ext _ units) by apply toString_encode.
  rewrite units_output, framed_units, run_whole. reflexivity.
Qed.

End StdoutFacts.

(** Two ways of splitting the same bytes into chunks, each chunk ending
    where a character ends, are framed alike; so are any two ways of
    splitting bytes below 128. *)
Lemma whole_characters_independent (chunks1 chunks2 : list (list Byte.byte)) :
  Stdout.output chunks1 = Stdout.output chunks2 ->
  forallb Utf8.whole_characters chunks1 = true ->
  forallb Utf8.whole_characters chunks2 = true ->
  Stdout.run chunks1 = Stdout.run chunks2.
Proof.
  intros Hout H1 H2.
  rewrite !run_whole_characters, Hout by assumption. reflexivity.
Qed.

Lemma ascii_chunks_independent (chunks1 chunks2 : list (list Byte.byte)) :
  Stdout.output chunks1 = Stdout.output chunks2 ->
  forallb (forallb (fun b => Byte.to_N b <? 128)%N) chunks1 = true ->
  forallb (forallb (fun b => Byte.to_N b <? 128)%N) chunks2 = true ->
  Stdout.run chunks1 = Stdout.run chunks2.
Proof.
  intros Hout H1 H2. apply whole_characters_independent; [exact Hout| |].
  - clear Hout H2. induction chunks1 as [|c cs IH]; [reflexivity|].
    simpl in *. apply andb_prop in H1 as [Hc Hcs].
    rewrite ascii_whole_characters, IH by assumption. reflexivity.
  - clear Hout H1. induction chunks2 as [|c cs IH]; [reflexivity|].
    simpl in *. apply andb_prop in H2 as [Hc Hcs].
    rewrite ascii_whole_characters, IH by assumption. reflexivity.
Qed.

(** [C2] The handler at the failing input.  The line [{"t":"é"}] is eleven
    bytes, the character [é] two of them (c3 a9).  Handed over in one chunk
    it is framed as that line; handed over in two chunks, cut between the
    two bytes of [é], each chunk is decoded on its own and either half of
    the character becomes U+FFFD, so the line that is framed has two code
    units 65533 where the character (233) was: the framed output depends
    on where the chunks end.  In general the handler frames the
    concatenation of the texts that the chunks decode to one by one. *)
Theorem chunk_cuts_character :
  let whole :=
    [[Byte.x7b; Byte.x22; Byte.x74; Byte.x22; Byte.x3a; Byte.x22;
      Byte.xc3; Byte.xa9; Byte.x22; Byte.x7d; Byte.x0a]] in
  let cut :=
    [[Byte.x7b; Byte.x22; Byte.x74; Byte.x22; Byte.x3a; Byte.x22; Byte.xc3];
     [Byte.xa9; Byte.x22; Byte.x7d; Byte.x0a]] in
  Stdout.output whole = Stdout.output cut
  /\ Stdout.run whole = ([[123; 34; 116; 34; 58; 34; 233; 34; 125]%N], [])
  /\ Stdout.run cut
     = ([[123; 34; 116; 34; 58; 34; 65533; 65533; 34; 125]%N], [])
  /\ Stdout.run whole <> Stdout.run cut
  /\ (forall chunks,
        Stdout.run chunks
        = Stdout.framed (concat (List.map Utf8.toString chunks))).
Proof.
  cbv zeta. repeat (split; [reflexivity|]).
  split; [discriminate|]. apply urun_whole.
Qed.

(** ** Shell escaping *)

Section ShellFacts.
Import Shell.

(** The cases of [test/utils/shell.test.ts]. *)
Example escape_simple : escapeShellString "hello world" = "'hello world'".
Proof. reflexivity. Qed.

Example escape_quote : escapeShellString "don't" = "'don'\''t'".
Proof. reflexivity. Qed.

Example escape_empty : escapeShellString "" = "''".
Proof. reflexivity. Qed.

Example escape_only_quotes : escapeShellString "'''" = "''\'''\'''\'''".
Proof. reflexivity. Qed.

Example claude_command_resume :
  buildClaudeCommand "/test/dir" "hello world" (Some "session-123") "" auto
    "sonnet"
  = "cd /test/dir && claude --resume session-123 --output-format stream-json --model sonnet -p 'hello world' --verbose --dangerously-skip-permissions".
Proof. reflexivity. Qed.

Example codex_command_resume :
  buildCodexCommand "/test/dir" "hello world" (Some "session-123")
  = "codex exec resume --json --dangerously-bypass-approvals-and-sandbox session-123 'hello world'".
Proof. reflexivity. Qed.

(** Inside a quotation the escaped text reads back as the text, and the
    closing quote ends the word. *)
Lemma unquote_escaped str :
  unquote true (Js.replaceAllChar "'"%char "'\''" str +:+ "'") = Some str.
Proof.
  induction str as [|c str IH]; [reflexivity|].
  simpl. destruct (Ascii.eqb c "'") eqn:Hc.
  - apply Ascii.eqb_eq in Hc. subst c. simpl. rewrite IH. reflexivity.
  - simpl. rewrite Hc, IH. reflexivity.
Qed.

Lemma escape_value str : shell_word_value (escapeShellString str) = Some str.
Proof. unfold shell_word_value, escapeShellString. simpl. apply unquote_escaped. Qed.

End ShellFacts.

(** [C9] The escaped prompt is a quoted shell word whose value is the
    prompt itself, for every prompt (the empty one and those made of single
    quotes included), and it is the word that follows [-p] in the Claude
    command line and the last word of the Codex command line. *)
Theorem escapeShellString_roundtrip (prompt : string) :
  Shell.shell_word_value (Shell.escapeShellString prompt) = Some prompt
  /\ (forall workingDir sessionId mcp mode model,
        exists pre post,
          Shell.claudeCommandParts workingDir prompt sessionId mcp mode model
          = pre ++ "-p" :: Shell.escapeShellString prompt :: post)
  /\ (forall workingDir sessionId,
        exists pre,
          Shell.codexCommandParts workingDir prompt sessionId
          = pre ++ [Shell.escapeShellString prompt]).
Proof.
  split; [apply escape_value|]. split.
  - intros workingDir sessionId mcp mode model.
    unfold Shell.claudeCommandParts.
    destruct sessionId as [sid|]; [destruct (Js.truthy sid)|];
      destruct mode; cbn [Shell.splice3 firstn skipn app];
      first
        [ by eexists [_; _; _; _; _; _; _; _; _], _
        | by eexists [_; _; _; _; _; _; _], _ ].
  - intros workingDir sessionId. unfold Shell.codexCommandParts.
    destruct sessionId as [sid|]; [destruct (Js.truthy sid)|];
      by eexists [_; _; _; _; _; _].
Qed.

(** ** JSON text *)

Section JsonFacts.
Import Json.

(** What the reader accepts: numbers in the JSON grammar only, white
    space around a value, a later duplicate of a key kept beside the
    earlier one (and preferred by [get_member]), nothing after the
    value. *)
Example parse_examples :
  parse "-12.5e+3" = Some (JNumber "-12.5e+3")
  /\ parse "-0" = Some (JNumber "-0")
  /\ parse "01" = None
  /\ parse "1." = None
  /\ parse ".5" = None
  /\ parse " [1, 2 ] " = Some (JArray [JNumber "1"; JNumber "2"])
  /\ parse "[1,]" = None
  /\ parse "{} x" = None
  /\ parse "" = None
  /\ parse (Js.bq "{`a`: {`b`: [true, null, `x\u0041`]}, `a`: 2}")
     = Some (JObject [("a", JObject [("b", JArray [JBool true; JNull;
                                                   JString "xA"])]);
                      ("a", JNumber "2")]).
Proof. repeat split. Qed.

(** A string that was written is read back, up to its closing quote. *)
Lemma parse_string_escape s : forall rest,
  parse_string (escape s +:+ String dq rest) = Some (s, rest).
Proof.
  induction s as [|c s IH]; intros rest; [reflexivity|].
  destruct c as [[] [] [] [] [] [] [] []]; simpl; rewrite IH; reflexivity.
Qed.

Lemma quote_app s rest :
  quote s +:+ rest = String dq (escape s +:+ String dq rest).
Proof. unfold quote. simpl. rewrite append_assoc. reflexivity. Qed.

(** The parser, one step at a time. *)
Lemma parse_value_string n s rest :
  parse_value (S n) (quote s +:+ rest) = Some (JString s, rest).
Proof.
  rewrite quote_app.
  change (parse_value (S n) (String dq (escape s +:+ String dq rest)))
    with ('(t, r') ← parse_string (escape s +:+ String dq rest);
          Some (JString t, r')).
  rewrite parse_string_escape. reflexivity.
Qed.

Lemma stringify_starts v rest :
  number_free v = true -> starts_value (stringify v +:+ rest) = true.
Proof.
  destruct v as [|[]| | | |]; simpl; first [discriminate | reflexivity].
Qed.

Lemma parse_value_array n t :
  starts_value t = true ->
  parse_value (S n) (String "[" t)
  = '(vs, r') ← parse_elements n t; Some (JArray vs, r').
Proof.
  destruct t as [|c r]; [discriminate|].
  destruct c as [[] [] [] [] [] [] [] []]; try discriminate; reflexivity.
Qed.

Lemma parse_value_object n t :
  parse_value (S n) (String "{" (String dq t))
  = '(ms, r') ← parse_members n (String dq t); Some (JObject ms, r').
Proof. reflexivity. Qed.

Lemma parse_members_step n k t :
  parse_members (S n) (quote k +:+ String ":" t)
  = '(x, r3) ← parse_value n t;
    match eat "," (skip_ws r3) with
    | Some r4 =>
        '(ms, r5) ← parse_members n (skip_ws r4); Some ((k, x) :: ms, r5)
    | None => r4 ← eat "}" (skip_ws r3); Some ([(k, x)], r4)
    end.
Proof.
  rewrite quote_app.
  change (parse_members (S n)
            (String dq (escape k +:+ String dq (String ":" t))))
    with ('(k', r1) ← parse_string (escape k +:+ String dq (String ":" t));
          r2 ← eat ":" (skip_ws r1);
          '(x, r3) ← parse_value n r2;
          match eat "," (skip_ws r3) with
          | Some r4 =>
              '(ms, r5) ← parse_members n (skip_ws r4);
              Some ((k', x) :: ms, r5)
          | None => r4 ← eat "}" (skip_ws r3); Some ([(k', x)], r4)
          end).
  rewrite parse_string_escape. reflexivity.
Qed.

Lemma parse_elements_step n t :
  parse_elements (S n) t
  = '(x, r1) ← parse_value n t;
    match eat "," (skip_ws r1) with
    | Some r2 => '(vs, r3) ← parse_elements n r2; Some (x :: vs, r3)
    | None => r2 ← eat "]" (skip_ws r1); Some ([x], r2)
    end.
Proof. reflexivity. Qed.

Lemma fuel_array l : fuel_needed (JArray l) = S (elems_fuel l).
Proof. reflexivity. Qed.

Lemma fuel_object l : fuel_needed (JObject l) = S (membs_fuel l).
Proof. reflexivity. Qed.

Lemma fuel_needed_pos v : 1 <= fuel_needed v.
Proof. destruct v; simpl; lia. Qed.

Lemma stringify_array l :
  stringify (JArray l) = "[" +:+ Js.join "," (List.map stringify l) +:+ "]".
Proof. reflexivity. Qed.

Lemma stringify_object l :
  stringify (JObject l)
  = "{" +:+ Js.join "," (List.map member_text l) +:+ "}".
Proof. reflexivity. Qed.

Lemma join_map_cons {A} (f : A -> string) sep x y l :
  Js.join sep (List.map f (x :: y :: l))
  = f x +:+ sep +:+ Js.join sep (List.map f (y :: l)).
Proof. reflexivity. Qed.

Lemma members_text_head k x l rest :
  Js.join "," (List.map member_text ((k, x) :: l)) +:+ rest
  = String dq (escape k +:+ String dq
                 (":" +:+ match l with
                          | [] => stringify x +:+ rest
                          | _ :: _ =>
                              stringify x +:+ "," +:+
                                Js.join "," (List.map member_text l) +:+ rest
                          end)).
Proof.
  destruct l as [|z l];
    [change (Js.join "," (List.map member_text [(k, x)]))
       with (quote k +:+ ":" +:+ stringify x)
    |rewrite join_map_cons;
     change (member_text (k, x)) with (quote k +:+ ":" +:+ stringify x)];
    rewrite !append_assoc, quote_app; reflexivity.
Qed.

(** Reading back the elements and the members, given that values are read
    back with any fuel up to [n]. *)
Section Step.
Variable n : nat.
Hypothesis IH : forall m v rest,
  m <= n -> number_free v = true -> fuel_needed v <= m ->
  parse_value m (stringify v +:+ rest) = Some (v, rest).

Lemma elements_read l : forall x m rest,
  m <= n -> forallb number_free (x :: l) = true ->
  elems_fuel (x :: l) <= m ->
  parse_elements m (Js.join "," (List.map stringify (x :: l))
                      +:+ String "]" rest)
  = Some (x :: l, rest).
Proof.
  induction l as [|y l IHl]; intros x m rest Hm Hnf Hf;
    simpl in Hnf; apply andb_prop in Hnf as [Hx Hl];
    simpl in Hf; (destruct m as [|m]; [lia|]);
    rewrite parse_elements_step.
  - simpl Js.join. rewrite IH by (first [assumption | lia]). reflexivity.
  - rewrite join_map_cons, !append_assoc.
    rewrite IH by (first [assumption | lia]).
    set (J := Js.join "," (List.map stringify (y :: l))).
    simpl. subst J. rewrite IHl by (first [assumption | simpl; lia]).
    reflexivity.
Qed.

Lemma members_read l : forall k x m rest,
  m <= n -> forallb (fun m => number_free (snd m)) ((k, x) :: l) = true ->
  membs_fuel ((k, x) :: l) <= m ->
  parse_members m (Js.join "," (List.map member_text ((k, x) :: l))
                     +:+ String "}" rest)
  = Some ((k, x) :: l, rest).
Proof.
  induction l as [|[k' y] l IHl]; intros k x m rest Hm Hnf Hf;
    simpl in Hnf; apply andb_prop in Hnf as [Hx Hl];
    simpl in Hf; (destruct m as [|m]; [lia|]).
  - change (Js.join "," (List.map member_text [(k, x)]))
      with (quote k +:+ ":" +:+ stringify x).
    rewrite !append_assoc.
    change (":" +:+ ?t) with (String ":" t).
    rewrite parse_members_step.
    rewrite IH by (first [assumption | lia]). reflexivity.
  - rewrite join_map_cons.
    change (member_text (k, x)) with (quote k +:+ ":" +:+ stringify x).
    rewrite !append_assoc.
    change (":" +:+ ?t) with (String ":" t).
    rewrite parse_members_step.
    rewrite IH by (first [assumption | lia]).
    set (J := Js.join "," (List.map member_text ((k', y) :: l))).
    simpl. subst J.
    rewrite (members_text_head k' y l (String "}" rest)).
    change (skip_ws (String dq ?t)) with (String dq t).
    rewrite <- (members_text_head k' y l (String "}" rest)).
    rewrite IHl by (first [assumption | simpl; lia]).
    reflexivity.
Qed.
End Step.

(** A value without numbers that was written is read back, with any fuel
    that covers its depth and whatever follows its text. *)
Lemma value_read n : forall m v rest,
  m <= n -> number_free v = true -> fuel_needed v <= m ->
  parse_value m (stringify v +:+ rest) = Some (v, rest).
Proof.
  induction n as [|n IHn]; intros m v rest Hm Hnf Hf;
    pose proof (fuel_needed_pos v); (destruct m as [|m]; [lia|]); [lia|].
  destruct v as [|[]|t|s|l|l].
  - reflexivity.
  - reflexivity.
  - reflexivity.
  - discriminate.
  - apply parse_value_string.
  - destruct l as [|x l]; [reflexivity|].
    rewrite fuel_array in Hf.
    rewrite stringify_array, !append_assoc.
    change ("[" +:+ ?t) with (String "[" t).
    rewrite parse_value_array.
    + change ("]" +:+ rest) with (String "]" rest).
      rewrite (elements_read n IHn) by (first [assumption | lia]).
      reflexivity.
    + destruct l as [|y l]; simpl Js.join; simpl List.map;
        rewrite ?append_assoc; apply stringify_starts;
        simpl in Hnf; apply andb_prop in Hnf; tauto.
  - destruct l as [|[k x] l]; [reflexivity|].
    rewrite fuel_object in Hf.
    rewrite stringify_object, !append_assoc.
    change ("{" +:+ ?t) with (String "{" t).
    change ("}" +:+ rest) with (String "}" rest).
    rewrite (members_text_head k x l (String "}" rest)).
    rewrite parse_value_object.
    rewrite <- (members_text_head k x l (String "}" rest)).
    rewrite (members_read n IHn) by (first [assumption | lia]).
    reflexivity.
Qed.

(** The text of a value is at least as long as the fuel its reading
    takes, so the fuel [JSON.parse] starts with is enough. *)
Lemma length_append a b :
  String.length (a +:+ b) = String.length a + String.length b.
Proof. induction a; simpl; congruence. Qed.

Lemma fuel_le_length k : forall v,
  fuel_needed v <= k -> number_free v = true ->
  fuel_needed v <= String.length (stringify v).
Proof.
  induction k as [|k IHk]; intros v Hk Hnf;
    pose proof (fuel_needed_pos v); [lia|].
  destruct v as [|[]|t|s|l|l]; try (simpl; lia); try discriminate.
  - rewrite fuel_array in *. rewrite stringify_array, !length_append.
    simpl String.length. simpl in Hnf.
    enough (elems_fuel l
            <= S (String.length (Js.join "," (List.map stringify l))))
      by lia.
    assert (Hl : elems_fuel l <= k) by lia. clear Hk H.
    induction l as [|x l IHl]; [simpl; lia|].
    simpl in Hnf. apply andb_prop in Hnf as [Hx Hnf].
    simpl in Hl. specialize (IHl Hnf ltac:(lia)).
    pose proof (IHk x ltac:(lia) Hx).
    destruct l as [|y l]; [simpl in *; lia|].
    rewrite join_map_cons, !length_append.
    set (J := Js.join "," (List.map stringify (y :: l))) in *.
    simpl String.length. simpl elems_fuel in *. lia.
  - rewrite fuel_object in *. rewrite stringify_object, !length_append.
    simpl String.length. simpl in Hnf.
    enough (membs_fuel l
            <= S (String.length (Js.join "," (List.map member_text l))))
      by lia.
    assert (Hl : membs_fuel l <= k) by lia. clear Hk H.
    induction l as [|[j x] l IHl]; [simpl; lia|].
    simpl in Hnf. apply andb_prop in Hnf as [Hx Hnf].
    simpl in Hl. specialize (IHl Hnf ltac:(lia)).
    pose proof (IHk x ltac:(lia) Hx).
    assert (String.length (stringify x) <= String.length (member_text (j, x))).
    { unfold member_text. rewrite !length_append. lia. }
    destruct l as [|y l].
    + change (Js.join "," (List.map member_text [(j, x)]))
        with (member_text (j, x)).
      simpl membs_fuel. simpl snd. lia.
    + rewrite join_map_cons.
      set (J := Js.join "," (List.map member_text (y :: l))) in *.
      set (T := member_text (j, x)) in *. clearbody T J.
      rewrite !length_append.
      simpl String.length. simpl membs_fuel in *. simpl snd in *. lia.
Qed.

(** [JSON.parse(JSON.stringify(v) + "\n")] is [v]. *)
Lemma parse_stringify_line v :
  number_free v = true -> parse (stringify v +:+ Js.LF) = Some v.
Proof.
  intros Hnf. unfold parse.
  rewrite (value_read (S (String.length (stringify v +:+ Js.LF)))); try done.
  rewrite length_append.
  pose proof (fuel_le_length (fuel_needed v) v (le_n _) Hnf). lia.
Qed.

Lemma parse_stringify v :
  number_free v = true -> parse (stringify v) = Some v.
Proof.
  intros Hnf. unfold parse.
  rewrite <- (append_empty_r (stringify v)) at 2.
  rewrite (value_read (S (String.length (stringify v)))); try done.
  pose proof (fuel_le_length (fuel_needed v) v (le_n _) Hnf). lia.
Qed.

(** The text of a value without numbers has no line break in it. *)
Lemma one_line_app a b : one_line (a +:+ b) = one_line a && one_line b.
Proof.
  induction a as [|c a IH]; simpl; [reflexivity|].
  rewrite IH, andb_assoc. reflexivity.
Qed.

Lemma one_line_escape s : one_line (escape s) = true.
Proof.
  induction s as [|c s IH]; [reflexivity|].
  simpl escape. rewrite one_line_app, IH, andb_true_r.
  destruct c as [[] [] [] [] [] [] [] []]; reflexivity.
Qed.

Lemma one_line_quote s : one_line (quote s) = true.
Proof.
  unfold quote. simpl. rewrite one_line_app, one_line_escape. reflexivity.
Qed.

Lemma one_line_join ts :
  forallb one_line ts = true -> one_line (Js.join "," ts) = true.
Proof.
  induction ts as [|t ts IH]; [reflexivity|].
  simpl forallb. intros [Ht Hts]%andb_prop.
  destruct ts as [|u ts]; [exact Ht|].
  change (Js.join "," (t :: u :: ts))
    with (t +:+ "," +:+ Js.join "," (u :: ts)).
  rewrite !one_line_app, Ht, IH by assumption. reflexivity.
Qed.

Lemma one_line_stringify k : forall v,
  fuel_needed v <= k -> number_free v = true ->
  one_line (stringify v) = true.
Proof.
  induction k as [|k IHk]; intros v Hk Hnf;
    pose proof (fuel_needed_pos v); [lia|].
  destruct v as [|[]|t|s|l|l]; try reflexivity; try discriminate.
  - apply one_line_quote.
  - rewrite fuel_array in Hk. rewrite stringify_array, !one_line_app.
    simpl in Hnf. rewrite one_line_join; [reflexivity|].
    assert (Hl : elems_fuel l <= k) by lia. clear Hk H.
    induction l as [|x l IHl]; [reflexivity|].
    simpl in Hnf. apply andb_prop in Hnf as [Hx Hnf]. simpl in Hl.
    simpl. rewrite IHk, IHl by (first [assumption | lia]). reflexivity.
  - rewrite fuel_object in Hk. rewrite stringify_object, !one_line_app.
    simpl in Hnf. rewrite one_line_join; [reflexivity|].
    assert (Hl : membs_fuel l <= k) by lia. clear Hk H.
    induction l as [|[j x] l IHl]; [reflexivity|].
    simpl in Hnf. apply andb_prop in Hnf as [Hx Hnf]. simpl in Hl.
    change (forallb one_line (List.map member_text ((j, x) :: l)))
      with (one_line (member_text (j, x))
            && forallb one_line (List.map member_text l)).
    rewrite IHl by (first [assumption | lia]).
    change (member_text (j, x)) with (quote j +:+ ":" +:+ stringify x).
    rewrite !one_line_app, one_line_quote.
    rewrite IHk by (first [assumption | lia]). reflexivity.
Qed.

Lemma split_one_line t :
  one_line t = true -> Js.split Js.nl t = [t].
Proof.
  induction t as [|c t IH]; [reflexivity|].
  simpl. intros [Hc Ht]%andb_prop. apply negb_true_iff in Hc.
  rewrite Hc, IH by assumption. reflexivity.
Qed.

End JsonFacts.
(** ** The fuel of the JSON reader

    The reader recurses on a fuel.  Every reading that succeeds gives back
    less text than it was given and needs no more fuel than the characters
    it takes, so above the length of the text the fuel has no influence on
    the result, failures included: [None] from [parse] is a text that is
    not JSON, never a reader that ran out of fuel. *)

Section JsonFuel.
Import Json.

Lemma skip_ws_length s : String.length (skip_ws s) <= String.length s.
Proof.
  induction s as [|c s IH]; simpl; [lia|].
  destruct (is_ws c); simpl; lia.
Qed.

Lemma eat_length c s r :
  eat c s = Some r -> String.length s = S (String.length r).
Proof.
  destruct s as [|d s]; simpl; [discriminate|].
  destruct (Ascii.eqb d c); [|discriminate]. intros [= ->]. reflexivity.
Qed.

Lemma strip_prefix_length p : forall s r,
  strip_prefix p s = Some r ->
  String.length s = String.length p + String.length r.
Proof.
  induction p as [|a p IH]; intros s r; simpl.
  - intros [= ->]. reflexivity.
  - destruct s as [|b s]; [discriminate|].
    destruct (Ascii.eqb a b); [|discriminate].
    intros H%IH. simpl. lia.
Qed.

Lemma parse_string_length k : forall s t r,
  String.length s <= k ->
  parse_string s = Some (t, r) -> String.length r < String.length s.
Proof.
  induction k as [|k IH]; intros s t r Hk; destruct s as [|c s]; simpl in *;
    try discriminate; try lia.
  destruct (Ascii.eqb c dq); [intros [= <- <-]; lia|].
  destruct (Ascii.eqb c bs).
  - destruct s as [|e s]; [discriminate|].
    destruct (Ascii.eqb e "u").
    + destruct s as [|h1 [|h2 [|h3 [|h4 s]]]]; try discriminate.
      destruct (unicode_escape h1 h2 h3 h4); [|discriminate]. simpl.
      destruct (parse_string s) as [[t' r']|] eqn:E; [|discriminate].
      simpl. intros [= <- <-]. apply IH in E; simpl in *; lia.
    + destruct (simple_escape e); [|discriminate]. simpl.
      destruct (parse_string s) as [[t' r']|] eqn:E; [|discriminate].
      simpl. intros [= <- <-]. apply IH in E; simpl in *; lia.
  - destruct (nat_of_ascii c <? 32)%nat; [discriminate|].
    destruct (parse_string s) as [[t' r']|] eqn:E; [|discriminate].
    simpl. intros [= <- <-]. apply IH in E; simpl in *; lia.
Qed.

Lemma digits_length s : forall d r,
  digits s = (d, r) -> String.length s = String.length d + String.length r.
Proof.
  induction s as [|c s IH]; intros d r; simpl.
  - intros [= <- <-]. reflexivity.
  - destruct (is_digit c).
    + destruct (digits s) as [d' r']. intros [= <- <-].
      simpl. rewrite (IH d' r' eq_refl). reflexivity.
    + intros [= <- <-]. reflexivity.
Qed.

Lemma digits1_length s d r :
  digits1 s = Some (d, r) -> String.length r < String.length s.
Proof.
  unfold digits1. destruct (digits s) as [d' r'] eqn:E.
  apply digits_length in E.
  destruct d' as [|c d']; [discriminate|]. intros [= <- <-].
  simpl in E. lia.
Qed.

Lemma optional_length p s c r :
  optional p s = (c, r) -> String.length s = String.length c + String.length r.
Proof.
  destruct s as [|d s]; simpl; [intros [= <- <-]; reflexivity|].
  destruct (p d); intros [= <- <-]; reflexivity.
Qed.

Lemma parse_number_length s t r :
  parse_number s = Some (t, r) -> String.length r < String.length s.
Proof.
  unfold parse_number.
  destruct (optional (Ascii.eqb "-") s) as [sign s1] eqn:E1.
  apply optional_length in E1.
  assert (Hint : forall i s2,
    match eat "0" s1 with Some r => Some ("0"%string, r) | None => digits1 s1 end
    = Some (i, s2) -> String.length s2 < String.length s1).
  { intros i s2. destruct (eat "0" s1) as [r0|] eqn:E0.
    - intros [= <- <-]. apply eat_length in E0. lia.
    - apply digits1_length. }
  destruct (match eat "0" s1 with Some r => _ | None => _ end)
    as [[i s2]|]; [|discriminate].
  specialize (Hint i s2 eq_refl). simpl.
  assert (Hfrac : forall f s3,
    match eat "." s2 with
    | Some r => '(d, r') ← digits1 r; Some (String "." d, r')
    | None => Some (EmptyString, s2)
    end = Some (f, s3) -> String.length s3 <= String.length s2).
  { intros f s3. destruct (eat "." s2) as [r0|] eqn:E0.
    - destruct (digits1 r0) as [[d r']|] eqn:Ed; [|discriminate].
      simpl. intros [= <- <-].
      apply eat_length in E0. apply digits1_length in Ed. lia.
    - intros [= <- <-]. lia. }
  destruct (match eat "." s2 with Some r => _ | None => _ end)
    as [[f s3]|]; [|discriminate].
  specialize (Hfrac f s3 eq_refl). simpl.
  destruct (optional _ s3) as [e r0] eqn:Ee. apply optional_length in Ee.
  destruct e as [|e0 e1].
  - simpl. intros [= <- <-]. lia.
  - destruct (optional _ r0) as [sg r1] eqn:Es. apply optional_length in Es.
    destruct (digits1 r1) as [[d r2]|] eqn:Ed; [|discriminate].
    apply digits1_length in Ed.
    simpl. intros [= <- <-]. simpl in Ee. lia.
Qed.

Lemma parse_string_shorter s t r :
  parse_string s = Some (t, r) -> String.length r < String.length s.
Proof. apply (parse_string_length (String.length s)). lia. Qed.

Lemma parse_value_S n s :
  parse_value (S n) s
  = match skip_ws s with
    | EmptyString => None
    | String c r =>
        if Ascii.eqb c "{" then
          match eat "}" (skip_ws r) with
          | Some r' => Some (JObject [], r')
          | None =>
              '(ms, r') ← parse_members n (skip_ws r); Some (JObject ms, r')
          end
        else if Ascii.eqb c "[" then
          match eat "]" (skip_ws r) with
          | Some r' => Some (JArray [], r')
          | None => '(vs, r') ← parse_elements n r; Some (JArray vs, r')
          end
        else if Ascii.eqb c dq then
          '(t, r') ← parse_string r; Some (JString t, r')
        else if Ascii.eqb c "t" then
          r' ← strip_prefix "rue" r; Some (JBool true, r')
        else if Ascii.eqb c "f" then
          r' ← strip_prefix "alse" r; Some (JBool false, r')
        else if Ascii.eqb c "n" then
          r' ← strip_prefix "ull" r; Some (JNull, r')
        else
          '(t, r') ← parse_number (String c r); Some (JNumber t, r')
    end.
Proof. reflexivity. Qed.

Lemma parse_members_S n s :
  parse_members (S n) s
  = r ← eat dq s;
    '(k, r1) ← parse_string r;
    r2 ← eat ":" (skip_ws r1);
    '(x, r3) ← parse_value n r2;
    match eat "," (skip_ws r3) with
    | Some r4 =>
        '(ms, r5) ← parse_members n (skip_ws r4); Some ((k, x) :: ms, r5)
    | None => r4 ← eat "}" (skip_ws r3); Some ([(k, x)], r4)
    end.
Proof. reflexivity. Qed.

(** What is returned is shorter than what was given. *)
Lemma parse_shorter n :
  (forall s v r, parse_value n s = Some (v, r) ->
                 String.length r < String.length s)
  /\ (forall s ms r, parse_members n s = Some (ms, r) ->
                     String.length r < String.length s)
  /\ (forall s vs r, parse_elements n s = Some (vs, r) ->
                     String.length r < String.length s).
Proof.
  induction n as [|n (IHv & IHm & IHe)]; [repeat split; discriminate|].
  repeat split.
  - intros s v r. rewrite parse_value_S.
    pose proof (skip_ws_length s) as Hs.
    destruct (skip_ws s) as [|c s0]; [discriminate|]. simpl in Hs.
    pose proof (skip_ws_length s0) as Hs0.
    destruct (Ascii.eqb c "{").
    { destruct (eat "}" (skip_ws s0)) as [r0|] eqn:E0.
      - intros [= <- <-]. apply eat_length in E0. lia.
      - destruct (parse_members n (skip_ws s0)) as [[ms r']|] eqn:Em;
          [|discriminate].
        simpl. intros [= <- <-]. apply IHm in Em. lia. }
    destruct (Ascii.eqb c "[").
    { destruct (eat "]" (skip_ws s0)) as [r0|] eqn:E0.
      - intros [= <- <-]. apply eat_length in E0. lia.
      - destruct (parse_elements n s0) as [[vs r']|] eqn:Em; [|discriminate].
        simpl. intros [= <- <-]. apply IHe in Em. lia. }
    destruct (Ascii.eqb c dq).
    { destruct (parse_string s0) as [[t r']|] eqn:Et; [|discriminate].
      simpl. intros [= <- <-]. apply parse_string_shorter in Et. lia. }
    destruct (Ascii.eqb c "t").
    { destruct (strip_prefix "rue" s0) as [r'|] eqn:Et; [|discriminate].
      simpl. intros [= <- <-]. apply strip_prefix_length in Et. lia. }
    destruct (Ascii.eqb c "f").
    { destruct (strip_prefix "alse" s0) as [r'|] eqn:Et; [|discriminate].
      simpl. intros [= <- <-]. apply strip_prefix_length in Et. lia. }
    destruct (Ascii.eqb c "n").
    { destruct (strip_prefix "ull" s0) as [r'|] eqn:Et; [|discriminate].
      simpl. intros [= <- <-]. apply strip_prefix_length in Et. lia. }
    destruct (parse_number (String c s0)) as [[t r']|] eqn:Et; [|discriminate].
    simpl. intros [= <- <-]. apply parse_number_length in Et. simpl in Et. lia.
  - intros s ms r. rewrite parse_members_S.
    destruct (eat dq s) as [r0|] eqn:E0; [|discriminate]. simpl.
    destruct (parse_string r0) as [[k r1]|] eqn:Ek; [|discriminate]. simpl.
    destruct (eat ":" (skip_ws r1)) as [r2|] eqn:E2; [|discriminate]. simpl.
    destruct (parse_value n r2) as [[x r3]|] eqn:Ex; [|discriminate]. simpl.
    apply eat_length in E0, E2. apply parse_string_shorter in Ek.
    apply IHv in Ex.
    pose proof (skip_ws_length r1). pose proof (skip_ws_length r3).
    destruct (eat "," (skip_ws r3)) as [r4|] eqn:E4.
    + destruct (parse_members n (skip_ws r4)) as [[ms' r5]|] eqn:Em;
        [|discriminate].
      simpl. intros [= <- <-]. apply IHm in Em. apply eat_length in E4.
      pose proof (skip_ws_length r4). lia.
    + destruct (eat "}" (skip_ws r3)) as [r4|] eqn:E5; [|discriminate].
      simpl. intros [= <- <-]. apply eat_length in E5. lia.
  - intros s vs r. rewrite parse_elements_step.
    destruct (parse_value n s) as [[x r1]|] eqn:Ex; [|discriminate]. simpl.
    apply IHv in Ex. pose proof (skip_ws_length r1).
    destruct (eat "," (skip_ws r1)) as [r2|] eqn:E2.
    + destruct (parse_elements n r2) as [[vs' r3]|] eqn:Ee; [|discriminate].
      simpl. intros [= <- <-]. apply IHe in Ee. apply eat_length in E2. lia.
    + destruct (eat "]" (skip_ws r1)) as [r2|] eqn:E3; [|discriminate].
      simpl. intros [= <- <-]. apply eat_length in E3. lia.
Qed.

(** A reading that succeeds needs no more fuel than the characters it
    takes. *)
Lemma parse_enough m :
  (forall s v r n, parse_value m s = Some (v, r) ->
     String.length s - String.length r <= n -> parse_value n s = Some (v, r))
  /\ (forall s ms r n, parse_members m s = Some (ms, r) ->
     String.length s - String.length r <= n ->
     parse_members n s = Some (ms, r))
  /\ (forall s vs r n, parse_elements m s = Some (vs, r) ->
     String.length s - String.length r <= n ->
     parse_elements n s = Some (vs, r)).
Proof.
  induction m as [|m (IHv & IHm & IHe)]; [repeat split; discriminate|].
  destruct (parse_shorter m) as (Sv & Sm & Se).
  repeat split.
  - intros s v r n H Hn.
    pose proof (proj1 (parse_shorter (S m)) s v r H) as Hlt.
    destruct n as [|n]; [lia|].
    rewrite parse_value_S in H |- *.
    pose proof (skip_ws_length s) as Hs.
    destruct (skip_ws s) as [|c s0]; [discriminate|]. simpl in Hs.
    pose proof (skip_ws_length s0) as Hs0.
    destruct (Ascii.eqb c "{").
    { destruct (eat "}" (skip_ws s0)) as [r0|] eqn:E0; [exact H|].
      destruct (parse_members m (skip_ws s0)) as [[ms r']|] eqn:Em;
        [|discriminate].
      simpl in H. injection H as <- <-.
      rewrite (IHm _ _ _ n Em) by lia. reflexivity. }
    destruct (Ascii.eqb c "[").
    { destruct (eat "]" (skip_ws s0)) as [r0|] eqn:E0; [exact H|].
      destruct (parse_elements m s0) as [[vs r']|] eqn:Em; [|discriminate].
      simpl in H. injection H as <- <-.
      rewrite (IHe _ _ _ n Em) by lia. reflexivity. }
    exact H.
  - intros s ms r n H Hn.
    pose proof (proj1 (proj2 (parse_shorter (S m))) s ms r H) as Hlt.
    destruct n as [|n]; [lia|].
    rewrite parse_members_S in H |- *.
    destruct (eat dq s) as [r0|] eqn:E0; [|discriminate]. simpl in H |- *.
    destruct (parse_string r0) as [[k r1]|] eqn:Ek; [|discriminate].
    simpl in H |- *.
    destruct (eat ":" (skip_ws r1)) as [r2|] eqn:E2; [|discriminate].
    simpl in H |- *.
    destruct (parse_value m r2) as [[x r3]|] eqn:Ex; [|discriminate].
    simpl in H.
    apply eat_length in E0, E2. apply parse_string_shorter in Ek.
    pose proof (Sv _ _ _ Ex).
    pose proof (skip_ws_length r1). pose proof (skip_ws_length r3).
    destruct (eat "," (skip_ws r3)) as [r4|] eqn:E4.
    + destruct (parse_members m (skip_ws r4)) as [[ms' r5]|] eqn:Em;
        [|discriminate].
      simpl in H. injection H as <- <-.
      pose proof (Sm _ _ _ Em). pose proof (eat_length _ _ _ E4).
      pose proof (skip_ws_length r4).
      rewrite (IHv _ _ _ n Ex) by lia. simpl. rewrite E4.
      rewrite (IHm _ _ _ n Em) by lia. reflexivity.
    + destruct (eat "}" (skip_ws r3)) as [r4|] eqn:E5; [|discriminate].
      simpl in H. injection H as <- <-. pose proof (eat_length _ _ _ E5).
      rewrite (IHv _ _ _ n Ex) by lia. simpl. rewrite E4, E5. reflexivity.
  - intros s vs r n H Hn.
    pose proof (proj2 (proj2 (parse_shorter (S m))) s vs r H) as Hlt.
    destruct n as [|n]; [lia|].
    rewrite parse_elements_step in H |- *.
    destruct (parse_value m s) as [[x r1]|] eqn:Ex; [|discriminate].
    simpl in H. pose proof (Sv _ _ _ Ex). pose proof (skip_ws_length r1).
    destruct (eat "," (skip_ws r1)) as [r2|] eqn:E2.
    + destruct (parse_elements m r2) as [[vs' r3]|] eqn:Ee; [|discriminate].
      simpl in H. injection H as <- <-.
      pose proof (Se _ _ _ Ee). pose proof (eat_length _ _ _ E2).
      rewrite (IHv _ _ _ n Ex) by lia. simpl. rewrite E2.
      rewrite (IHe _ _ _ n Ee) by lia. reflexivity.
    + destruct (eat "]" (skip_ws r1)) as [r2|] eqn:E3; [|discriminate].
      simpl in H. injection H as <- <-. pose proof (eat_length _ _ _ E3).
      rewrite (IHv _ _ _ n Ex) by lia. simpl. rewrite E2, E3. reflexivity.
Qed.

(** So the reading of a text does not depend on the fuel, once the fuel is
    above the length of the text. *)
Lemma parse_value_fuel s m m' :
  String.length s < m -> String.length s < m' ->
  parse_value m s = parse_value m' s.
Proof.
  intros Hm Hm'.
  destruct (parse_value m s) as [[v r]|] eqn:E.
  - symmetry. apply (proj1 (parse_enough m) _ _ _ m' E). lia.
  - destruct (parse_value m' s) as [[v r]|] eqn:E'; [|reflexivity].
    rewrite (proj1 (parse_enough m') _ _ _ m E') in E by lia. discriminate.
Qed.

Lemma parse_fuel text m :
  String.length text < m ->
  parse text
  = '(v, r) ← parse_value m text;
    match skip_ws r with
    | EmptyString => Some v
    | _ => None
    end.
Proof.
  intros Hm. unfold parse.
  rewrite (parse_value_fuel text (S (String.length text)) m) by lia.
  reflexivity.
Qed.

End JsonFuel.


Lemma split_line t :
  Json.one_line t = true -> Js.split Js.nl (t +:+ Js.LF) = [t; ""].
Proof.
  induction t as [|c t IH]; [reflexivity|].
  simpl. intros [Hc Ht]%andb_prop. apply negb_true_iff in Hc.
  rewrite Hc, IH by assumption. reflexivity.
Qed.

(** A text without a line break, followed by a newline, is framed as one
    complete line. *)
Lemma run_single_line t :
  Json.one_line t = true -> Framer.run [t +:+ Js.LF] = ([t], "").
Proof.
  intros Ht. rewrite run_whole. unfold Framer.framed, Framer.output.
  cbn [fold_right]. rewrite append_empty_r, split_line by assumption.
  reflexivity.
Qed.

Lemma tool_response_number_free toolUseId result :
  Json.number_free (Manager.tool_response toolUseId result) = true.
Proof. reflexivity. Qed.

(** The line for an approved plan, as the provider reads it. *)
Example tool_response_line_example :
  Manager.tool_response_line "toolu_1" (Json.JObject [])
  = Js.bq "{`type`:`user`,`message`:{`role`:`user`,`content`:[{`type`:`tool_result`,`tool_use_id`:`toolu_1`,`content`:`{}`,`is_error`:false}]}}"
      +:+ Js.LF.
Proof. reflexivity. Qed.

(** [C7] The stdin line of a tool result: it is the text of the object
    [{type:"user", message:{role:"user", content:[{type:"tool_result",
    tool_use_id, content, is_error}]}}] followed by a newline, it is one
    line for a line reader, and parsing it gives that object back, so the
    reader finds the [content] that was written (the JSON text of the
    decision), [is_error] (false) and the tool-use id; this is the line
    that [sendToolResponse] writes to the stdin it finds. *)
Theorem tool_response_roundtrip (toolUseId : string) (result : Json.json) :
  let line := Manager.tool_response_line toolUseId result in
  let block := [Json.Key "message"; Json.Key "content"; Json.Index 0] in
  line = Json.stringify (Manager.tool_response toolUseId result) +:+ Js.LF
  /\ Framer.run [line]
     = ([Json.stringify (Manager.tool_response toolUseId result)], "")
  /\ Json.parse line = Some (Manager.tool_response toolUseId result)
  /\ Json.parse line ≫= Json.select (block ++ [Json.Key "content"])
     = Some (Json.JString (Json.stringify result))
  /\ Json.parse line ≫= Json.select (block ++ [Json.Key "is_error"])
     = Some (Json.JBool false)
  /\ Json.parse line ≫= Json.select (block ++ [Json.Key "tool_use_id"])
     = Some (Json.JString toolUseId)
  /\ Json.parse line ≫= Json.select (block ++ [Json.Key "type"])
     = Some (Json.JString "tool_result")
  /\ Json.parse line ≫= Json.select [Json.Key "type"]
     = Some (Json.JString "user")
  /\ Json.parse line ≫= Json.select [Json.Key "message"; Json.Key "role"]
     = Some (Json.JString "user")
  /\ forall s channelId,
       Manager.done_by (Manager.sendToolResponse channelId toolUseId result) s
       = match Manager.stdin_of s channelId with
         | Some p => [Manager.StdinWrite p line]
         | None =>
             [Manager.ConsoleError
                "Cannot send tool response: no process stdin available"]
         end.
Proof.
  intros line block. subst line block.
  assert (Hparse : Json.parse (Manager.tool_response_line toolUseId result)
                   = Some (Manager.tool_response toolUseId result)).
  { apply parse_stringify_line, tool_response_number_free. }
  split; [reflexivity|]. split.
  { apply run_single_line.
    apply (one_line_stringify _ _ (le_n _)), tool_response_number_free. }
  split; [exact Hparse|].
  rewrite Hparse. repeat (split; [reflexivity|]).
  intros s channelId.
  unfold Manager.done_by, Manager.exec, Manager.sendToolResponse.
  unfold mbind, Manager.M_bind, Manager.gets, Manager.emit, Manager.modify.
  destruct (Manager.stdin_of s channelId); simpl;
    rewrite drop_app_length; reflexivity.
Qed.

(** ** The parse loop *)

(** A stream with a record, a line that is not JSON, a blank line and
    another record. *)
Example stream_example :
  Stream.stream_events Shell.claude
    [Js.bq "{`type`:`system`,`subtype`:`init`,`session_id`:`s1`}" +:+ Js.LF
       +:+ "{oops";
     "}" +:+ Js.LF +:+ "  " +:+ Js.LF
       +:+ Js.bq "{`type`:`result`,`num_turns`:2}" +:+ Js.LF]
  = [Stream.Dispatched (Stream.SystemMessage true)
       (Json.JObject [("type", Json.JString "system");
                      ("subtype", Json.JString "init");
                      ("session_id", Json.JString "s1")]);
     Stream.Stored (Json.JString "s1");
     Stream.Malformed "{oops}";
     Stream.Dispatched Stream.ResultMessage
       (Json.JObject [("type", Json.JString "result");
                      ("num_turns", Json.JNumber "2")])].
Proof. reflexivity. Qed.

(** A [system] record without a session id: the store throws inside the
    [try], and the record is reported like a line that is not JSON. *)
Example system_without_session_example :
  Stream.loop Shell.claude [Js.bq "{`type`:`system`,`subtype`:`init`}"]
  = ([Stream.Dispatched (Stream.SystemMessage true)
        (Json.JObject [("type", Json.JString "system");
                       ("subtype", Json.JString "init")]);
      Stream.Malformed (Js.bq "{`type`:`system`,`subtype`:`init`}")],
     inr tt).
Proof. reflexivity. Qed.

Section Loop.
Import Stream.

(** What the [try] block throws is caught: the loop body returns. *)
Lemma body_returns p line : snd (body p line) = inr tt.
Proof.
  unfold body. destruct (Framer.nonblank line); [|reflexivity].
  unfold try_catch. destruct (try_block p line) as [es [t|[]]]; reflexivity.
Qed.

Lemma loop_cons p line lines :
  loop p (line :: lines)
  = (line_events p line ++ lines_events p lines, snd (loop p lines)).
Proof.
  unfold line_events, lines_events, loop. cbn [for_of].
  pose proof (body_returns p line) as Hr.
  destruct (body p line) as [es r]. cbn [snd] in Hr. subst r.
  unfold mbind, Exc_bind. cbn [fst].
  destruct (for_of lines (body p)); reflexivity.
Qed.

Lemma loop_returns p lines : snd (loop p lines) = inr tt.
Proof.
  induction lines as [|line lines IH]; [reflexivity|].
  rewrite loop_cons. exact IH.
Qed.

Lemma lines_events_cons p line lines :
  lines_events p (line :: lines)
  = line_events p line ++ lines_events p lines.
Proof.
  unfold lines_events at 1. rewrite loop_cons. reflexivity.
Qed.

Lemma lines_events_app p before after :
  lines_events p (before ++ after)
  = lines_events p before ++ lines_events p after.
Proof.
  induction before as [|line before IH]; [reflexivity|].
  rewrite <- app_comm_cons, !lines_events_cons, IH, app_assoc.
  reflexivity.
Qed.

Lemma loop_events p lines : loop p lines = (lines_events p lines, inr tt).
Proof.
  rewrite <- (loop_returns p lines). unfold lines_events.
  destruct (loop p lines); reflexivity.
Qed.

Lemma well_formed_parse line :
  Json.well_formed line = false -> Json.parse line = None.
Proof.
  unfold Json.well_formed. intros [H _]%orb_false_elim.
  destruct (Json.parse line); [discriminate H|reflexivity].
Qed.

End Loop.

(** The claim as it is written fails on the empty line: it is not JSON, and
    the loop skips it without an event. *)
Lemma blank_line_is_not_reported :
  ~ (forall p line,
       Json.well_formed line = false ->
       In (Stream.Malformed line) (Stream.line_events p line)).
Proof.
  intros H. exact (H Shell.claude "" eq_refl).
Qed.

(** [C8], amended: for a line that is not valid JSON, [JSON.parse] throws
    before a handler is called, and what it throws is caught; the line
    produces the Malformed event (the logged parse error) and nothing else
    when it is not blank, and no event when it is blank, where the [try]
    is not entered.  Either way the loop goes on and returns after the
    last line: the events of the lines before it and after it are those
    they have without it, in the same order. *)
Theorem malformed_line_does_not_abort
    (p : Shell.Provider) (before after : list string) (line : string) :
  Json.well_formed line = false ->
  Stream.try_block p line = Stream.throw Stream.SyntaxError
  /\ Stream.body p line
     = (if Framer.nonblank line then [Stream.Malformed line] else [], inr tt)
  /\ Stream.loop p (before ++ line :: after)
     = (Stream.lines_events p before ++ Stream.line_events p line
          ++ Stream.lines_events p after,
        inr tt).
Proof.
  intros Hbad.
  assert (Htry : Stream.try_block p line = Stream.throw Stream.SyntaxError).
  { unfold Stream.try_block.
    rewrite (well_formed_parse line Hbad), Hbad. reflexivity. }
  split; [exact Htry|]. split.
  - unfold Stream.body. rewrite Htry.
    destruct (Framer.nonblank line); reflexivity.
  - rewrite loop_events, lines_events_app, lines_events_cons. reflexivity.
Qed.

Lemma malformed_line_does_not_abort_witness :
  Json.well_formed "{oops" = false
  /\ Stream.loop Shell.codex
       [Js.bq "{`type`:`turn.completed`}"; "{oops";
        Js.bq "{`type`:`turn.completed`}"]
     = ([Stream.Dispatched Stream.CodexTurnCompleted
           (Json.JObject [("type", Json.JString "turn.completed")]);
         Stream.Malformed "{oops";
         Stream.Dispatched Stream.CodexTurnCompleted
           (Json.JObject [("type", Json.JString "turn.completed")])],
        inr tt).
Proof.
  split; [reflexivity|].
  etransitivity;
    [exact (proj2 (proj2 (malformed_line_does_not_abort Shell.codex
                            [Js.bq "{`type`:`turn.completed`}"]
                            [Js.bq "{`type`:`turn.completed`}"] "{oops"
                            eq_refl)))
    |reflexivity].
Defined.

(** ** The process manager *)

Section ManagerFacts.
Import Manager.

(** Running a computation: unfold the monad and the primitive steps. *)
Ltac run :=
  unfold done_by, exec, eval, skip, emit, modify, gets;
  unfold mbind, M_bind, mret, M_ret.

Lemma done_by_app {A} (m : M A) s l :
  effects (exec m s) = effects s ++ l -> done_by m s = l.
Proof. unfold done_by. intros ->. apply drop_app_length. Qed.

(** [reserveChannel], in one equation. *)
Lemma reserveChannel_exec channelId sid m s :
  exec (reserveChannel channelId sid m) s
  = upd_channelProcesses
      <[channelId := {| process := None; sessionId := sid;
                        discordMessage := m |}]>
      (upd_effects (fun l => l ++ kill_of s channelId) s).
Proof.
  unfold reserveChannel, kill_of, entry_process. run.
  destruct (channelProcesses s !! channelId) as [[[p|] sid' m']|] eqn:E;
    cbn; try reflexivity.
  all: unfold upd_channelProcesses, upd_effects; cbn;
    rewrite ?app_nil_r; destruct s; reflexivity.
Qed.

Lemma killActiveProcess_exec channelId s :
  exec (killActiveProcess channelId) s
  = upd_effects (fun l => l ++ kill_of s channelId) s.
Proof.
  unfold killActiveProcess, kill_of, entry_process. run.
  destruct (channelProcesses s !! channelId) as [[[p|] sid' m']|] eqn:E;
    cbn; try reflexivity.
  all: unfold upd_effects; cbn; rewrite ?app_nil_r; destruct s; reflexivity.
Qed.

Lemma exec_bind {A B} (m : M A) (f : A -> M B) s :
  exec (m ≫= f) s = exec (f (eval m s)) (exec m s).
Proof. unfold exec, eval, mbind, M_bind. destruct (m s). reflexivity. Qed.

Lemma clearSession_exec channelId s :
  exec (clearSession channelId) s
  = upd_channelProcesses (delete channelId)
      (upd_channelNames (delete channelId)
         (upd_channelToolCalls (delete channelId)
            (upd_channelMessages (delete channelId)
               (upd_channel_sessions (delete channelId)
                  (upd_effects (fun l => l ++ kill_of s channelId) s))))).
Proof.
  unfold clearSession. rewrite exec_bind, killActiveProcess_exec.
  reflexivity.
Qed.

Lemma setProvider_exec channelId prov s :
  exec (setProvider channelId prov) s
  = upd_channelProcesses (delete channelId)
      (upd_channelNames (delete channelId)
         (upd_channelToolCalls (delete channelId)
            (upd_channelMessages (delete channelId)
               (upd_channel_sessions (delete channelId)
                  (upd_effects (fun l => l ++ kill_of s channelId)
                     (upd_channel_providers <[channelId := prov]> s)))))).
Proof.
  unfold setProvider. rewrite exec_bind, clearSession_exec. reflexivity.
Qed.

End ManagerFacts.

(** A reservation on top of a running process, as in
    [test/claude/manager.test.ts]: the process is signalled once, and the
    second reservation finds the placeholder. *)
Example reserve_over_running_process :
  let m := {| Manager.msg_id := 1; Manager.msg_channel := Some "channel-1";
              Manager.msg_embeds := [] |} in
  let running :=
    Manager.upd_channelProcesses
      <["channel-1" :=
          {| Manager.process := Some {| Manager.pid := 7; Manager.stdin := true |};
             Manager.sessionId := None; Manager.discordMessage := m |}]>
      (Manager.initial ∅) in
  Manager.effects
    (Manager.exec (Manager.reserveChannel "channel-1" (Some "new-session") m)
       (Manager.exec (Manager.reserveChannel "channel-1" None m) running))
  = [Manager.Kill 7 "SIGTERM"].
Proof. reflexivity. Qed.

(** [C1] Two reservations of a channel in a row: the process of the entry
    that was there, if it had one, gets exactly one SIGTERM, sent by the
    first reservation; the first reservation leaves a placeholder without a
    process, so the channel counts as busy at once and the second
    reservation signals nobody; in the end the channel has one entry, the
    placeholder of the second reservation, and the other channels have the
    entries they had. *)
Theorem reserve_twice
    (s : Manager.State) (channelId : string) (sid1 sid2 : option string)
    (m1 m2 : Manager.Message) :
  let first := Manager.reserveChannel channelId sid1 m1 in
  let second := Manager.reserveChannel channelId sid2 m2 in
  let s1 := Manager.exec first s in
  let s2 := Manager.exec second s1 in
  Manager.done_by first s = Manager.kill_of s channelId
  /\ length (Manager.kill_of s channelId)
     = match Manager.entry_process s channelId with
       | Some _ => 1
       | None => 0
       end
  /\ Manager.channelProcesses s1 !! channelId
     = Some {| Manager.process := None; Manager.sessionId := sid1;
               Manager.discordMessage := m1 |}
  /\ Manager.hasActiveProcess s1 channelId = true
  /\ Manager.done_by second s1 = []
  /\ Manager.effects s2 = Manager.effects s ++ Manager.kill_of s channelId
  /\ Manager.channelProcesses s2 !! channelId
     = Some {| Manager.process := None; Manager.sessionId := sid2;
               Manager.discordMessage := m2 |}
  /\ delete channelId (Manager.channelProcesses s2)
     = delete channelId (Manager.channelProcesses s).
Proof.
  intros first second s1 s2. subst first second s1 s2.
  assert (Hnone : forall sid m t,
            Manager.kill_of
              (Manager.exec (Manager.reserveChannel channelId sid m) t) channelId
            = []).
  { intros sid m t. rewrite reserveChannel_exec.
    unfold Manager.kill_of, Manager.entry_process.
    cbn. rewrite lookup_insert_eq. reflexivity. }
  repeat split.
  - apply done_by_app. rewrite reserveChannel_exec. reflexivity.
  - unfold Manager.kill_of.
    destruct (Manager.entry_process s channelId); reflexivity.
  - rewrite reserveChannel_exec. cbn. apply lookup_insert_eq.
  - unfold Manager.hasActiveProcess. rewrite reserveChannel_exec. cbn.
    rewrite lookup_insert_eq. reflexivity.
  - apply done_by_app. rewrite (reserveChannel_exec _ sid2), Hnone.
    cbn. rewrite app_nil_r. reflexivity.
  - rewrite (reserveChannel_exec _ sid2), Hnone. cbn.
    rewrite app_nil_r, reserveChannel_exec. reflexivity.
  - rewrite reserveChannel_exec. cbn. apply lookup_insert_eq.
  - rewrite !reserveChannel_exec. cbn. rewrite !delete_insert_eq.
    reflexivity.
Qed.

Section ExitPaths.
Import Manager.

#[local] Arguments existsSync : simpl never.
#[local] Arguments path_join : simpl never.

Ltac run :=
  unfold done_by, exec, eval, skip, emit, modify, gets, send, edit;
  unfold mbind, M_bind, mret, M_ret.

Lemma on_close_clears prov channelId p code s :
  channelProcesses (exec (on_close prov channelId p code) s) !! channelId
  = None.
Proof.
  unfold on_close, clearTimeout. run. cbn.
  destruct code as [c|]; [destruct (bool_decide (c = 0%Z))|]; cbn;
    try apply lookup_delete_eq.
  destruct (channel_of _ _); cbn; apply lookup_delete_eq.
Qed.


(** When [handleResultMessage] resolves and when it rejects. *)
Lemma handleResultMessage_outcome channelId r s :
  eval (handleResultMessage channelId r) s
  = match result_session_id r with
    | None => Rejected "SQLiteError"
    | Some _ =>
        match channel_of s channelId, result_total_cost_usd r with
        | Some _, None => Rejected "TypeError"
        | _, _ => Resolved
        end
    end.
Proof.
  unfold handleResultMessage, db_setSession. run.
  destruct (result_session_id r); [|reflexivity]. cbn.
  change (channel_of _ channelId) with (channel_of s channelId).
  destruct (channel_of s channelId); [|reflexivity].
  destruct (result_total_cost_usd r); reflexivity.
Qed.


(** A result record with a session id is stored, whatever follows. *)
Lemma on_result_session channelId p r sid s :
  result_session_id r = Some sid ->
  getSessionId (exec (on_result channelId p r) s) channelId = Some sid.
Proof.
  intros Hsid.
  unfold on_result, handleResultMessage, clearTimeout, db_setSession. run.
  rewrite Hsid. cbn.
  change (channel_of _ channelId) with (channel_of s channelId).
  unfold getSessionId, db_getSession.
  destruct (channel_of s channelId);
    [destruct (result_total_cost_usd r)|]; cbn;
    rewrite lookup_insert_eq; reflexivity.
Qed.

Lemma clearSession_clears channelId s :
  channelProcesses (exec (clearSession channelId) s) !! channelId = None.
Proof. rewrite clearSession_exec. cbn. apply lookup_delete_eq. Qed.

(** [runClaudeCode] rejects exactly when the working directory is
    missing; when it resolves, the entry of the channel (if there is one)
    holds the child. *)
Lemma runClaudeCode_outcome base mcp channelId name prompt sid s :
  eval (runClaudeCode base mcp channelId name prompt sid) s
  = if existsSync s
         (path_join base (folder_name (getPath s channelId) name))
    then Resolved
    else Rejected ("Working directory does not exist: "
                   +:+ path_join base
                         (folder_name (getPath s channelId) name)).
Proof.
  unfold runClaudeCode, runCodex, spawn, arm_timer. run. cbn.
  destruct (getProvider s channelId); cbn;
    change (existsSync _ ?w) with (existsSync s w);
    destruct (existsSync s _); reflexivity.
Qed.

Lemma runClaudeCode_entry base mcp channelId name prompt sid s :
  channelProcesses (exec (runClaudeCode base mcp channelId name prompt sid) s)
  = if existsSync s
         (path_join base (folder_name (getPath s channelId) name))
    then alter (fun e =>
                  {| process :=
                       Some {| pid := next_pid s;
                               stdin := match getProvider s channelId with
                                        | claude => true
                                        | codex => false
                                        end |};
                     sessionId := sessionId e;
                     discordMessage := discordMessage e |})
           channelId (channelProcesses s)
    else channelProcesses s.
Proof.
  unfold runClaudeCode, runCodex, spawn, arm_timer. run. cbn.
  destruct (getProvider s channelId); cbn;
    change (existsSync _ ?w) with (existsSync s w);
    destruct (existsSync s _); reflexivity.
Qed.


End ExitPaths.



Section ProviderSwitch.
Import Manager.

(** What [setProvider] leaves of the channel. *)
Lemma setProvider_clears s channelId prov :
  let s' := exec (setProvider channelId prov) s in
  done_by (setProvider channelId prov) s = kill_of s channelId
  /\ getProvider s' channelId = prov
  /\ getSessionId s' channelId = None
  /\ channelMessages s' !! channelId = None
  /\ channelToolCalls s' !! channelId = None
  /\ channelNames s' !! channelId = None
  /\ channelProcesses s' !! channelId = None
  /\ processes s' = processes s.
Proof.
  cbv zeta. split; [apply done_by_app; rewrite setProvider_exec; reflexivity|].
  rewrite setProvider_exec. unfold getProvider, db_getProvider,
    getSessionId, db_getSession. cbn.
  rewrite lookup_insert_eq, !lookup_delete_eq. repeat split.
Qed.

End ProviderSwitch.

(** [C10] The code at the failing schedule.  A Claude run of the channel
    is under way when the provider is set to Codex: the process is sent
    SIGTERM, the stored session id and the per-channel state are removed,
    and nothing else is done.  The handlers of the process stay registered
    until its [close]; a [result] record that it had written is handled
    after the switch and stores the session id of the Claude run again.
    The next prompt finds that id and starts Codex with [resume] and the
    session id of Claude.  In general: [setProvider] leaves the channel
    without a session id, and every [result] record with a session id that
    is handled for an open Claude process of the channel stores its id. *)
Theorem provider_switch_resumes_old_session :
  let cfg := {| Bot.allowedUserId := "u"; Bot.baseFolder := "/base";
                Bot.mcpConfigPath := "/tmp/mcp.json" |} in
  let m := {| Bot.author_bot := false; Bot.author_id := "u";
              Bot.in_channel := "c"; Bot.in_channel_name := Some "proj";
              Bot.in_content := "go"; Bot.in_prompt := "go" |} in
  let switch :=
    {| Commands.user_id := "u"; Commands.channelId := "c";
       Commands.channel_name := Some "proj";
       Commands.command := Some (Commands.Provider Shell.codex) |} in
  let r := {| Manager.result_session_id := Some "claude-session-1";
              Manager.result_subtype := "success";
              Manager.result_num_turns := "3";
              Manager.result_total_cost_usd := Some "0.02";
              Manager.result_text := None |} in
  let schedule :=
    [Commands.Other (Bot.MessageCreate m); Commands.Other (Bot.StatusSent 1);
     Commands.InteractionCreate None switch;
     Commands.Other (Bot.ResultLine 1 r);
     Commands.Other (Bot.ProcessClose 1 None);
     Commands.Other (Bot.MessageCreate m); Commands.Other (Bot.StatusSent 2)] in
  let after n :=
    Bot.core
      (Commands.run cfg (Bot.initial {["/base/proj"]}) (firstn n schedule)) in
  (* a fresh Claude run *)
  Manager.since (after 1) (after 2)
  = [Manager.Spawn 1
       "cd /base/proj && claude --output-format stream-json --model sonnet -p 'go' --verbose --dangerously-skip-permissions";
     Manager.StdinEnd 1; Manager.SetTimeout 1 300000]
  (* the switch clears the channel *)
  /\ Manager.since (after 2) (after 3) = [Manager.Kill 1 "SIGTERM"]
  /\ Manager.getProvider (after 3) "c" = Shell.codex
  /\ Manager.getSessionId (after 3) "c" = None
  /\ Manager.hasActiveProcess (after 3) "c" = false
  (* the record of the killed process stores its session id *)
  /\ Manager.getSessionId (after 4) "c" = Some "claude-session-1"
  /\ Manager.getSessionId (after 5) "c" = Some "claude-session-1"
  (* the next prompt resumes it with the other provider *)
  /\ Manager.since (after 6) (after 7)
     = [Manager.Spawn 2
          "codex exec resume --json --dangerously-bypass-approvals-and-sandbox claude-session-1 'go'";
        Manager.SetTimeout 2 300000]
  /\ (forall s channelId prov,
        Manager.getSessionId
          (Manager.exec (Manager.setProvider channelId prov) s) channelId
        = None
        /\ Manager.processes
             (Manager.exec (Manager.setProvider channelId prov) s)
           = Manager.processes s)
  /\ (forall cfg' bs p i r' sid,
        Bot.open_process (Bot.core bs) p = Some i ->
        Manager.proc_provider i = Shell.claude ->
        Manager.result_session_id r' = Some sid ->
        Manager.getSessionId
          (Bot.core (Bot.step cfg' bs (Bot.ResultLine p r')))
          (Manager.proc_channel i)
        = Some sid).
Proof.
  cbv zeta. repeat (split; [vm_compute; reflexivity|]).
  split.
  - intros s channelId prov.
    pose proof (setProvider_clears s channelId prov) as H. cbv zeta in H.
    tauto.
  - intros cfg' bs p i r' sid Hopen Hprov Hsid.
    unfold Bot.step. rewrite Hopen, Hprov. cbn [Bot.core Bot.with_core].
    apply on_result_session, Hsid.
Qed.

(** ** Tool results *)

Section ToolFacts.
Import Manager.

Ltac run :=
  unfold done_by, exec, eval, skip, emit, modify, gets, send, edit;
  unfold mbind, M_bind, mret, M_ret.

(** A result whose id is not in the table: the Claude handler does
    nothing at all. *)
Lemma orphan_result_dropped channelId r s :
  tool_calls s channelId !! tool_use_id r = None ->
  exec (handleToolResultMessage channelId [r]) s = s.
Proof.
  intros H. unfold handleToolResultMessage, for_each, update_tool_result.
  run. cbn. rewrite H. reflexivity.
Qed.

(** The Codex handler sends a new message for it. *)
Lemma orphan_command_standalone channelId item c s :
  tool_calls s channelId !! item_id item = None ->
  channel_of s channelId = Some c ->
  done_by (handleCodexCommandComplete channelId item) s
  = [Send c
       {| msg_id := next_msg s; msg_channel := Some c;
          msg_embeds :=
            [CommandDoneEmbed
               (negb (String.eqb (item_status item) "failed"
                      || match item_exit_code item with
                         | Some code => negb (bool_decide (code = 0%Z))
                         | None => false
                         end))
               (item_command item)
               (shorten 120
                  (first_line (Js.trim (item_aggregated_output item))))] |}].
Proof.
  intros H Hc. apply done_by_app.
  unfold handleCodexCommandComplete. run. cbn. rewrite Hc. cbn.
  rewrite H. reflexivity.
Qed.

(** A result whose id is in the table edits the message of the table. *)
Lemma recorded_result_updates channelId r m e es text s :
  tool_calls s channelId !! tool_use_id r
  = Some {| message := Some m; toolId := tool_use_id r |} ->
  msg_embeds m = e :: es ->
  result_content r = Json.JString text ->
  done_by (handleToolResultMessage channelId [r]) s
  = [Edit (msg_id m)
       (ToolResultEmbed e (result_is_error r)
          (shorten 100 (Js.trim (first_line text))))].
Proof.
  intros H He Ht. apply done_by_app.
  unfold handleToolResultMessage, for_each, update_tool_result.
  run. cbn. rewrite H, Ht, He. reflexivity.
Qed.

Lemma recorded_command_updates channelId item m e es s c :
  channel_of s channelId = Some c ->
  tool_calls s channelId !! item_id item
  = Some {| message := Some m; toolId := item_id item |} ->
  msg_embeds m = e :: es ->
  exists ok resultText,
    done_by (handleCodexCommandComplete channelId item) s
    = [Edit (msg_id m) (CommandResultEmbed e ok resultText)].
Proof.
  intros Hc H He. do 2 eexists. apply done_by_app.
  unfold handleCodexCommandComplete. run. cbn. rewrite Hc. cbn.
  rewrite H. destruct m as [i ch' embeds]. cbn in He. subst embeds.
  reflexivity.
Qed.

(** The invocation records the message it creates under the tool id. *)
Lemma invocation_recorded channelId session_id tool c s :
  channel_of s channelId = Some c ->
  String.eqb (tool_name tool) "AskUserQuestion" = false ->
  String.eqb (tool_name tool) "ExitPlanMode" = false ->
  let s' := exec (handleAssistantTools channelId session_id [(tool, Nobody)]) s in
  let m := {| msg_id := next_msg s; msg_channel := Some c;
              msg_embeds := [ToolCallEmbed tool] |} in
  done_by (handleAssistantTools channelId session_id [(tool, Nobody)]) s
  = [Send c m]
  /\ tool_calls s' channelId !! tool_id tool
     = Some {| message := Some m; toolId := tool_id tool |}.
Proof.
  intros Hc Ha He s' m. subst s' m. split.
  - apply done_by_app.
    unfold handleAssistantTools, show_tools, show_tool, db_setSession.
    run. cbn. rewrite Hc. cbn. rewrite Ha, He. cbn.
    destruct (bool_decide _); reflexivity.
  - unfold handleAssistantTools, show_tools, show_tool, db_setSession,
      tool_calls.
    run. cbn. rewrite Hc. cbn. rewrite Ha, He. cbn.
    destruct (bool_decide _); cbn; rewrite lookup_insert_eq; cbn;
      rewrite lookup_insert_eq; reflexivity.
Qed.

End ToolFacts.

(** [C5] What the handlers do with a tool result whose invocation id is not
    in the channel's table, in a channel that has its status message: the
    Claude handler, [handleToolResultMessage], leaves the state as it is and
    does nothing to the outside, so no standalone message is rendered,
    while the Codex handler, [handleCodexCommandComplete], sends one new
    message that carries the result. *)
Theorem orphan_tool_result
    (s : Manager.State) (channelId : string) (r : Manager.ToolResult)
    (item : Manager.CodexItem) (c : string) :
  Manager.channel_of s channelId = Some c ->
  Manager.tool_calls s channelId !! Manager.tool_use_id r = None ->
  Manager.tool_calls s channelId !! Manager.item_id item = None ->
  Manager.exec (Manager.handleToolResultMessage channelId [r]) s = s
  /\ Manager.done_by (Manager.handleToolResultMessage channelId [r]) s = []
  /\ exists e,
       Manager.done_by (Manager.handleCodexCommandComplete channelId item) s
       = [Manager.Send c
            {| Manager.msg_id := Manager.next_msg s;
               Manager.msg_channel := Some c;
               Manager.msg_embeds := [e] |}].
Proof.
  intros Hc Hr Hi. split; [apply orphan_result_dropped, Hr|]. split.
  - unfold Manager.done_by. rewrite orphan_result_dropped by exact Hr.
    apply drop_all.
  - eexists. apply orphan_command_standalone; assumption.
Qed.

Lemma orphan_tool_result_witness :
  let reply := {| Manager.msg_id := 1; Manager.msg_channel := Some "c";
                  Manager.msg_embeds := [] |} in
  let s := Manager.exec (Manager.setDiscordMessage "c" reply)
             (Manager.initial ∅) in
  let r := {| Manager.tool_use_id := "toolu_9";
              Manager.result_content := Json.JString "done";
              Manager.result_is_error := false |} in
  Manager.done_by (Manager.handleToolResultMessage "c" [r]) s = [].
Proof.
  intros reply s r.
  exact (proj1 (proj2 (orphan_tool_result s "c" r
                         {| Manager.item_id := "item_9";
                            Manager.item_command := "ls";
                            Manager.item_aggregated_output := "done";
                            Manager.item_exit_code := Some 0%Z;
                            Manager.item_status := "completed" |}
                         "c" eq_refl eq_refl eq_refl))).
Defined.

(** ** Waits that end with the timeout *)

Section ObjectFacts.
Context {V : Type}.
Implicit Types (o : list (string * V)) (k : string) (v : V).






End ObjectFacts.

Section TimeoutFacts.
Import Manager.

Ltac run :=
  unfold done_by, exec, eval, skip, emit, modify, gets, send, edit;
  unfold mbind, M_bind, mret, M_ret.









Lemma plan_review_close_timed_out channelId tool m s :
  done_by (plan_review_close channelId tool m PlanTimeout) s
  = [Edit (msg_id m) PlanTimedOutEmbed;
     answer_effect s channelId (tool_id tool) plan_timeout_payload].
Proof.
  apply done_by_app.
  unfold plan_review_close, sendToolResponse, answer_effect. run. cbn.
  change (stdin_of _ channelId) with (stdin_of s channelId).
  destruct (stdin_of s channelId); cbn; rewrite <- !app_assoc; reflexivity.
Qed.






End TimeoutFacts.

(** The plan review of a process that runs into its own five-minute timer.
    The review message is sent while the process runs; the timer callback
    signals the process and its [close] removes the channel's entry; when
    the wait for the plan buttons ends after that, the review message is
    marked as timed out and the default is not written to any stdin. *)
Lemma timed_out_default_dropped :
  let cfg := {| Bot.allowedUserId := "u"; Bot.baseFolder := "/base";
                Bot.mcpConfigPath := "/tmp/mcp.json" |} in
  let m := {| Bot.author_bot := false; Bot.author_id := "u";
              Bot.in_channel := "c"; Bot.in_channel_name := Some "proj";
              Bot.in_content := "plan it"; Bot.in_prompt := "plan it" |} in
  let tool := {| Manager.tool_id := "toolu_1";
                 Manager.tool_name := "ExitPlanMode";
                 Manager.tool_input := Json.JObject [] |} in
  let running :=
    Bot.run cfg (Bot.initial {["/base/proj"]})
      [Bot.MessageCreate m; Bot.StatusSent 1] in
  let '(review, asked) := Manager.plan_review_open "c" (Bot.core running) in
  let s :=
    Bot.core
      (Bot.run cfg (Bot.with_core running asked)
         [Bot.TimerFired 1; Bot.ProcessClose 1 None]) in
  Manager.stdin_of asked "c" = Some 1
  /\ ~ (exists p data,
          In (Manager.StdinWrite p data)
             (Manager.done_by
                (Manager.plan_review_close "c" tool review
                   Manager.PlanTimeout) s)).
Proof.
  cbv zeta. split; [reflexivity|].
  intros (p & data & H). vm_compute in H.
  repeat (destruct H as [H|H]; [discriminate|]). exact H.
Qed.



(** The line that a process with a stdin is sent for a plan review that
    timed out. *)
Example plan_timeout_line :
  let reply := {| Manager.msg_id := 0; Manager.msg_channel := Some "c";
                  Manager.msg_embeds := [] |} in
  let s :=
    Manager.exec
      (Manager.reserveChannel "c" None reply;;
       Manager.runClaudeCode "/base" "/tmp/mcp.json" "c" "proj" "plan it"
         None)
      (Manager.initial {["/base/proj"]}) in
  let tool := {| Manager.tool_id := "toolu_1";
                 Manager.tool_name := "ExitPlanMode";
                 Manager.tool_input := Json.JObject [] |} in
  last (Manager.done_by
          (Manager.handleExitPlanMode "c" tool "c" Manager.PlanTimeout) s)
  = Some
      (Manager.StdinWrite 1
         (Js.bq "{`type`:`user`,`message`:{`role`:`user`,`content`:[{`type`:`tool_result`,`tool_use_id`:`toolu_1`,`content`:`{\`rejected\`:true,\`feedback\`:\`Review timed out - no response from user\`}`,`is_error`:false}]}}"
            +:+ Js.LF)).
Proof. reflexivity. Qed.

(** ** Message intake and the processes of a channel *)

(** A message for a channel that has an entry is dropped: the state of the
    bot, the suspended handlings included, stays as it is. *)
Lemma busy_channel_message_dropped cfg m bs :
  Manager.hasActiveProcess (Bot.core bs) (Bot.in_channel m) = true ->
  Bot.handleMessage cfg m bs = bs.
Proof.
  intros Hbusy. unfold Bot.handleMessage. rewrite Hbusy.
  destruct (Bot.author_bot m); [reflexivity|].
  destruct (negb _); reflexivity.
Qed.

(** [C4] The code at the failing schedule.  Two messages arrive in an idle
    channel before either handling has reached [reserveChannel]; both pass
    the busy check.  The first starts process 1; the second signals
    process 1 and starts process 2.  The [close] of process 1 then removes
    the channel's entry, which by now is the entry of process 2.  A third
    message is therefore not dropped and starts process 3: processes 2 and
    3 of the channel are both running, and neither has been sent a signal.
    The drop itself works: a message is handled further only when the
    channel has no entry. *)
Theorem two_processes_in_one_channel :
  let cfg := {| Bot.allowedUserId := "u"; Bot.baseFolder := "/base";
                Bot.mcpConfigPath := "/tmp/mcp.json" |} in
  let m := {| Bot.author_bot := false; Bot.author_id := "u";
              Bot.in_channel := "c"; Bot.in_channel_name := Some "proj";
              Bot.in_content := "go"; Bot.in_prompt := "go" |} in
  let start := Bot.initial {["/base/proj"]} in
  let schedule :=
    [Bot.MessageCreate m; Bot.MessageCreate m; Bot.StatusSent 1;
     Bot.StatusSent 2; Bot.ProcessClose 1 None; Bot.MessageCreate m;
     Bot.StatusSent 3] in
  let after n := Bot.core (Bot.run cfg start (firstn n schedule)) in
  (* both messages passed the check *)
  Manager.hasActiveProcess (after 1) "c" = false
  /\ size (Bot.waiting (Bot.run cfg start (firstn 2 schedule))) = 2
  (* the second start supersedes the first *)
  /\ Manager.entry_process (after 3) "c"
     = Some {| Manager.pid := 1; Manager.stdin := true |}
  /\ Manager.entry_process (after 4) "c"
     = Some {| Manager.pid := 2; Manager.stdin := true |}
  /\ Bot.signalled (after 4) 1 = true
  (* the close of process 1 removes the entry of process 2 *)
  /\ Bot.is_live (after 5) "c" 2 = true
  /\ Manager.hasActiveProcess (after 5) "c" = false
  (* so the third message starts process 3 next to process 2 *)
  /\ Bot.is_live (after 7) "c" 2 = true
  /\ Bot.is_live (after 7) "c" 3 = true
  /\ Bot.signalled (after 7) 2 = false
  /\ Bot.signalled (after 7) 3 = false
  /\ (forall cfg' m' bs,
        Bot.handleMessage cfg' m' bs = bs
        \/ Manager.hasActiveProcess (Bot.core bs) (Bot.in_channel m') = false).
Proof.
  cbv zeta. repeat (split; [vm_compute; reflexivity|]).
  intros cfg' m' bs.
  destruct (Manager.hasActiveProcess (Bot.core bs) (Bot.in_channel m')) eqn:E;
    [left; apply busy_channel_message_dropped, E | right; reflexivity].
Qed.
(** ** Long texts *)

Section TextFacts.
Import Text.

Lemma lastIndexOf_le p s : forall from i,
  lastIndexOf p s from = Some i -> i <= from.
Proof.
  induction s as [|c s IH]; intros from i; simpl.
  - destruct (startsWith p ""); [|discriminate]. intros [= <-]. lia.
  - destruct from as [|from].
    + destruct (startsWith p (String c s)); [|discriminate].
      intros [= <-]. lia.
    + destruct (lastIndexOf p s from) as [j|] eqn:E.
      * intros [= <-]. apply IH in E. lia.
      * destruct (startsWith p (String c s)); [|discriminate].
        intros [= <-]. lia.
Qed.

Lemma split_index_bounds limit remaining :
  limit <= 2 * split_index limit remaining
  /\ split_index limit remaining <= S limit.
Proof.
  unfold split_index.
  set (i1 := lastIndexOf (Js.LF +:+ Js.LF) remaining limit).
  set (i2 := if unusable limit i1 then lastIndexOf Js.LF remaining limit
             else i1).
  set (i3 := if unusable limit i2
             then S <$> lastIndexOf ". " remaining limit else i2).
  assert (H1 : forall i, i1 = Some i -> i <= limit)
    by (intros i; apply lastIndexOf_le).
  assert (H2 : forall i, i2 = Some i -> i <= limit).
  { intros i. subst i2. destruct (unusable limit i1); [|apply H1].
    apply lastIndexOf_le. }
  assert (H3 : forall i, i3 = Some i -> i <= S limit).
  { intros i. subst i3. destruct (unusable limit i2).
    - destruct (lastIndexOf ". " remaining limit) as [j|] eqn:E;
        [|discriminate].
      intros [= <-]. apply lastIndexOf_le in E. lia.
    - intros H. apply H2 in H. lia. }
  destruct i3 as [i|]; [|lia].
  destruct (Nat.ltb_spec (2 * i) limit); [lia|].
  specialize (H3 i eq_refl). lia.
Qed.

Lemma take_length n : forall s,
  String.length (Js.take n s) = Nat.min n (String.length s).
Proof.
  induction n as [|n IH]; intros [|c s]; simpl; try reflexivity.
  rewrite IH. reflexivity.
Qed.

Lemma drop_length n : forall s,
  String.length (drop n s) = String.length s - n.
Proof.
  induction n as [|n IH]; intros [|c s]; simpl; try reflexivity; try lia.
  apply IH.
Qed.

Lemma take_drop n : forall s, Js.take n s +:+ drop n s = s.
Proof.
  induction n as [|n IH]; intros [|c s]; simpl; try reflexivity.
  rewrite IH. reflexivity.
Qed.

Lemma trimStart_length s : String.length (Js.trimStart s) <= String.length s.
Proof.
  induction s as [|c s IH]; simpl; [lia|].
  destruct (Js.is_space c); simpl; lia.
Qed.

Lemma trimEnd_length s : String.length (Js.trimEnd s) <= String.length s.
Proof.
  induction s as [|c s IH]; simpl; [lia|].
  destruct (Js.trimEnd s); [destruct (Js.is_space c)|]; simpl in *; lia.
Qed.

Lemma trim_length s : String.length (Js.trim s) <= String.length s.
Proof.
  unfold Js.trim. etransitivity; [apply trimEnd_length|].
  apply trimStart_length.
Qed.

Lemma visible_app a b : visible (a +:+ b) = visible a +:+ visible b.
Proof.
  induction a as [|c a IH]; simpl; [reflexivity|].
  destruct (Js.is_space c); simpl; rewrite IH; reflexivity.
Qed.

Lemma visible_trimStart s : visible (Js.trimStart s) = visible s.
Proof.
  induction s as [|c s IH]; simpl; [reflexivity|].
  destruct (Js.is_space c) eqn:E; [exact IH|]. simpl. rewrite E. reflexivity.
Qed.

Lemma visible_trimEnd s : visible (Js.trimEnd s) = visible s.
Proof.
  induction s as [|c s IH]; simpl; [reflexivity|].
  destruct (Js.trimEnd s) as [|d t] eqn:E.
  - destruct (Js.is_space c) eqn:Ec; simpl; rewrite ?Ec, <- IH; reflexivity.
  - simpl in *. destruct (Js.is_space c); rewrite IH; reflexivity.
Qed.

Lemma visible_trim s : visible (Js.trim s) = visible s.
Proof. unfold Js.trim. rewrite visible_trimEnd. apply visible_trimStart. Qed.

(** The loop, for any limit of at least one character. *)
Lemma chunk_loop_sound limit (Hl : 1 <= limit) fuel : forall remaining cs,
  chunk_loop limit fuel remaining = Some cs ->
  Forall (fun c => 1 <= String.length c <= S limit) cs
  /\ Forall (fun c => limit <= 2 * String.length c) (removelast cs)
  /\ visible (fold_right String.append EmptyString cs) = visible remaining.
Proof.
  induction fuel as [|fuel IH]; intros remaining cs; simpl;
    destruct (Nat.eqb_spec (String.length remaining) 0) as [H0|H0].
  1,3: intros [= <-]; repeat split; try constructor;
    destruct remaining; [reflexivity|discriminate].
  1,2: destruct (Nat.leb_spec (String.length remaining) limit) as [Hle|Hgt].
  1,3: intros [= <-]; repeat split;
    [repeat constructor; lia | constructor
    | simpl; rewrite append_empty_r; reflexivity].
  - discriminate.
  - pose proof (split_index_bounds limit remaining) as [Hlo Hhi].
    set (k := split_index limit remaining) in *.
    destruct (chunk_loop limit fuel (Js.trim (drop k remaining)))
      as [cs'|] eqn:E; [|discriminate].
    simpl. intros [= <-]. apply IH in E as (Hb & Hm & Hv).
    assert (Hk : String.length (Js.take k remaining) = k)
      by (rewrite take_length; lia).
    repeat split.
    + constructor; [lia|exact Hb].
    + destruct cs' as [|c cs']; [constructor|].
      change (removelast (Js.take k remaining :: c :: cs'))
        with (Js.take k remaining :: removelast (c :: cs')).
      constructor; [lia|exact Hm].
    + simpl. rewrite visible_app, Hv, visible_trim, <- visible_app, take_drop.
      reflexivity.
Qed.

(** The loop ends: a fuel of the length of the text is enough, and more
    fuel changes nothing. *)
Lemma chunk_loop_total limit (Hl : 1 <= limit) fuel : forall remaining,
  String.length remaining <= fuel + limit ->
  exists cs, chunk_loop limit fuel remaining = Some cs
             /\ forall fuel', fuel <= fuel' ->
                  chunk_loop limit fuel' remaining = Some cs.
Proof.
  induction fuel as [|fuel IH]; intros remaining Hlen.
  - exists (if (String.length remaining =? 0)%nat then [] else [remaining]).
    assert (E : forall f, chunk_loop limit f remaining
                          = Some (if (String.length remaining =? 0)%nat
                                  then [] else [remaining])).
    { intros f. destruct f; simpl;
        destruct (String.length remaining =? 0)%nat; try reflexivity;
        destruct (Nat.leb_spec (String.length remaining) limit);
        try reflexivity; lia. }
    split; [apply E|]. intros f _. apply E.
  - destruct (Nat.eqb_spec (String.length remaining) 0) as [H0|H0].
    { exists []. split; [simpl|intros [|f] _; simpl];
        apply Nat.eqb_eq in H0; rewrite H0; reflexivity. }
    destruct (Nat.leb_spec (String.length remaining) limit) as [Hle|Hgt].
    { exists [remaining].
      apply Nat.eqb_neq in H0. apply Nat.leb_le in Hle.
      split; [simpl|intros [|f] _; simpl]; rewrite H0, Hle; reflexivity. }
    pose proof (split_index_bounds limit remaining) as [Hlo Hhi].
    destruct (IH (Js.trim (drop (split_index limit remaining) remaining)))
      as (cs & Hcs & Hmore).
    { pose proof (trim_length (drop (split_index limit remaining) remaining)).
      rewrite drop_length in H. lia. }
    exists (Js.take (split_index limit remaining) remaining :: cs).
    apply Nat.eqb_neq in H0. apply Nat.leb_gt in Hgt.
    split.
    + simpl. rewrite H0, Hgt, Hcs. reflexivity.
    + intros [|f] Hf; [lia|]. simpl. rewrite H0, Hgt.
      rewrite Hmore by lia. reflexivity.
Qed.

End TextFacts.

(** A text whose 4001st and 4002nd characters are a full stop and a space:
    the first chunk ends after the full stop and has 4001 characters; the
    white space between and after the chunks is dropped. *)
Example chunks_full_stop :
  List.map String.length
    <$> Text.chunks (string_of_list_ascii (List.repeat "a"%char 4000)
                       +:+ ". "
                       +:+ string_of_list_ascii (List.repeat "b"%char 10)
                       +:+ "  ")
  = Some [4001; 10].
Proof. vm_compute. reflexivity. Qed.

Example chunks_paragraphs :
  List.map String.length
    <$> Text.chunks (string_of_list_ascii (List.repeat "a"%char 3000)
                       +:+ Js.LF +:+ Js.LF
                       +:+ string_of_list_ascii (List.repeat "b"%char 3000)
                       +:+ Js.LF
                       +:+ string_of_list_ascii (List.repeat "c"%char 3000))
  = Some [3000; 3000; 3000].
Proof. vm_compute. reflexivity. Qed.

Lemma limit_positive : 1 <= Text.MAX_EMBED_LENGTH.
Proof. unfold Text.MAX_EMBED_LENGTH. lia. Qed.

(** [X1] The loop that cuts a long text into chunks ends for every text:
    with a fuel of the length of the text it returns the chunks, and more
    fuel returns the same chunks. *)
Theorem chunks_terminate (content : string) :
  exists cs,
    Text.chunks content = Some cs
    /\ forall fuel,
         String.length content <= fuel ->
         Text.chunk_loop Text.MAX_EMBED_LENGTH fuel content = Some cs.
Proof.
  destruct (chunk_loop_total Text.MAX_EMBED_LENGTH limit_positive
              (String.length content) content (Nat.le_add_r _ _)) as (cs & Hcs & Hmore).
  exists cs. split; [exact Hcs|exact Hmore].
Qed.

(** [X2] Every chunk of a text has at least one character and at most
    4001, one more than [MAX_EMBED_LENGTH] (a cut after a full stop at
    index 4000), and every chunk but the last has at least 2000. *)
Theorem chunk_sizes (content : string) :
  match Text.chunks content with
  | Some cs =>
      Forall (fun c => 1 <= String.length c <= 4001) cs
      /\ Forall (fun c => 2000 <= String.length c) (removelast cs)
  | None => False
  end.
Proof.
  destruct (chunk_loop_total Text.MAX_EMBED_LENGTH limit_positive
              (String.length content) content (Nat.le_add_r _ _)) as (cs & Hcs & _).
  unfold Text.chunks. rewrite Hcs.
  destruct (chunk_loop_sound Text.MAX_EMBED_LENGTH limit_positive _ _ _ Hcs)
    as (Hb & Hm & _).
  split.
  - eapply Forall_impl; [exact Hb|]. intros c Hc.
    change (S Text.MAX_EMBED_LENGTH) with 4001 in Hc. exact Hc.
  - eapply Forall_impl; [exact Hm|]. intros c Hc.
    apply (Nat.mul_le_mono_pos_l _ _ 2); [lia|]. exact Hc.
Qed.

(** [X3] Cutting a text into chunks drops white space only: the characters
    of the chunks that are not white space are those of the text, in the
    same order. *)
Theorem chunks_keep_text (content : string) :
  match Text.chunks content with
  | Some cs =>
      Text.visible (fold_right String.append EmptyString cs)
      = Text.visible content
  | None => False
  end.
Proof.
  destruct (chunk_loop_total Text.MAX_EMBED_LENGTH limit_positive
              (String.length content) content (Nat.le_add_r _ _)) as (cs & Hcs & _).
  unfold Text.chunks. rewrite Hcs.
  apply (chunk_loop_sound Text.MAX_EMBED_LENGTH limit_positive _ _ _ Hcs).
Qed.

(** ** Paths *)

Section PathFacts.
Import Path.

Lemma split_nosep s : nosep s = true -> Js.split sep s = [s].
Proof.
  unfold nosep. induction s as [|c s IH]; simpl; [reflexivity|].
  intros [Hc Hs]%andb_prop. apply negb_true_iff in Hc. rewrite Hc, IH by exact Hs.
  reflexivity.
Qed.

Lemma split_sep_app a b :
  Js.split sep (a +:+ String sep b) = Js.split sep a ++ Js.split sep b.
Proof.
  induction a as [|c a IH]; simpl; [reflexivity|].
  rewrite IH. destruct (Ascii.eqb c sep); [reflexivity|].
  pose proof (split_nonempty sep a).
  destruct (Js.split sep a); [congruence|reflexivity].
Qed.

Lemma split_join segs :
  segs <> [] -> Forall (fun s => nosep s = true) segs ->
  Js.split sep (Js.join "/" segs) = segs.
Proof.
  induction segs as [|x [|y l] IH]; intros Hne Hall; [congruence| |].
  - simpl. apply split_nosep. inversion Hall; assumption.
  - change (Js.join "/" (x :: y :: l))
      with (x +:+ String sep (Js.join "/" (y :: l))).
    inversion Hall as [|? ? Hx Hl]; subst.
    rewrite split_sep_app, split_nosep, IH by (assumption || discriminate).
    reflexivity.
Qed.

Lemma plain_nosep s : plain s = true -> nosep s = true.
Proof. unfold plain. intros H. apply andb_prop in H as [_ H]. exact H. Qed.

Lemma plain_resolve allow seg stack rest :
  plain seg = true ->
  resolve allow stack (seg :: rest) = resolve allow (seg :: stack) rest.
Proof.
  unfold plain. intros H.
  apply andb_prop in H as [H _]. apply andb_prop in H as [H H3].
  apply andb_prop in H as [H1 H2].
  apply negb_true_iff in H1, H2, H3. simpl. rewrite H1, H2, H3. reflexivity.
Qed.

Lemma resolve_plain allow segs : forall stack,
  Forall (fun s => plain s = true) segs ->
  resolve allow stack segs = rev segs ++ stack.
Proof.
  induction segs as [|x l IH]; intros stack Hall; [reflexivity|].
  inversion Hall; subst. rewrite plain_resolve, IH by assumption.
  simpl. rewrite <- app_assoc. reflexivity.
Qed.

Lemma resolve_app allow a : forall stack b,
  resolve allow stack (a ++ b) = resolve allow (resolve allow stack a) b.
Proof.
  induction a as [|x a IH]; intros stack b; [reflexivity|].
  simpl. destruct (String.eqb x "" || String.eqb x "."); [apply IH|].
  destruct (String.eqb x ".."); [|apply IH].
  destruct stack as [|top below]; [apply IH|].
  destruct (String.eqb top ".."); apply IH.
Qed.

Lemma trailingSeparator_app a c b :
  trailingSeparator (a +:+ String c b) = trailingSeparator (String c b).
Proof.
  induction a as [|d a IH]; [reflexivity|].
  simpl. destruct (a +:+ String c b) eqn:E; [|exact IH].
  destruct a; discriminate.
Qed.

Lemma trailingSeparator_nosep s : nosep s = true -> trailingSeparator s = false.
Proof.
  unfold nosep. induction s as [|c s IH]; [reflexivity|].
  simpl. intros [Hc Hs]%andb_prop. apply negb_true_iff in Hc.
  destruct s; [exact Hc|]. apply IH, Hs.
Qed.

Lemma join_snoc segs x :
  segs <> [] -> Js.join "/" (segs ++ [x]) = Js.join "/" segs +:+ String sep x.
Proof.
  induction segs as [|a [|b l] IH]; intros Hne; [congruence|reflexivity|].
  change (Js.join "/" ((a :: b :: l) ++ [x]))
    with (a +:+ String sep (Js.join "/" ((b :: l) ++ [x]))).
  rewrite IH by discriminate.
  change (Js.join "/" (a :: b :: l))
    with (a +:+ String sep (Js.join "/" (b :: l))).
  rewrite !append_assoc. reflexivity.
Qed.

Lemma join_nonempty segs :
  segs <> [] -> Forall (fun s => plain s = true) segs ->
  Js.join "/" segs <> "".
Proof.
  destruct segs as [|a [|b l]]; intros Hne Hall; [congruence| |].
  - inversion Hall; subst. simpl. destruct a; [discriminate|discriminate].
  - change (Js.join "/" (a :: b :: l))
      with (a +:+ String sep (Js.join "/" (b :: l))).
    destruct a; discriminate.
Qed.

Lemma normalize_rooted rest :
  trailingSeparator (String sep rest) = false ->
  normalize (String sep rest)
  = match normalizeString (String sep rest) false with
    | EmptyString => "/"
    | p => "/" +:+ p
    end.
Proof.
  intros H. unfold normalize.
  change (isAbsolute (String sep rest)) with true. cbn [negb].
  rewrite H. destruct (normalizeString (String sep rest) false); reflexivity.
Qed.

(** The normal form of the segments of an absolute path, followed by
    more segments. *)
Lemma normalize_absolute segs more :
  Forall (fun s => plain s = true) segs ->
  more <> "" -> trailingSeparator more = false ->
  normalize (absolute segs +:+ String sep more)
  = match Js.join "/" (rev (resolve false (rev segs) (Js.split sep more))) with
    | EmptyString => "/"
    | p => "/" +:+ p
    end.
Proof.
  intros Hall Hm Ht.
  change (absolute segs +:+ String sep more)
    with (String sep (Js.join "/" segs +:+ String sep more)).
  rewrite normalize_rooted.
  2:{ change (String sep (Js.join "/" segs +:+ String sep more))
        with (String sep (Js.join "/" segs) +:+ String sep more).
      rewrite trailingSeparator_app. destruct more; [congruence|exact Ht]. }
  unfold normalizeString.
  change (String sep (Js.join "/" segs +:+ String sep more))
    with ("" +:+ String sep (Js.join "/" segs +:+ String sep more)).
  rewrite split_sep_app, split_sep_app.
  destruct segs as [|s0 l]; [reflexivity|].
  assert (Hns : Forall (fun s => nosep s = true) (s0 :: l)).
  { eapply Forall_impl; [exact Hall|]. intros x Hx. apply plain_nosep, Hx. }
  rewrite (split_join (s0 :: l)) by (discriminate || exact Hns).
  change (Js.split sep "" ++ (s0 :: l) ++ Js.split sep more)
    with ("" :: (s0 :: l) ++ Js.split sep more).
  change (resolve false [] ("" :: (s0 :: l) ++ Js.split sep more))
    with (resolve false [] ((s0 :: l) ++ Js.split sep more)).
  rewrite resolve_app, (resolve_plain false (s0 :: l)), app_nil_r
    by exact Hall.
  reflexivity.
Qed.

Lemma plain_truthy s : plain s = true -> Js.truthy s = true.
Proof. destruct s; [discriminate|reflexivity]. Qed.

Lemma plain_no_trailing s : plain s = true -> trailingSeparator s = false.
Proof. intros H. apply trailingSeparator_nosep, plain_nosep, H. Qed.

Lemma plain_nonempty s : plain s = true -> s <> "".
Proof. destruct s; [discriminate|discriminate]. Qed.

Lemma absolute_snoc segs x :
  segs <> [] ->
  absolute (segs ++ [x]) = absolute segs +:+ String sep x.
Proof.
  intros H. unfold absolute. rewrite join_snoc by exact H. reflexivity.
Qed.

(** [path.join(dir, name)] of an absolute directory in normal form and a
    plain name is the directory, a separator and the name. *)
Lemma join_plain segs name :
  Forall (fun s => plain s = true) segs -> plain name = true ->
  join [absolute segs; name] = absolute (segs ++ [name]).
Proof.
  intros Hall Hn. unfold join.
  change (List.filter Js.truthy [absolute segs; name])
    with (absolute segs :: List.filter Js.truthy [name]).
  cbn [List.filter]. rewrite (plain_truthy name Hn).
  change (Js.join "/" [absolute segs; name])
    with (absolute segs +:+ String sep name).
  rewrite normalize_absolute
    by (first [exact Hall | apply plain_nonempty, Hn
              | apply plain_no_trailing, Hn]).
  rewrite split_nosep by (apply plain_nosep, Hn).
  rewrite plain_resolve by exact Hn. cbn [resolve rev].
  rewrite rev_involutive.
  unfold absolute.
  destruct (Js.join "/" (segs ++ [name])) eqn:E; [|reflexivity].
  exfalso. revert E. apply join_nonempty.
  - destruct segs; discriminate.
  - apply Forall_app. split; [exact Hall|]. repeat constructor. exact Hn.
Qed.

End PathFacts.

(** [path.join] on some paths. *)
Example join_examples :
  Path.join ["/base"; "proj"] = "/base/proj"
  /\ Path.join ["/base/"; "proj"] = "/base/proj"
  /\ Path.join ["/base/proj"; "../proj2"] = "/base/proj2"
  /\ Path.join ["/base/proj"; "../../etc"] = "/etc"
  /\ Path.join ["/base/proj"; ""] = "/base/proj"
  /\ Path.join ["/base/proj"; "a/./b/../c/"] = "/base/proj/a/c/"
  /\ Path.join ["a"; "../../b"] = "../b"
  /\ Path.join [""; ""] = "."
  /\ Path.join ["/"; ".."] = "/"
  /\ Path.join ["a/../"] = "./"
  /\ Path.join ["/a//b"; "/c"] = "/a/b/c".
Proof. repeat split. Qed.


(** ** The command line as the shell reads it *)

Section ShellLineFacts.
Import ShellLine.

Lemma bare_char_step c cur s :
  negb (Shell.is_special c || Ascii.eqb c "'" || Ascii.eqb c "\") = true ->
  scan false cur (String c s) = scan false (push cur c) s.
Proof.
  destruct c as [[] [] [] [] [] [] [] []]; intros H;
    first [discriminate H | reflexivity].
Qed.

Lemma bare_chars_read w : forall cur rest,
  forallb (fun c => negb (Shell.is_special c || Ascii.eqb c "'"
                          || Ascii.eqb c "\"))
    (list_ascii_of_string w) = true ->
  scan false cur (w +:+ rest)
  = scan false (match w with
                | EmptyString => cur
                | _ => Some (default EmptyString cur +:+ w)
                end) rest.
Proof.
  induction w as [|c w IH]; intros cur rest H; [reflexivity|].
  simpl in H. apply andb_prop in H as [Hc Hw].
  change (String c w +:+ rest) with (String c (w +:+ rest)).
  rewrite bare_char_step, IH by assumption.
  unfold push. destruct w; simpl; rewrite ?append_assoc; reflexivity.
Qed.

Lemma bare_reads w : bare w = true -> reads w w.
Proof.
  unfold bare. intros [Hne Hw]%andb_prop cur rest.
  rewrite bare_chars_read by exact Hw.
  destruct w; [discriminate|reflexivity].
Qed.

(** Inside a quotation, the escaped text gives the text. *)
Lemma quoted_chars_read p : forall acc rest,
  scan true (Some acc)
    (Js.replaceAllChar "'"%char "'\''" p +:+ String "'" rest)
  = scan false (Some (acc +:+ p)) rest.
Proof.
  induction p as [|c p IH]; intros acc rest.
  - simpl. rewrite append_empty_r. reflexivity.
  - simpl Js.replaceAllChar. destruct (Ascii.eqb c "'") eqn:Hc.
    + apply Ascii.eqb_eq in Hc. subst c.
      transitivity (scan true (Some (acc +:+ String "'" EmptyString))
                      (Js.replaceAllChar "'" "'\''" p +:+ String "'" rest));
        [reflexivity|].
      rewrite IH, append_assoc. reflexivity.
    + transitivity (scan true (Some (acc +:+ String c EmptyString))
                      (Js.replaceAllChar "'" "'\''" p +:+ String "'" rest)).
      * cbn [String.append scan]. rewrite Hc. reflexivity.
      * rewrite IH, append_assoc. reflexivity.
Qed.

Lemma quoted_reads p : reads (Shell.escapeShellString p) p.
Proof.
  intros cur rest. unfold Shell.escapeShellString.
  change (("'" +:+ Js.replaceAllChar "'" "'\''" p +:+ "'") +:+ rest)
    with (String "'" ((Js.replaceAllChar "'" "'\''" p +:+ "'") +:+ rest)).
  rewrite append_assoc.
  change ("'" +:+ rest) with (String "'" rest).
  cbn [scan]. change (Ascii.eqb "'" "'") with true. cbv iota.
  apply quoted_chars_read.
Qed.

(** The texts of words, joined by single spaces, are read as the words. *)
Lemma words_read texts : forall values,
  Forall2 reads texts values -> texts <> [] ->
  scan false None (Js.join " " texts) = Some (List.map Word values)
  /\ forall more,
       scan false None (Js.join " " texts +:+ String " " more)
       = app (List.map Word values) <$> scan false None more.
Proof.
  induction texts as [|t [|u l] IH]; intros values H Hne; [congruence| |].
  - inversion H as [|? v ? vs Ht Hl]; subst. inversion Hl; subst.
    split.
    + simpl Js.join. rewrite <- (append_empty_r t), Ht. reflexivity.
    + intros more. simpl Js.join. rewrite Ht. reflexivity.
  - inversion H as [|? v ? vs Ht Hl]; subst.
    destruct (IH vs Hl ltac:(discriminate)) as [IH1 IH2].
    change (Js.join " " (t :: u :: l))
      with (t +:+ String " " (Js.join " " (u :: l))).
    split.
    + rewrite Ht.
      change (scan false (Some (default "" None +:+ v))
                (String " " (Js.join " " (u :: l))))
        with (app [Word v] <$> scan false None (Js.join " " (u :: l))).
      rewrite IH1. reflexivity.
    + intros more. rewrite append_assoc, Ht.
      change (String " " (Js.join " " (u :: l)) +:+ String " " more)
        with (String " " (Js.join " " (u :: l) +:+ String " " more)).
      change (scan false (Some (default "" None +:+ v)) (String " " ?x))
        with (app [Word v] <$> scan false None x).
      rewrite IH2. destruct (scan false None more); reflexivity.
Qed.

End ShellLineFacts.


Section CommandLines.
Import ShellLine.

Lemma truthy_bare_reads (s : string) :
  Js.truthy s = false \/ bare s = true -> Js.truthy s = true -> reads s s.
Proof.
  intros [H|H] Ht; [congruence|]. by apply bare_reads.
Qed.

(** The head of the Claude command line: [cd workingDir &&]. *)
Lemma cd_prefix_read (dirs : list string) (rest : string) :
  Forall (fun d => bare d = true) dirs -> dirs <> [] ->
  scan false None
    (("cd " +:+ Js.join " " dirs) +:+ String " " (String "&" (String "&"
       (String " " rest))))
  = (fun l => Word "cd" :: List.map Word dirs ++ AndIf :: l)
      <$> scan false None rest.
Proof.
  intros Hd Hne.
  change (("cd " +:+ Js.join " " dirs) +:+ ?t)
    with (String "c" (String "d" (String " " (Js.join " " dirs +:+ t)))).
  change (scan false None (String "c" (String "d" (String " " ?t))))
    with (app [Word "cd"] <$> scan false None t).
  assert (Hr : Forall2 reads dirs dirs).
  { clear Hne. induction Hd; constructor; [by apply bare_reads|assumption]. }
  destruct (words_read dirs dirs Hr Hne) as [_ ->].
  change (scan false None (String "&" (String "&" (String " " rest))))
    with ((fun l => [] ++ AndIf :: l) <$> (app [] <$> scan false None rest)).
  destruct (scan false None rest); reflexivity.
Qed.

End CommandLines.

Ltac command_words :=
  repeat first
    [ apply List.Forall2_nil
    | apply List.Forall2_cons;
      [ first [ apply quoted_reads
              | apply bare_reads; first [assumption | reflexivity] ] | ] ].

(** [X4] The shell that runs the Codex command line sees the command [codex]
    with the prompt as its last argument, character for character, whatever
    the prompt contains; the session id, when there is one, takes the place
    of [-C workingDir] and the words [exec resume] that of [exec].  The
    working directory and the session id are not quoted by the code: the
    statement is for those that need no quoting. *)
Theorem codex_command_line_words
    (workingDir prompt : string) (sessionId : option string)
    (Hdir : ShellLine.bare workingDir = true)
    (Hsid : forall sid, sessionId = Some sid ->
              Js.truthy sid = false \/ ShellLine.bare sid = true) :
  ShellLine.tokens (Shell.buildCodexCommand workingDir prompt sessionId)
  = Some (List.map ShellLine.Word
            (match sessionId with
             | Some (String c sid) =>
                 ["codex"; "exec"; "resume"; "--json";
                  "--dangerously-bypass-approvals-and-sandbox";
                  String c sid; prompt]
             | _ =>
                 ["codex"; "exec"; "--json";
                  "--dangerously-bypass-approvals-and-sandbox";
                  "-C"; workingDir; prompt]
             end)).
Proof.
  unfold ShellLine.tokens, Shell.buildCodexCommand, Shell.codexCommandParts.
  destruct sessionId as [[|c sid]|]; cbn [Js.truthy];
    try (destruct (Hsid _ eq_refl) as [H|H]; [discriminate H|]);
    (eapply words_read; [|discriminate]); command_words.
Qed.

Lemma codex_command_line_words_witness :
  ShellLine.tokens
    (Shell.buildCodexCommand "/srv/projects/general" "it's $HOME; rm -rf *"
       (Some "019a-7c"))
  = Some (List.map ShellLine.Word
            ["codex"; "exec"; "resume"; "--json";
             "--dangerously-bypass-approvals-and-sandbox";
             "019a-7c"; "it's $HOME; rm -rf *"]).
Proof.
  apply (codex_command_line_words "/srv/projects/general"
           "it's $HOME; rm -rf *" (Some "019a-7c")).
  - reflexivity.
  - intros sid [= <-]. right. reflexivity.
Defined.

(** [X5] The shell that runs the Claude command line sees two commands joined
    by [&&]: [cd workingDir], and [claude] with [--resume sessionId] first
    when there is a session id, the model after [--model], the prompt after
    [-p] character for character whatever it contains, and the flags of the
    permission mode last.  The working directory, the model, the session id
    and the path of the configuration file are not quoted by the code: the
    statement is for those that need no quoting. *)
Theorem claude_command_line_words
    (workingDir prompt : string) (sessionId : option string)
    (sessionMcpConfigPath : string) (mode : Shell.PermissionMode)
    (model : string)
    (Hdir : ShellLine.bare workingDir = true)
    (Hmodel : ShellLine.bare model = true)
    (Hmcp : ShellLine.bare sessionMcpConfigPath = true)
    (Hsid : forall sid, sessionId = Some sid ->
              Js.truthy sid = false \/ ShellLine.bare sid = true) :
  ShellLine.tokens
    (Shell.buildClaudeCommand workingDir prompt sessionId
       sessionMcpConfigPath mode model)
  = Some
      (ShellLine.Word "cd" :: ShellLine.Word workingDir :: ShellLine.AndIf
       :: List.map ShellLine.Word
            ("claude"
             :: (match sessionId with
                 | Some (String c sid) => ["--resume"; String c sid]
                 | _ => []
                 end
                 ++ ["--output-format"; "stream-json"; "--model"; model;
                     "-p"; prompt; "--verbose"]
                 ++ match mode with
                    | Shell.plan =>
                        ["--permission-mode"; "plan";
                         "--mcp-config"; sessionMcpConfigPath;
                         "--permission-prompt-tool";
                         "mcp__discord-permissions__approve_tool";
                         "--allowedTools"; "mcp__discord-permissions"]
                    | Shell.approve =>
                        ["--mcp-config"; sessionMcpConfigPath;
                         "--permission-prompt-tool";
                         "mcp__discord-permissions__approve_tool";
                         "--allowedTools"; "mcp__discord-permissions"]
                    | Shell.auto => ["--dangerously-skip-permissions"]
                    end)%list)).
Proof.
  assert (Hcd : Forall (fun d => ShellLine.bare d = true) [workingDir])
    by (constructor; [exact Hdir|constructor]).
  unfold ShellLine.tokens, Shell.buildClaudeCommand, Shell.claudeCommandParts.
  destruct sessionId as [[|c sid]|]; cbn [Js.truthy];
    try (destruct (Hsid _ eq_refl) as [H|H]; [discriminate H|]);
    destruct mode; cbn [app Shell.splice3 firstn skipn];
    match goal with
    | |- ShellLine.scan false None
           (Js.join " " (?cd :: "&&" :: ?args)) = _ =>
        change (Js.join " " (cd :: "&&" :: args))
          with (("cd " +:+ Js.join " " [workingDir])
                +:+ String " " (String "&" (String "&"
                      (String " " (Js.join " " args)))))
    end;
    rewrite (cd_prefix_read [workingDir] _ Hcd) by discriminate;
    match goal with
    | |- _ <$> ShellLine.scan false None (Js.join " " ?args) = _ =>
        pose proof (fun vs H =>
                      proj1 (words_read args vs H ltac:(discriminate))) as Hw
    end;
    (erewrite Hw; [|command_words]); reflexivity.
Qed.

Lemma claude_command_line_words_witness :
  ShellLine.tokens
    (Shell.buildClaudeCommand "/srv/projects/general" "it's $HOME; rm -rf *"
       (Some "019a-7c") "/tmp/mcp-config-7.json" Shell.approve "sonnet")
  = Some
      (ShellLine.Word "cd" :: ShellLine.Word "/srv/projects/general"
       :: ShellLine.AndIf
       :: List.map ShellLine.Word
            ["claude"; "--resume"; "019a-7c"; "--output-format";
             "stream-json"; "--model"; "sonnet"; "-p";
             "it's $HOME; rm -rf *"; "--verbose";
             "--mcp-config"; "/tmp/mcp-config-7.json";
             "--permission-prompt-tool";
             "mcp__discord-permissions__approve_tool";
             "--allowedTools"; "mcp__discord-permissions"]).
Proof.
  apply (claude_command_line_words "/srv/projects/general"
           "it's $HOME; rm -rf *" (Some "019a-7c") "/tmp/mcp-config-7.json"
           Shell.approve "sonnet").
  - reflexivity.
  - reflexivity.
  - reflexivity.
  - intros sid [= <-]. right. reflexivity.
Defined.

(** [X6] The working directory is put into the command line as it is: one
    that consists of two words with a space between them reaches the shell
    as two words.  [codex] then gets the first word as its [-C] directory
    and the second as an argument before the prompt, and [cd] gets two
    arguments. *)
Theorem working_directory_is_not_quoted
    (dir1 dir2 prompt : string)
    (H1 : ShellLine.bare dir1 = true) (H2 : ShellLine.bare dir2 = true) :
  ShellLine.tokens
    (Shell.buildCodexCommand (dir1 +:+ " " +:+ dir2) prompt None)
  = Some (List.map ShellLine.Word
            ["codex"; "exec"; "--json";
             "--dangerously-bypass-approvals-and-sandbox";
             "-C"; dir1; dir2; prompt])
  /\ ShellLine.tokens
       (Shell.buildClaudeCommand (dir1 +:+ " " +:+ dir2) prompt None
          "" Shell.auto "sonnet")
     = Some
         (ShellLine.Word "cd" :: ShellLine.Word dir1 :: ShellLine.Word dir2
          :: ShellLine.AndIf
          :: List.map ShellLine.Word
               ["claude"; "--output-format"; "stream-json"; "--model";
                "sonnet"; "-p"; prompt; "--verbose";
                "--dangerously-skip-permissions"]).
Proof.
  assert (Hcd : Forall (fun d => ShellLine.bare d = true) [dir1; dir2])
    by (repeat constructor; assumption).
  unfold ShellLine.tokens, Shell.buildCodexCommand, Shell.codexCommandParts,
    Shell.buildClaudeCommand, Shell.claudeCommandParts.
  split.
  - replace (Js.join " "
               ["codex"; "exec"; "--json";
                "--dangerously-bypass-approvals-and-sandbox"; "-C";
                dir1 +:+ " " +:+ dir2; Shell.escapeShellString prompt])
      with (Js.join " "
              ["codex"; "exec"; "--json";
               "--dangerously-bypass-approvals-and-sandbox"; "-C";
               dir1; dir2; Shell.escapeShellString prompt])
      by (cbn [Js.join]; rewrite !append_assoc; reflexivity).
    (eapply words_read; [|discriminate]); command_words.
  - cbn [app].
    match goal with
    | |- ShellLine.scan false None
           (Js.join " " (?cd :: "&&" :: ?args)) = _ =>
        change (Js.join " " (cd :: "&&" :: args))
          with (("cd " +:+ Js.join " " [dir1; dir2])
                +:+ String " " (String "&" (String "&"
                      (String " " (Js.join " " args)))));
        pose proof (fun vs H =>
                      proj1 (words_read args vs H ltac:(discriminate))) as Hw
    end.
    rewrite (cd_prefix_read [dir1; dir2] _ Hcd) by discriminate.
    (erewrite Hw; [|command_words]); reflexivity.
Qed.

Lemma working_directory_is_not_quoted_witness :
  ShellLine.tokens
    (Shell.buildCodexCommand "/srv/my projects" "hello" None)
  = Some (List.map ShellLine.Word
            ["codex"; "exec"; "--json";
             "--dangerously-bypass-approvals-and-sandbox";
             "-C"; "/srv/my"; "projects"; "hello"]).
Proof.
  apply (working_directory_is_not_quoted "/srv/my" "projects" "hello");
    reflexivity.
Defined.
(** ** Slash commands and the paths they read *)

Section GuardFacts.
Import Path.

Lemma startsWith_app p r : Text.startsWith p (p +:+ r) = true.
Proof.
  induction p as [|c p IH]; [reflexivity|].
  simpl. rewrite Ascii.eqb_refl. exact IH.
Qed.

Lemma startsWith_app_same a b c :
  Text.startsWith (a +:+ b) (a +:+ c) = Text.startsWith b c.
Proof.
  induction a as [|x a IH]; [reflexivity|].
  simpl. rewrite Ascii.eqb_refl. exact IH.
Qed.

Lemma startsWith_length p s :
  Text.startsWith p s = true -> String.length p <= String.length s.
Proof.
  revert s. induction p as [|c p IH]; intros s H; [simpl; lia|].
  destruct s as [|d s]; [discriminate|].
  simpl in H. apply andb_prop in H as [_ H]. apply IH in H. simpl. lia.
Qed.

Lemma join_app (a b : list string) :
  a <> [] -> b <> [] ->
  Js.join "/" (a ++ b) = Js.join "/" a +:+ String sep (Js.join "/" b).
Proof.
  induction a as [|x [|y l] IH]; intros Ha Hb; [congruence| |].
  - destruct b; [congruence|reflexivity].
  - change (Js.join "/" ((x :: y :: l) ++ b))
      with (x +:+ String sep (Js.join "/" ((y :: l) ++ b))).
    rewrite IH by (discriminate || exact Hb).
    change (Js.join "/" (x :: y :: l))
      with (x +:+ String sep (Js.join "/" (y :: l))).
    rewrite !append_assoc. reflexivity.
Qed.

Lemma join_last_app (l : list string) (x y : string) :
  Js.join "/" (l ++ [x +:+ y]) = Js.join "/" (l ++ [x]) +:+ y.
Proof.
  destruct l as [|a l]; [reflexivity|].
  rewrite !(join_app (a :: l)) by discriminate.
  simpl Js.join. rewrite append_assoc. reflexivity.
Qed.

Lemma resolve_dotdots k : forall stack,
  Forall (fun s => plain s = true) stack ->
  resolve false stack (repeat ".." k) = skipn k stack.
Proof.
  induction k as [|k IH]; intros stack H; [reflexivity|].
  destruct stack as [|top below]; simpl.
  - rewrite IH by constructor. destruct k; reflexivity.
  - inversion H as [|? ? Ht Hb]; subst.
    replace (String.eqb top "..") with false; [apply IH, Hb|].
    symmetry. unfold plain in Ht.
    apply andb_prop in Ht as [Ht _]. apply andb_prop in Ht as [_ Ht].
    apply negb_true_iff, Ht.
Qed.

(** [path.join(dir, rel)] for an absolute directory in normal form. *)
Lemma join_resolve segs rel :
  Forall (fun s => plain s = true) segs ->
  rel <> "" -> trailingSeparator rel = false ->
  join [absolute segs; rel]
  = absolute (rev (resolve false (rev segs) (Js.split sep rel))).
Proof.
  intros Hall Hne Ht. unfold join.
  change (List.filter Js.truthy [absolute segs; rel])
    with (absolute segs :: List.filter Js.truthy [rel]).
  cbn [List.filter]. destruct rel as [|c rel]; [congruence|].
  cbn [Js.truthy].
  change (Js.join "/" [absolute segs; String c rel])
    with (absolute segs +:+ String sep (String c rel)).
  rewrite normalize_absolute by assumption.
  unfold absolute.
  destruct (Js.join "/" _); reflexivity.
Qed.

Lemma join_trailing (l : list string) :
  l <> [] -> Forall (fun s => nosep s = true /\ s <> "") l ->
  trailingSeparator (Js.join "/" l) = false.
Proof.
  induction l as [|x [|y l] IH]; intros Hne H; [congruence| |].
  - inversion H as [|? ? [Hx _] _]; subst. by apply trailingSeparator_nosep.
  - inversion H as [|? ? Hx Hl]; subst.
    change (Js.join "/" (x :: y :: l))
      with (x +:+ String sep (Js.join "/" (y :: l))).
    rewrite trailingSeparator_app.
    specialize (IH ltac:(discriminate) Hl).
    assert (Hj : Js.join "/" (y :: l) <> "").
    { inversion Hl as [|? ? [_ Hy] _]; subst.
      destruct l; [exact Hy|].
      change (Js.join "/" (y :: s :: l))
        with (y +:+ String sep (Js.join "/" (s :: l))).
      destruct y; discriminate. }
    destruct (Js.join "/" (y :: l)); [congruence|exact IH].
Qed.

Lemma plain_segments (l : list string) :
  Forall (fun s => plain s = true) l ->
  Forall (fun s => nosep s = true /\ s <> "") l.
Proof.
  intros H. eapply List.Forall_impl; [|exact H].
  intros s Hs. split; [by apply plain_nosep|by apply plain_nonempty].
Qed.

Lemma normalize_normal segs :
  segs <> [] -> Forall (fun s => plain s = true) segs ->
  normalize (absolute segs) = absolute segs.
Proof.
  intros Hne Hall. unfold absolute.
  change ("/" +:+ Js.join "/" segs) with (String sep (Js.join "/" segs)).
  pose proof (join_nonempty segs Hne Hall) as Hj.
  rewrite normalize_rooted.
  - unfold normalizeString.
    change (String sep (Js.join "/" segs))
      with ("" +:+ String sep (Js.join "/" segs)).
    rewrite split_sep_app, split_join
      by (assumption || (eapply List.Forall_impl; [|exact Hall];
                         intros ?; apply plain_nosep)).
    change (resolve false [] (Js.split sep "" ++ segs))
      with (resolve false [] segs).
    rewrite resolve_plain, app_nil_r, rev_involutive by exact Hall.
    destruct (Js.join "/" segs); [congruence|reflexivity].
  - change (String sep (Js.join "/" segs))
      with ("" +:+ String sep (Js.join "/" segs)).
    rewrite trailingSeparator_app.
    pose proof (join_trailing segs Hne (plain_segments _ Hall)) as Ht.
    destruct (Js.join "/" segs); [congruence|exact Ht].
Qed.

Lemma join_nothing segs :
  segs <> [] -> Forall (fun s => plain s = true) segs ->
  join [absolute segs; ""] = absolute segs.
Proof. intros Hne Hall. apply (normalize_normal segs Hne Hall). Qed.

Lemma join_below segs rel :
  Forall (fun s => plain s = true) segs ->
  Forall (fun s => plain s = true) rel -> rel <> [] ->
  join [absolute segs; Js.join "/" rel] = absolute (segs ++ rel).
Proof.
  intros Hs Hr Hne.
  rewrite join_resolve;
    [|exact Hs|by apply join_nonempty
     |by apply join_trailing, plain_segments].
  rewrite split_join
    by (assumption || (eapply List.Forall_impl; [|exact Hr];
                       intros ?; apply plain_nosep)).
  rewrite resolve_plain, rev_app_distr, !rev_involutive by exact Hr.
  reflexivity.
Qed.

Lemma dotdots_segments k :
  Forall (fun s => nosep s = true /\ s <> "") (repeat ".." k).
Proof. induction k; constructor; [split; [reflexivity|discriminate]|assumption]. Qed.

Lemma join_above segs k :
  Forall (fun s => plain s = true) segs -> 1 <= k ->
  join [absolute segs; Js.join "/" (repeat ".." k)]
  = absolute (firstn (length segs - k) segs).
Proof.
  intros Hs Hk.
  assert (Hne : repeat ".." k <> []) by (destruct k; [lia|discriminate]).
  pose proof (dotdots_segments k) as Hd.
  rewrite join_resolve; [|exact Hs| |by apply join_trailing].
  - rewrite split_join
      by (assumption || (eapply List.Forall_impl; [|exact Hd];
                         intros ? [? _]; assumption)).
    rewrite resolve_dotdots by (apply List.Forall_rev, Hs).
    rewrite skipn_rev, rev_involutive. reflexivity.
  - destruct k as [|[|k]]; [lia|discriminate|discriminate].
Qed.

Lemma join_sibling segs name x :
  Forall (fun s => plain s = true) segs ->
  plain name = true -> plain x = true ->
  join [absolute (segs ++ [name]); "../" +:+ x] = absolute (segs ++ [x]).
Proof.
  intros Hs Hn Hx.
  assert (Hall : Forall (fun s => plain s = true) (segs ++ [name]))
    by (apply List.Forall_app; split; [exact Hs|by constructor]).
  rewrite join_resolve; [|exact Hall|discriminate|].
  - change ("../" +:+ x) with (".." +:+ String sep x).
    rewrite split_sep_app, (split_nosep x) by (by apply plain_nosep).
    rewrite rev_app_distr.
    change (resolve false (rev [name] ++ rev segs) (Js.split sep ".." ++ [x]))
      with (resolve false (name :: rev segs) [".."; x]).
    assert (Hdd : String.eqb name ".." = false).
    { unfold plain in Hn. apply andb_prop in Hn as [Hn _].
      apply andb_prop in Hn as [_ Hn]. apply negb_true_iff, Hn. }
    change (resolve false (name :: rev segs) [".."; x])
      with (if String.eqb name ".."
            then resolve false (name :: rev segs) [x]
            else resolve false (rev segs) [x]).
    rewrite Hdd, (plain_resolve false x) by exact Hx.
    cbn [resolve rev]. rewrite rev_involutive. reflexivity.
  - change ("../" +:+ x) with (".." +:+ String sep x).
    rewrite trailingSeparator_app.
    pose proof (plain_no_trailing x Hx). pose proof (plain_nonempty x Hx).
    destruct x; [congruence|assumption].
Qed.

Lemma absolute_shorter (l : list string) m :
  Forall (fun s => plain s = true) l -> m < length l ->
  String.length (absolute (firstn m l)) < String.length (absolute l).
Proof.
  intros Hl Hm. unfold absolute.
  rewrite <- (firstn_skipn m l) at 2.
  assert (Hb : skipn m l <> []).
  { intros E. apply (f_equal (@length _)) in E.
    rewrite length_skipn in E. simpl in E. lia. }
  assert (Hjb : Js.join "/" (skipn m l) <> "").
  { apply join_nonempty; [exact Hb|].
    rewrite <- (firstn_skipn m l) in Hl.
    apply List.Forall_app in Hl as [_ Hl]. exact Hl. }
  destruct (firstn m l) as [|a f] eqn:Ef.
  - simpl app. destruct (Js.join "/" (skipn m l)); [congruence|].
    simpl. lia.
  - rewrite join_app by (discriminate || exact Hb).
    rewrite !length_append. simpl. lia.
Qed.

Lemma plain_iff s :
  plain s = true
  <-> s <> "" /\ s <> "." /\ s <> ".." /\ nosep s = true.
Proof.
  unfold plain. rewrite !andb_true_iff, !negb_true_iff, !String.eqb_neq.
  tauto.
Qed.

Lemma nosep_app a b : nosep (a +:+ b) = nosep a && nosep b.
Proof.
  unfold nosep. induction a as [|c a IH]; [reflexivity|].
  simpl. rewrite IH, andb_assoc. reflexivity.
Qed.

Lemma plain_app name suffix :
  plain name = true -> nosep suffix = true -> plain (name +:+ suffix) = true.
Proof.
  rewrite !plain_iff. intros (H0 & H1 & H2 & Hn) Hs.
  rewrite nosep_app, Hn, Hs.
  destruct name as [|a [|b [|c name]]]; [congruence| | |];
    destruct suffix as [|d [|e suffix]];
    repeat split; try discriminate; try assumption; try reflexivity;
    simpl; congruence.
Qed.

Lemma nosep_not_rooted s :
  nosep s = true -> Text.startsWith "/" s = false.
Proof.
  destruct s as [|d s]; [reflexivity|].
  unfold nosep. simpl. intros [Hd _]%andb_prop.
  destruct d as [[] [] [] [] [] [] [] []]; try reflexivity; discriminate.
Qed.

End GuardFacts.

(** Running a command: unfold the monad and the primitive steps. *)
Ltac run_command :=
  unfold Manager.done_by, Manager.exec, Manager.eval, Manager.skip,
    Manager.emit, Manager.modify, Manager.gets, Manager.send, Manager.edit;
  unfold mbind, Manager.M_bind, mret, Manager.M_ret.

Section FsFacts.
Import Path.

Lemma split_absolute segs :
  Forall (fun s => plain s = true) segs ->
  resolve false [] (Js.split sep (absolute segs)) = rev segs.
Proof.
  intros Hall. unfold absolute.
  change ("/" +:+ Js.join "/" segs)
    with ("" +:+ String sep (Js.join "/" segs)).
  rewrite split_sep_app.
  destruct segs as [|s0 l]; [reflexivity|].
  rewrite split_join
    by (discriminate || (eapply List.Forall_impl; [|exact Hall];
                         intros ?; apply plain_nosep)).
  change (resolve false [] (Js.split sep "" ++ s0 :: l))
    with (resolve false [] (s0 :: l)).
  rewrite resolve_plain, app_nil_r by exact Hall. reflexivity.
Qed.

(** A path in normal form names itself, whatever the working directory
    is. *)
Lemma canonical_normal cwd segs :
  Forall (fun s => plain s = true) segs ->
  Fs.canonical cwd (absolute segs) = absolute segs.
Proof.
  intros Hall. unfold Fs.canonical, Fs.locate.
  change (isAbsolute (absolute segs)) with true. cbv iota.
  rewrite split_absolute, rev_involutive by exact Hall. reflexivity.
Qed.

Lemma existsSync_directory s segs :
  Forall (fun s => plain s = true) segs ->
  absolute segs ∈ Manager.directories s ->
  Manager.existsSync s (absolute segs) = true.
Proof.
  intros Hall H. unfold Manager.existsSync, Fs.existsSync.
  rewrite canonical_normal by exact Hall.
  rewrite (bool_decide_eq_true_2 _ H), orb_true_r. reflexivity.
Qed.

Lemma isDirectory_directory s segs :
  Forall (fun s => plain s = true) segs ->
  absolute segs ∈ Manager.directories s ->
  Commands.isDirectory s (absolute segs) = true.
Proof.
  intros Hall H. unfold Commands.isDirectory.
  rewrite canonical_normal by exact Hall.
  rewrite (bool_decide_eq_true_2 _ H), orb_true_r. reflexivity.
Qed.

(** [path.join] never returns the empty path. *)
Lemma join_truthy args : Js.truthy (join args) = true.
Proof.
  unfold join. destruct (List.filter Js.truthy args) as [|a l];
    [reflexivity|].
  unfold normalize. destruct (Js.join "/" (a :: l)) as [|c r];
    [reflexivity|].
  destruct (normalizeString (String c r) _) as [|d q].
  - destruct (isAbsolute _); [reflexivity|].
    destruct (trailingSeparator _); reflexivity.
  - destruct (isAbsolute _); [reflexivity|].
    destruct (trailingSeparator _); reflexivity.
Qed.



End FsFacts.

Section CommandFacts.
Import Manager Commands.

(** The project folder of a channel without a custom path. *)
Lemma getProjectPath_channel base s i name :
  getPath s (channelId i) = None -> channel_name i = Some name ->
  Js.truthy name = true ->
  existsSync s (Path.join [base; name]) = true ->
  getProjectPath base s i = Some (Path.join [base; name]).
Proof.
  intros Hp Hn Ht Hd. unfold getProjectPath.
  rewrite Hp, Hn, Ht, Hd. reflexivity.
Qed.

End CommandFacts.

(** [X7] The check of [/ls] and [/cat] lets a path through that leaves the
    project folder: for a project folder [name], the relative path
    [../name] followed by any further characters names a folder beside the
    project folder whose name begins with [name]; it passes the check, and
    [/ls] lists that folder when it exists. *)
Theorem guard_admits_sibling_folder
    (segs : list string) (name suffix : string)
    (s : Manager.State) (i : Commands.Interaction)
    (allowedUserId : string) (mkdirError : option string)
    (Hsegs : Forall (fun seg => Path.plain seg = true) segs)
    (Hname : Path.plain name = true)
    (Hsuffix : suffix <> "") (Hnosep : Path.nosep suffix = true)
    (Huser : Commands.user_id i = allowedUserId)
    (Hcmd : Commands.command i
            = Some (Commands.Ls (Some ("../" +:+ name +:+ suffix))))
    (Hchannel : Commands.channel_name i = Some name)
    (Hcustom : Manager.getPath s (Commands.channelId i) = None)
    (Hproject : Path.absolute (segs ++ [name]) ∈ Manager.directories s)
    (Hsibling : Path.absolute (segs ++ [name +:+ suffix])
                ∈ Manager.directories s) :
  let projectPath := Path.absolute (segs ++ [name]) in
  let sibling := Path.absolute (segs ++ [name +:+ suffix]) in
  Commands.guarded projectPath ("../" +:+ name +:+ suffix) = Some sibling
  /\ sibling <> projectPath
  /\ Text.startsWith (projectPath +:+ "/") sibling = false
  /\ Manager.eval
       (Commands.handleInteraction allowedUserId (Path.absolute segs)
          mkdirError i) s
     = Some (Commands.Listing ("../" +:+ name +:+ suffix) sibling).
Proof.
  intros projectPath sibling.
  assert (Hx : Path.plain (name +:+ suffix) = true).
  { by apply plain_app. }
  assert (Hshape : sibling = projectPath +:+ suffix).
  { subst sibling projectPath. unfold Path.absolute.
    rewrite join_last_app, append_assoc. reflexivity. }
  assert (Hguard : Commands.guarded projectPath ("../" +:+ name +:+ suffix)
                   = Some sibling).
  { unfold Commands.guarded. subst projectPath.
    change ("../" +:+ name +:+ suffix) with ("../" +:+ (name +:+ suffix)).
    rewrite join_sibling by assumption. fold sibling.
    rewrite Hshape, startsWith_app. reflexivity. }
  split; [exact Hguard|]. split; [|split].
  - rewrite Hshape. intros E. apply (f_equal String.length) in E.
    rewrite length_append in E. destruct suffix; [congruence|simpl in E; lia].
  - rewrite Hshape, startsWith_app_same.
    by apply nosep_not_rooted.
  - unfold Commands.handleInteraction. rewrite Hcmd, Huser, String.eqb_refl.
    cbn [negb]. run_command. cbn [id].
    assert (Hp : Forall (fun seg => Path.plain seg = true) (segs ++ [name]))
      by (apply List.Forall_app; split; [exact Hsegs|by constructor]).
    assert (Hs : Forall (fun seg => Path.plain seg = true)
                   (segs ++ [name +:+ suffix]))
      by (apply List.Forall_app; split; [exact Hsegs|by constructor]).
    rewrite (getProjectPath_channel _ s i name Hcustom Hchannel)
      by (try (by apply plain_truthy); rewrite join_plain by assumption;
          by apply existsSync_directory).
    rewrite join_plain by assumption. fold projectPath.
    assert (Ht : Commands.or_else (Some ("../" +:+ name +:+ suffix)) ""
                 = "../" +:+ name +:+ suffix) by reflexivity.
    rewrite Ht, Hguard.
    subst sibling.
    rewrite existsSync_directory by assumption.
    cbn [negb]. rewrite isDirectory_directory by assumption. reflexivity.
Qed.

Lemma guard_admits_sibling_folder_witness :
  Manager.eval
    (Commands.handleInteraction "u" "/srv" None
       {| Commands.user_id := "u"; Commands.channelId := "c";
          Commands.channel_name := Some "app";
          Commands.command := Some (Commands.Ls (Some "../app-old")) |})
    (Manager.initial {["/srv/app"; "/srv/app-old"]})
  = Some (Commands.Listing "../app-old" "/srv/app-old").
Proof.
  refine (proj2 (proj2 (proj2
    (guard_admits_sibling_folder ["srv"] "app" "-old"
       (Manager.initial {["/srv/app"; "/srv/app-old"]})
       {| Commands.user_id := "u"; Commands.channelId := "c";
          Commands.channel_name := Some "app";
          Commands.command := Some (Commands.Ls (Some "../app-old")) |}
       "u" None _ _ _ _ _ _ _ _ _ _)))).
  - repeat constructor.
  - reflexivity.
  - discriminate.
  - reflexivity.
  - reflexivity.
  - reflexivity.
  - reflexivity.
  - reflexivity.
  - set_solver.
  - set_solver.
Defined.

(** [X8] What the check of [/ls] and [/cat] does keep out and let in: a
    relative path of plain names, none included, is let through and names
    the path below the project folder; a relative path of one or more [..]
    is refused. *)
Theorem guard_below_and_above
    (segs rel : list string) (k : nat)
    (Hsegs : Forall (fun seg => Path.plain seg = true) segs)
    (Hproject : segs <> [])
    (Hrel : Forall (fun seg => Path.plain seg = true) rel)
    (Hk : 1 <= k) :
  Commands.guarded (Path.absolute segs) (Js.join "/" rel)
  = Some (Path.absolute (segs ++ rel))
  /\ Commands.guarded (Path.absolute segs) (Js.join "/" (repeat ".." k))
     = None.
Proof.
  unfold Commands.guarded. split.
  - destruct rel as [|r rel].
    + rewrite app_nil_r. change (Js.join "/" []) with "".
      rewrite join_nothing by assumption.
      rewrite <- (append_empty_r (Path.absolute segs)) at 2.
      rewrite startsWith_app. reflexivity.
    + rewrite join_below by (assumption || discriminate).
      unfold Path.absolute.
      rewrite join_app by (assumption || discriminate).
      rewrite <- append_assoc, startsWith_app. reflexivity.
  - rewrite join_above by assumption.
    destruct (Text.startsWith _ _) eqn:E; [|reflexivity].
    apply startsWith_length in E.
    pose proof (absolute_shorter segs (length segs - k) Hsegs) as Hlt.
    assert (0 < length segs) by (destruct segs; [congruence|simpl; lia]).
    lia.
Qed.

Lemma guard_below_and_above_witness :
  Commands.guarded "/srv/app" "src/lib" = Some "/srv/app/src/lib"
  /\ Commands.guarded "/srv/app" "../.." = None.
Proof.
  apply (guard_below_and_above ["srv"; "app"] ["src"; "lib"] 2).
  - repeat constructor.
  - discriminate.
  - repeat constructor.
  - lia.
Defined.

(** [X9] [/stop] sends the signal and nothing else: the entry of the
    channel stays until the process closes, so a message that arrives in
    the channel in between is dropped.  The reply says that the process was
    stopped whenever the channel has an entry; the signal is sent only when
    the entry holds a process already. *)
Theorem stop_keeps_channel_busy
    (cfg : Bot.Config) (mkdirError : option string)
    (channelId : string) (channelName : option string) (bs : Bot.BotState) :
  let i := {| Commands.user_id := Bot.allowedUserId cfg;
              Commands.channelId := channelId;
              Commands.channel_name := channelName;
              Commands.command := Some Commands.Stop |} in
  let handler :=
    Commands.handleInteraction (Bot.allowedUserId cfg) (Bot.baseFolder cfg)
      mkdirError i in
  let bs' := Commands.step cfg bs (Commands.InteractionCreate mkdirError i) in
  Manager.eval handler (Bot.core bs)
  = Some (if Manager.hasActiveProcess (Bot.core bs) channelId
          then Commands.Stopped else Commands.NoActiveProcess)
  /\ Manager.done_by handler (Bot.core bs)
     = Manager.kill_of (Bot.core bs) channelId
  /\ Manager.channelProcesses (Bot.core bs')
     = Manager.channelProcesses (Bot.core bs)
  /\ forall m,
       Bot.in_channel m = channelId ->
       Manager.hasActiveProcess (Bot.core bs) channelId = true ->
       Bot.handleMessage cfg m bs' = bs'.
Proof.
  intros i handler bs'.
  assert (Hexec : Manager.exec handler (Bot.core bs)
                  = Manager.upd_effects
                      (fun l => l ++ Manager.kill_of (Bot.core bs) channelId)
                      (Bot.core bs)).
  { subst handler. unfold Commands.handleInteraction. cbn [Commands.command i
      Commands.user_id Commands.channelId].
    rewrite String.eqb_refl. cbn [negb].
    rewrite exec_bind. change (Manager.exec (Manager.gets ?f) ?s) with s.
    change (Manager.eval (Manager.gets ?f) ?s) with (f s).
    unfold Manager.hasActiveProcess, Manager.kill_of, Manager.entry_process.
    destruct (Manager.channelProcesses (Bot.core bs) !! channelId)
      as [[[p|] sid msg]|] eqn:E; cbn.
    - rewrite exec_bind, killActiveProcess_exec.
      unfold Manager.kill_of, Manager.entry_process. rewrite E. reflexivity.
    - rewrite exec_bind, killActiveProcess_exec.
      unfold Manager.kill_of, Manager.entry_process. rewrite E. reflexivity.
    - unfold Manager.upd_effects. rewrite app_nil_r.
      destruct (Bot.core bs). reflexivity. }
  split; [|split; [|split]].
  - subst handler. unfold Commands.handleInteraction. cbn [Commands.command i
      Commands.user_id Commands.channelId].
    rewrite String.eqb_refl. cbn [negb]. run_command.
    destruct (Manager.hasActiveProcess (Bot.core bs) channelId);
      [destruct (Manager.killActiveProcess channelId (Bot.core bs))|];
      reflexivity.
  - apply done_by_app. rewrite Hexec. reflexivity.
  - subst bs'. cbn [Commands.step Bot.with_core Bot.core]. fold handler.
    rewrite Hexec. reflexivity.
  - intros m Hm Hbusy. apply busy_channel_message_dropped.
    rewrite Hm. subst bs'. cbn [Commands.step Bot.with_core Bot.core].
    fold handler. rewrite Hexec. exact Hbusy.
Qed.

(** [X10] [/setpath] compares the folder with [clear] in lower case: a
    folder whose name is [clear] in any mix of cases is never stored as the
    custom path of the channel, whether it exists or not; the custom path
    the channel had is removed instead. *)
Theorem setpath_clear_in_any_case
    (allowedUserId baseFolder folder : string)
    (mkdirError : option string) (i : Commands.Interaction)
    (s : Manager.State)
    (Huser : Commands.user_id i = allowedUserId)
    (Hcmd : Commands.command i = Some (Commands.Setpath folder))
    (Hclear : Commands.toLowerCase folder = "clear") :
  let handler :=
    Commands.handleInteraction allowedUserId baseFolder mkdirError i in
  Manager.eval handler s
  = Some (Commands.PathCleared
            (Commands.or_else (Commands.channel_name i) "unknown"))
  /\ Manager.getPath (Manager.exec handler s) (Commands.channelId i) = None
  /\ Manager.done_by handler s = [].
Proof.
  intros handler. subst handler. unfold Commands.handleInteraction.
  rewrite Hcmd, Huser, String.eqb_refl, Hclear. cbn [negb String.eqb].
  change (String.eqb "clear" "clear") with true. cbv iota.
  unfold Commands.clearPath. run_command. cbn.
  split; [reflexivity|]. split; [apply lookup_delete_eq|].
  apply drop_all.
Qed.

Lemma setpath_clear_in_any_case_witness :
  Manager.getPath
    (Manager.exec
       (Commands.handleInteraction "u" "/srv" None
          {| Commands.user_id := "u"; Commands.channelId := "c";
             Commands.channel_name := Some "app";
             Commands.command := Some (Commands.Setpath "Clear") |})
       (Manager.upd_channel_paths <["c" := "old"]>
          (Manager.initial {["/srv/Clear"]})))
    "c"
  = None.
Proof.
  refine (proj1 (proj2
    (setpath_clear_in_any_case "u" "/srv" "Clear" None
       {| Commands.user_id := "u"; Commands.channelId := "c";
          Commands.channel_name := Some "app";
          Commands.command := Some (Commands.Setpath "Clear") |}
       (Manager.upd_channel_paths <["c" := "old"]>
          (Manager.initial {["/srv/Clear"]})) _ _ _))); reflexivity.
Defined.

Section RunFacts.
Import Manager.

#[local] Arguments existsSync : simpl never.
#[local] Arguments path_join : simpl never.

(** What a run does, in one equation. *)
Lemma runClaudeCode_done base mcp channelId name prompt sid s :
  let workingDir :=
    path_join base (folder_name (getPath s channelId) name) in
  existsSync s workingDir = true ->
  done_by (runClaudeCode base mcp channelId name prompt sid) s
  = match getProvider s channelId with
    | claude =>
        [Spawn (next_pid s)
           (Shell.buildClaudeCommand workingDir prompt sid mcp
              (getMode s channelId) (model_name (getModel s channelId)));
         StdinEnd (next_pid s); SetTimeout (next_pid s) 300000%N]
    | codex =>
        [Spawn (next_pid s)
           (Shell.buildCodexCommand workingDir prompt sid);
         SetTimeout (next_pid s) 300000%N]
    end.
Proof.
  intros workingDir Hd. apply done_by_app.
  unfold runClaudeCode, runCodex, spawn, arm_timer. run_command. cbn.
  destruct (getProvider s channelId); cbn; fold workingDir;
    change (existsSync _ workingDir) with (existsSync s workingDir);
    rewrite Hd; cbn; rewrite <- !app_assoc; reflexivity.
Qed.

End RunFacts.

(** [X11] A folder set with [/setpath] is where the next run of the channel
    starts: when [path.join(base, folder)] exists, the folder is stored as
    it was given, and the command line of the next run has
    [path.join(base, folder)] as its working directory whatever the channel
    is called.  The folder is any text but the empty one and [clear]; it
    need not be a plain name. *)
Theorem setpath_directs_next_run
    (base folder allowedUserId mcp channelName prompt : string)
    (sid : option string) (mkdirError : option string)
    (i : Commands.Interaction) (s : Manager.State)
    (Hfolder : folder <> "")
    (Hnot : Commands.toLowerCase folder <> "clear")
    (Huser : Commands.user_id i = allowedUserId)
    (Hcmd : Commands.command i = Some (Commands.Setpath folder))
    (Hdir : Manager.existsSync s (Path.join [base; folder]) = true) :
  let workingDir := Path.join [base; folder] in
  let handler :=
    Commands.handleInteraction allowedUserId base mkdirError i in
  let s' := Manager.exec handler s in
  Manager.eval handler s = Some (Commands.PathSet workingDir)
  /\ Manager.getPath s' (Commands.channelId i) = Some folder
  /\ Manager.done_by
       (Manager.runClaudeCode base mcp (Commands.channelId i) channelName
          prompt sid) s'
     = match Manager.getProvider s (Commands.channelId i) with
       | Shell.claude =>
           [Manager.Spawn (Manager.next_pid s)
              (Shell.buildClaudeCommand workingDir prompt sid mcp
                 (Manager.getMode s (Commands.channelId i))
                 (Manager.model_name
                    (Manager.getModel s (Commands.channelId i))));
            Manager.StdinEnd (Manager.next_pid s);
            Manager.SetTimeout (Manager.next_pid s) 300000%N]
       | Shell.codex =>
           [Manager.Spawn (Manager.next_pid s)
              (Shell.buildCodexCommand workingDir prompt sid);
            Manager.SetTimeout (Manager.next_pid s) 300000%N]
       end.
Proof.
  intros workingDir handler s'.
  assert (Hrun : handler s
                 = (Some (Commands.PathSet workingDir),
                    Manager.upd_channel_paths
                      <[Commands.channelId i := folder]> s)).
  { subst handler. unfold Commands.handleInteraction.
    rewrite Hcmd, Huser, String.eqb_refl. cbn [negb].
    apply String.eqb_neq in Hnot. rewrite Hnot.
    unfold Commands.setPath. run_command.
    rewrite Hdir. reflexivity. }
  assert (Hs' : s' = Manager.upd_channel_paths
                       <[Commands.channelId i := folder]> s).
  { subst s'. unfold Manager.exec. rewrite Hrun. reflexivity. }
  split; [unfold Manager.eval; rewrite Hrun; reflexivity|].
  assert (Hpath : Manager.getPath s' (Commands.channelId i) = Some folder).
  { rewrite Hs'. apply lookup_insert_eq. }
  split; [exact Hpath|].
  assert (Hwd : Manager.path_join base
                  (Manager.folder_name
                     (Manager.getPath s' (Commands.channelId i)) channelName)
                = workingDir).
  { rewrite Hpath. unfold Manager.folder_name.
    destruct folder; [congruence|reflexivity]. }
  pose proof (runClaudeCode_done base mcp (Commands.channelId i) channelName
                prompt sid s') as Hdone.
  cbv zeta in Hdone. rewrite Hwd in Hdone.
  rewrite Hdone by (rewrite Hs'; exact Hdir).
  rewrite Hs'. reflexivity.
Qed.

Lemma setpath_directs_next_run_witness :
  Manager.done_by
    (Manager.runClaudeCode "/srv/" "/tmp/mcp.json" "c" "general" "hello" None)
    (Manager.exec
       (Commands.handleInteraction "u" "/srv/" None
          {| Commands.user_id := "u"; Commands.channelId := "c";
             Commands.channel_name := Some "general";
             Commands.command := Some (Commands.Setpath "./app") |})
       (Manager.initial {["/srv/app"]}))
  = [Manager.Spawn 1
       (Shell.buildClaudeCommand "/srv/app" "hello" None "/tmp/mcp.json"
          Shell.auto "sonnet");
     Manager.StdinEnd 1; Manager.SetTimeout 1 300000%N].
Proof.
  refine (proj2 (proj2
    (setpath_directs_next_run "/srv/" "./app" "u" "/tmp/mcp.json" "general"
       "hello" None None
       {| Commands.user_id := "u"; Commands.channelId := "c";
          Commands.channel_name := Some "general";
          Commands.command := Some (Commands.Setpath "./app") |}
       (Manager.initial {["/srv/app"]}) _ _ _ _ _))).
  - discriminate.
  - discriminate.
  - reflexivity.
  - reflexivity.
  - vm_compute. reflexivity.
Defined.

(** [X12] The mode and the model chosen with [/mode] and [/model] are the
    ones on the command line of the next Claude run of the channel, which
    starts in [path.join] of the base folder and the folder of the channel
    when that exists.  A Codex run is started by the same command line as
    before the two commands: it has no flag for either. *)
Theorem mode_and_model_reach_command_line
    (cfg : Bot.Config) (mkdirError : option string)
    (channelId channelName prompt : string) (name : option string)
    (sid : option string) (mode : Shell.PermissionMode)
    (model : Manager.ClaudeModel) (s : Manager.State)
    (Hdir : Manager.existsSync s
              (Path.join
                 [Bot.baseFolder cfg;
                  Manager.folder_name (Manager.getPath s channelId)
                    channelName])
            = true) :
  let command c :=
    Commands.handleInteraction (Bot.allowedUserId cfg) (Bot.baseFolder cfg)
      mkdirError
      {| Commands.user_id := Bot.allowedUserId cfg;
         Commands.channelId := channelId;
         Commands.channel_name := name;
         Commands.command := Some c |} in
  let s' :=
    Manager.exec (command (Commands.Model model))
      (Manager.exec (command (Commands.Mode mode)) s) in
  let run :=
    Manager.runClaudeCode (Bot.baseFolder cfg) (Bot.mcpConfigPath cfg)
      channelId channelName prompt sid in
  let workingDir :=
    Path.join
      [Bot.baseFolder cfg;
       Manager.folder_name (Manager.getPath s channelId) channelName] in
  Manager.done_by run s'
  = match Manager.getProvider s channelId with
    | Shell.claude =>
        [Manager.Spawn (Manager.next_pid s)
           (Shell.buildClaudeCommand workingDir prompt sid
              (Bot.mcpConfigPath cfg) mode (Manager.model_name model));
         Manager.StdinEnd (Manager.next_pid s);
         Manager.SetTimeout (Manager.next_pid s) 300000%N]
    | Shell.codex => Manager.done_by run s
    end.
Proof.
  intros command s' run workingDir.
  assert (Hs' : s' = Manager.upd_channel_models <[channelId := model]>
                       (Manager.upd_channel_modes <[channelId := mode]> s)).
  { subst s' command. unfold Commands.handleInteraction.
    cbn [Commands.command Commands.user_id Commands.channelId].
    rewrite String.eqb_refl. reflexivity. }
  set (s2 := Manager.upd_channel_models <[channelId := model]>
               (Manager.upd_channel_modes <[channelId := mode]> s)) in Hs'.
  assert (Hmode : Manager.getMode s2 channelId = mode).
  { unfold Manager.getMode, Manager.db_getMode. cbn.
    rewrite lookup_insert_eq. reflexivity. }
  assert (Hmodel : Manager.getModel s2 channelId = model).
  { unfold Manager.getModel, Manager.db_getModel. cbn.
    rewrite lookup_insert_eq. reflexivity. }
  assert (Hprov : Manager.getProvider s2 channelId
                  = Manager.getProvider s channelId) by reflexivity.
  pose proof (runClaudeCode_done (Bot.baseFolder cfg) (Bot.mcpConfigPath cfg)
                channelId channelName prompt sid s2 Hdir) as H2.
  pose proof (runClaudeCode_done (Bot.baseFolder cfg) (Bot.mcpConfigPath cfg)
                channelId channelName prompt sid s Hdir) as H1.
  subst run. rewrite Hs', H2, H1, Hmode, Hmodel, Hprov.
  destruct (Manager.getProvider s channelId); reflexivity.
Qed.

Lemma mode_and_model_reach_command_line_witness :
  let cfg := {| Bot.allowedUserId := "u"; Bot.baseFolder := "/srv/";
                Bot.mcpConfigPath := "/tmp/mcp.json" |} in
  let command c :=
    Commands.handleInteraction "u" "/srv/" None
      {| Commands.user_id := "u"; Commands.channelId := "c";
         Commands.channel_name := Some "app";
         Commands.command := Some c |} in
  Manager.done_by
    (Manager.runClaudeCode "/srv/" "/tmp/mcp.json" "c" "app" "hello" None)
    (Manager.exec (command (Commands.Model Manager.opus))
       (Manager.exec (command (Commands.Mode Shell.plan))
          (Manager.initial {["/srv/app"]})))
  = [Manager.Spawn 1
       (Shell.buildClaudeCommand "/srv/app" "hello" None "/tmp/mcp.json"
          Shell.plan "opus");
     Manager.StdinEnd 1; Manager.SetTimeout 1 300000%N].
Proof.
  intros cfg command.
  apply (mode_and_model_reach_command_line cfg None "c" "app" "hello"
           (Some "app") None Shell.plan Manager.opus
           (Manager.initial {["/srv/app"]})).
  vm_compute. reflexivity.
Defined.




(** ** Lines that are read but not handled as records *)

Section StreamFacts.
Import Json Stream.

Lemma skip_ws_start text :
  Js.trimStart (skip_ws text) = Js.trimStart text.
Proof.
  induction text as [|c text IH]; [reflexivity|].
  simpl. destruct (is_ws c) eqn:Hw.
  - rewrite IH.
    replace (Js.is_space c) with true; [reflexivity|].
    destruct c as [[] [] [] [] [] [] [] []]; try reflexivity; discriminate.
  - reflexivity.
Qed.

Lemma trimEnd_keeps c r :
  Js.is_space c = false -> Js.truthy (Js.trimEnd (String c r)) = true.
Proof.
  intros H. simpl. rewrite H. destruct (Js.trimEnd r); reflexivity.
Qed.

Lemma number_start c r t r' :
  parse_number (String c r) = Some (t, r') -> Js.is_space c = false.
Proof.
  destruct c as [[] [] [] [] [] [] [] []]; try reflexivity;
    intros H; exfalso; revert H; cbv; discriminate.
Qed.

(** A text that [JSON.parse] accepts is not blank. *)
Lemma parse_nonblank line v :
  parse line = Some v -> Framer.nonblank line = true.
Proof.
  unfold parse, Framer.nonblank, Js.trim.
  destruct (parse_value (S (String.length line)) line) as [[x r]|] eqn:E;
    [|discriminate].
  intros _. rewrite <- skip_ws_start.
  rewrite parse_value_S in E.
  destruct (skip_ws line) as [|c rest]; [discriminate|].
  assert (Hc : Js.is_space c = false).
  { destruct (Ascii.eqb c "{") eqn:E1;
      [apply Ascii.eqb_eq in E1; subst; reflexivity|].
    destruct (Ascii.eqb c "[") eqn:E2;
      [apply Ascii.eqb_eq in E2; subst; reflexivity|].
    destruct (Ascii.eqb c dq) eqn:E3;
      [apply Ascii.eqb_eq in E3; subst; reflexivity|].
    destruct (Ascii.eqb c "t") eqn:E4;
      [apply Ascii.eqb_eq in E4; subst; reflexivity|].
    destruct (Ascii.eqb c "f") eqn:E5;
      [apply Ascii.eqb_eq in E5; subst; reflexivity|].
    destruct (Ascii.eqb c "n") eqn:E6;
      [apply Ascii.eqb_eq in E6; subst; reflexivity|].
    destruct (parse_number (String c rest)) as [[t r']|] eqn:En;
      [|discriminate].
    eapply number_start, En. }
  simpl Js.trimStart. rewrite Hc. by apply trimEnd_keeps.
Qed.

Lemma setSession_events session line :
  ~ In (Malformed line) (fst (setSession session)).
Proof.
  destruct session as [|[]]; cbn; intros H;
    repeat (destruct H as [H|H]; [discriminate|]); exact H.
Qed.

(** What a dispatch does before it throws or ends is never the report of
    the [catch]. *)
Lemma dispatch_claude_events v line :
  ~ In (Malformed line) (fst (dispatch_claude v)).
Proof.
  unfold dispatch_claude.
  destruct (prop "type" (J v)) as [type|]; [|intros []].
  cbn [read mbind Exc_bind mret Exc_ret].
  destruct (is_string "assistant" type).
  { destruct (prop "message" (J v) ≫= prop "content") as [c|]; cbn;
      [destruct (truthy c); cbn|]; intros H;
      repeat (destruct H as [H|H]; [discriminate|]); exact H. }
  destruct (is_string "user" type).
  { destruct (prop "message" (J v) ≫= prop "content") as [c|]; cbn;
      [destruct (truthy c); cbn|]; intros H;
      repeat (destruct H as [H|H]; [discriminate|]); exact H. }
  destruct (is_string "result" type).
  { cbn. intros H. repeat (destruct H as [H|H]; [discriminate|]). exact H. }
  destruct (is_string "system" type).
  - destruct (prop "subtype" (J v)) as [subtype|]; [|intros []].
    cbn [read mbind Exc_bind mret Exc_ret call].
    pose proof (setSession_events (opt_prop "session_id" (J v)) line) as Hs.
    destruct (setSession (opt_prop "session_id" (J v))) as [es r].
    cbn [fst] in *. intros [H|H]; [discriminate|]. apply Hs.
    rewrite app_nil_l in H. exact H.
  - cbn. intros H. repeat (destruct H as [H|H]; [discriminate|]). exact H.
Qed.

Lemma toString_or_empty_events x line :
  ~ In (Malformed line) (fst (toString_or_empty x)).
Proof.
  unfold toString_or_empty, throw, mret, Exc_ret.
  destruct x as [|v]; [intros []|].
  destruct (truthy (J v) && negb (printable v)); intros [].
Qed.

Lemma then_call_events (m : Exc unit) e line :
  ~ In (Malformed line) (fst m) -> e <> Malformed line ->
  ~ In (Malformed line) (fst (m;; call e)).
Proof.
  unfold mbind, Exc_bind, call. destruct m as [es [t|[]]]; cbn [fst];
    [tauto|].
  intros Hm He H. apply in_app_or in H as [H|[H|[]]]; auto.
Qed.

Lemma dispatch_codex_events v line :
  ~ In (Malformed line) (fst (dispatch_codex v)).
Proof.
  unfold dispatch_codex.
  destruct (prop "type" (J v)) as [type|]; [|intros []].
  cbn [read]. unfold mbind at 1, Exc_bind at 1, mret, Exc_ret.
  match goal with
  | |- ~ In _ (fst (let '(es', r) := ?d in _)) =>
      assert (Hd : ~ In (Malformed line) (fst d));
      [|destruct d; exact Hd]
  end.
  destruct (is_string "thread.started" type
            && truthy (opt_prop "thread_id" (J v))).
  { apply then_call_events; [apply setSession_events|discriminate]. }
  destruct (is_string "item.started" type && _).
  { cbn. intros [H|[]]. discriminate H. }
  destruct (is_string "item.completed" type).
  { destruct (is_string "agent_message" _).
    - apply then_call_events; [apply toString_or_empty_events|discriminate].
    - repeat match goal with
             | |- context [if ?c then _ else _] => destruct c
             end; cbn; intros [H|[]]; discriminate H. }
  destruct (is_string "turn.completed" type);
    cbn; intros [H|[]]; discriminate H.
Qed.

(** The values that the store does not take as a session id. *)
Lemma setSession_throws session :
  (exists t, snd (setSession session) = inl t)
  <-> match session with
      | Undefined | J JNull | J (JArray _) | J (JObject _) => True
      | _ => False
      end.
Proof.
  destruct session as [|[]]; cbn; split; try tauto; eauto;
    intros [t H]; discriminate H.
Qed.

Lemma snd_bind_ret {A B} (a : A) (f : A -> Exc B) :
  snd (mret a ≫= f) = snd (f a).
Proof.
  unfold mbind, Exc_bind, mret, Exc_ret. destruct (f a). reflexivity.
Qed.

Lemma snd_call_then e (m : Exc unit) : snd (call e;; m) = snd m.
Proof. unfold mbind, Exc_bind, call. destruct m. reflexivity. Qed.

(** When the Claude branches throw: on [null], on an [assistant] or
    [user] record without a [message], and on a [system] record with a
    session id that the store does not take. *)
Lemma dispatch_claude_throws v :
  (exists t, snd (dispatch_claude v) = inl t)
  <-> v = JNull
      \/ exists ms,
           v = JObject ms
           /\ ((get_member "type" ms = Some (JString "assistant")
                \/ get_member "type" ms = Some (JString "user"))
               /\ (get_member "message" ms = None
                   \/ get_member "message" ms = Some JNull)
               \/ get_member "type" ms = Some (JString "system")
                  /\ match get_member "session_id" ms with
                     | None | Some JNull | Some (JArray _)
                     | Some (JObject _) => True
                     | _ => False
                     end).
Proof.
  destruct v as [| b | t | t | vs | ms].
  1: split; [by left|intros _; eexists; reflexivity].
  1-4: split; [intros [t' H]; discriminate H
              |intros [H|(ms & H & _)]; discriminate H].
  unfold dispatch_claude. cbn [prop read]. rewrite snd_bind_ret.
  assert (Hother : forall ty,
            get_member "type" ms = ty ->
            (forall s, ty = Some (JString s) ->
                       s <> "assistant" /\ s <> "user" /\ s <> "system") ->
            ~ (exists ms',
                 JObject ms = JObject ms'
                 /\ ((get_member "type" ms' = Some (JString "assistant")
                      \/ get_member "type" ms' = Some (JString "user"))
                     /\ (get_member "message" ms' = None
                         \/ get_member "message" ms' = Some JNull)
                     \/ get_member "type" ms' = Some (JString "system")
                        /\ match get_member "session_id" ms' with
                           | None | Some JNull | Some (JArray _)
                           | Some (JObject _) => True
                           | _ => False
                           end))).
  { intros ty Hty Hno (ms' & [= <-] & H). subst ty.
    destruct H as [[[H|H] _]|[H _]];
      destruct (Hno _ H) as (? & ? & ?); congruence. }
  destruct (get_member "type" ms) as [[| | |ty| |]|] eqn:Et;
    cbn [is_string];
    try (split; [intros [t' H]; discriminate H
                |intros [H|H]; [discriminate H|];
                 exfalso; revert H; eapply Hother; [reflexivity|];
                 intros s' [=]]).
  destruct (String.eqb_spec ty "assistant") as [->|Ha].
  { cbn [opt_prop prop mbind option_bind].
    destruct (get_member "message" ms) as [[]|] eqn:Em;
      cbn [prop mbind option_bind read Exc_bind mret Exc_ret];
      (split;
       [first [intros _; right; exists ms; split; [reflexivity|];
               left; split; [by left|tauto]
              |intros [t' H]; revert H;
               repeat match goal with
                      | |- context [truthy ?c] => destruct (truthy c)
                      end; discriminate]
       |first [intros _; eexists; reflexivity
              |intros [H|(ms' & [= <-] & [[_ [H|H]]|[H _]])];
               congruence]]). }
  destruct (String.eqb_spec ty "user") as [->|Hu].
  { cbn [opt_prop prop mbind option_bind].
    destruct (get_member "message" ms) as [[]|] eqn:Em;
      cbn [prop mbind option_bind read Exc_bind mret Exc_ret];
      (split;
       [first [intros _; right; exists ms; split; [reflexivity|];
               left; split; [by right|tauto]
              |intros [t' H]; revert H;
               repeat match goal with
                      | |- context [truthy ?c] => destruct (truthy c)
                      end; discriminate]
       |first [intros _; eexists; reflexivity
              |intros [H|(ms' & [= <-] & [[_ [H|H]]|[H _]])];
               congruence]]). }
  destruct (String.eqb_spec ty "result") as [->|Hr].
  { split; [intros [t' H]; discriminate H|].
    intros [H|H]; [discriminate H|]. exfalso. revert H.
    eapply Hother; [reflexivity|]. intros s' [= <-].
    repeat split; discriminate. }
  destruct (String.eqb_spec ty "system") as [->|Hs].
  - rewrite snd_bind_ret, snd_call_then, setSession_throws.
    unfold opt_prop. cbn [prop]. split.
    + intros H. right. exists ms. split; [reflexivity|]. right.
      split; [exact Et|].
      destruct (get_member "session_id" ms) as [[]|]; exact H.
    + intros [H|(ms' & [= <-] & [[[H|H] _]|[_ H]])]; try congruence.
      destruct (get_member "session_id" ms) as [[]|]; exact H.
  - split; [intros [t' H]; discriminate H|].
    intros [H|H]; [discriminate H|]. exfalso. revert H.
    eapply Hother; [reflexivity|]. intros s' [= <-]. auto.
Qed.

Lemma snd_then_call (m : Exc unit) e :
  (exists t, snd (m;; call e) = inl t) <-> exists t, snd m = inl t.
Proof.
  unfold mbind, Exc_bind, call. destruct m as [es [t|[]]]; cbn;
    split; intros [t' H]; try discriminate H; eauto.
Qed.

Lemma toString_or_empty_throws x :
  (exists t, snd (toString_or_empty x) = inl t)
  <-> match x with
      | J v => printable v = false
      | Undefined => False
      end.
Proof.
  destruct x as [|v]; cbn; [split; [intros [t H]; discriminate H|tauto]|].
  destruct (printable v) eqn:Ep.
  - rewrite andb_false_r. cbn.
    split; [intros [t H]; discriminate H|discriminate].
  - destruct v; try discriminate Ep; cbn; split; eauto.
Qed.

(** When the Codex branches throw: on [null], on a [thread.started]
    record whose thread id is an array or an object, and on the message
    of the agent when its text cannot be turned into a string. *)
Lemma dispatch_codex_throws v :
  (exists t, snd (dispatch_codex v) = inl t)
  <-> v = JNull
      \/ exists ms,
           v = JObject ms
           /\ (get_member "type" ms = Some (JString "thread.started")
               /\ match get_member "thread_id" ms with
                  | Some (JArray _) | Some (JObject _) => True
                  | _ => False
                  end
               \/ get_member "type" ms = Some (JString "item.completed")
                  /\ match get_member "item" ms with
                     | Some (JObject item) =>
                         get_member "type" item
                         = Some (JString "agent_message")
                         /\ match get_member "text" item with
                            | Some text => printable text = false
                            | None => False
                            end
                     | _ => False
                     end).
Proof.
  destruct v as [| b | t | t | vs | ms].
  1: split; [by left|intros _; eexists; reflexivity].
  1-4: split; [intros [t' H]; discriminate H
              |intros [H|(ms & H & _)]; discriminate H].
  unfold dispatch_codex. cbn [prop read]. rewrite snd_bind_ret.
  assert (Hnone : forall P : Prop,
            (forall s, get_member "type" ms = Some (JString s) ->
                       s <> "thread.started" /\ s <> "item.completed") ->
            (P <-> False) ->
            P
            <-> JObject ms = JNull
                \/ exists ms',
                     JObject ms = JObject ms'
                     /\ (get_member "type" ms'
                         = Some (JString "thread.started")
                         /\ match get_member "thread_id" ms' with
                            | Some (JArray _) | Some (JObject _) => True
                            | _ => False
                            end
                         \/ get_member "type" ms'
                            = Some (JString "item.completed")
                            /\ match get_member "item" ms' with
                               | Some (JObject item) =>
                                   get_member "type" item
                                   = Some (JString "agent_message")
                                   /\ match get_member "text" item with
                                      | Some text => printable text = false
                                      | None => False
                                      end
                               | _ => False
                               end)).
  { intros P Hno HP. rewrite HP. split; [tauto|].
    intros [H|(ms' & [= <-] & [[H _]|[H _]])]; [discriminate H| |];
      destruct (Hno _ H); congruence. }
  destruct (get_member "type" ms) as [[| | |ty| |]|] eqn:Et;
    cbn [is_string andb];
    try (apply Hnone; [intros s' [=]|];
         split; [intros [t' H]; discriminate H|tauto]).
  destruct (String.eqb_spec ty "thread.started") as [->|Hts].
  { cbn [andb]. unfold opt_prop. cbn [prop].
    destruct (get_member "thread_id" ms) as [tid|] eqn:Eid.
    - destruct (truthy (J tid)) eqn:Etr.
      + rewrite snd_then_call, setSession_throws. split.
        * intros H. right. exists ms. split; [reflexivity|]. left.
          split; [exact Et|]. rewrite Eid.
          destruct tid; first [exact H|discriminate Etr].
        * intros [H|(ms' & [= <-] & [[_ H]|[H _]])];
            [discriminate H| |congruence].
          rewrite Eid in H. destruct tid; first [exact H|contradiction].
      + cbn. split; [intros [t' H]; discriminate H|].
        intros [H|(ms' & [= <-] & [[_ H]|[H _]])];
          [discriminate H| |congruence].
        rewrite Eid in H. destruct tid; try contradiction;
          discriminate Etr.
    - cbn. split; [intros [t' H]; discriminate H|].
      intros [H|(ms' & [= <-] & [[_ H]|[H _]])];
        [discriminate H| |congruence].
      rewrite Eid in H. contradiction. }
  cbn [andb].
  destruct (String.eqb_spec ty "item.started") as [->|Hst].
  { apply Hnone;
      [intros s' [= <-]; split; discriminate|].
    split; [|tauto]. intros [t' H]. revert H. cbn.
    repeat match goal with
           | |- context [if ?c then _ else _] => destruct c
           end; discriminate. }
  cbn [andb].
  destruct (String.eqb_spec ty "item.completed") as [->|Hic].
  { unfold opt_prop. cbn [prop].
    destruct (get_member "item" ms) as [[| | | | |item]|] eqn:Eitem;
      cbn [prop is_string];
      try (split; [intros [t' H]; discriminate H|];
           intros [H|(ms' & [= <-] & [[H _]|[_ H]])];
           [discriminate H|congruence|];
           rewrite Eitem in H; exact (False_ind _ H)).
    destruct (get_member "type" item) as [[| | |ity| |]|] eqn:Eity;
      cbn [is_string];
      try (split; [intros [t' H]; discriminate H|];
           intros [H|(ms' & [= <-] & [[H _]|[_ H]])];
           [discriminate H|congruence|];
           rewrite Eitem, Eity in H; destruct H as [H _];
           discriminate H).
    destruct (String.eqb_spec ity "agent_message") as [->|Ham].
    - rewrite snd_then_call, toString_or_empty_throws. split.
      + intros H. right. exists ms. split; [reflexivity|]. right.
        split; [exact Et|]. rewrite Eitem, Eity.
        split; [reflexivity|].
        destruct (get_member "text" item); exact H.
      + intros [H|(ms' & [= <-] & [[H _]|[_ H]])];
          [discriminate H|congruence|].
        rewrite Eitem in H. destruct H as [_ H].
        destruct (get_member "text" item); exact H.
    - split.
      + intros [t' H]. exfalso. revert H.
        repeat match goal with
               | |- context [if ?c then _ else _] => destruct c
               end; discriminate.
      + intros [H|(ms' & [= <-] & [[H _]|[_ H]])];
          [discriminate H|congruence|].
        rewrite Eitem, Eity in H. destruct H as [[= H] _]. congruence. }
  apply Hnone; [intros s' [= <-]; split; assumption|].
  split; [|tauto]. intros [t' H]. revert H.
  destruct (String.eqb ty "turn.completed"); discriminate.
Qed.

(** A line that is read is reported by the [catch] exactly when its
    dispatch throws. *)
Lemma reported_iff_thrown p line v :
  parse line = Some v ->
  In (Malformed line) (line_events p line)
  <-> exists t,
        snd (match p with
             | Shell.claude => dispatch_claude v
             | Shell.codex => dispatch_codex v
             end) = inl t.
Proof.
  intros Hparse. unfold line_events, body, try_block.
  rewrite (parse_nonblank line v Hparse), Hparse.
  destruct p;
    [pose proof (dispatch_claude_events v line) as Hev;
     destruct (dispatch_claude v) as [es [t|[]]]
    |pose proof (dispatch_codex_events v line) as Hev;
     destruct (dispatch_codex v) as [es [t|[]]]];
    cbn [fst snd try_catch call] in *;
    first [split; [eauto|]; intros _; apply in_or_app; right; left;
           reflexivity
          |split; [intros H; contradiction|intros [t H]; discriminate H]].
Qed.

End StreamFacts.

(** [X14] The message for a line that cannot be parsed is also printed for
    lines that [JSON.parse] reads, because the dispatch of the record is
    inside the same [try].  For a line that is read as a value [v] (a line
    without escapes for code units above 255): in the Codex loop exactly
    when [v] is [null], a [thread.started] record whose thread id is an
    array or an object, which the store cannot bind, or a completed
    [agent_message] item whose text [String] cannot convert (an object
    with a member [toString], or an array that holds one); in the Claude
    loop
    exactly when [v] is [null], an [assistant] or [user] record whose
    [message] is missing or [null], or a [system] record whose session id
    is missing, [null], an array or an object, which the store refuses.
    Every other line that is read is handed on or passed over without
    that message. *)
Theorem valid_json_reported_as_parse_error (line : string) (v : Json.json) :
  Json.parse line = Some v ->
  (In (Stream.Malformed line) (Stream.line_events Shell.codex line)
   <-> v = Json.JNull
       \/ exists ms,
            v = Json.JObject ms
            /\ (Json.get_member "type" ms
                = Some (Json.JString "thread.started")
                /\ match Json.get_member "thread_id" ms with
                   | Some (Json.JArray _) | Some (Json.JObject _) => True
                   | _ => False
                   end
                \/ Json.get_member "type" ms
                   = Some (Json.JString "item.completed")
                   /\ match Json.get_member "item" ms with
                      | Some (Json.JObject item) =>
                          Json.get_member "type" item
                          = Some (Json.JString "agent_message")
                          /\ match Json.get_member "text" item with
                             | Some text => Json.printable text = false
                             | None => False
                             end
                      | _ => False
                      end))
  /\ (In (Stream.Malformed line) (Stream.line_events Shell.claude line)
      <-> v = Json.JNull
          \/ exists ms,
               v = Json.JObject ms
               /\ ((Json.get_member "type" ms
                    = Some (Json.JString "assistant")
                    \/ Json.get_member "type" ms
                       = Some (Json.JString "user"))
                   /\ (Json.get_member "message" ms = None
                       \/ Json.get_member "message" ms = Some Json.JNull)
                   \/ Json.get_member "type" ms
                      = Some (Json.JString "system")
                      /\ match Json.get_member "session_id" ms with
                         | None | Some Json.JNull | Some (Json.JArray _)
                         | Some (Json.JObject _) => True
                         | _ => False
                         end)).
Proof.
  intros Hparse. split.
  - rewrite (reported_iff_thrown Shell.codex line v Hparse).
    apply dispatch_codex_throws.
  - rewrite (reported_iff_thrown Shell.claude line v Hparse).
    apply dispatch_claude_throws.
Qed.

Lemma valid_json_reported_as_parse_error_witness :
  In (Stream.Malformed (Js.bq "{`type`:`system`,`subtype`:`init`}"))
    (Stream.line_events Shell.claude
       (Js.bq "{`type`:`system`,`subtype`:`init`}")).
Proof.
  apply (proj2 (valid_json_reported_as_parse_error
                  (Js.bq "{`type`:`system`,`subtype`:`init`}")
                  (Json.JObject [("type", Json.JString "system");
                                 ("subtype", Json.JString "init")])
                  eq_refl)).
  right. eexists. split; [reflexivity|]. right.
  split; [reflexivity|exact I].
Defined.


Section LastLine.

Lemma split_at c a b :
  Js.split c (a +:+ String c b) = Js.split c a ++ Js.split c b.
Proof.
  induction a as [|d a IH]; simpl; [rewrite Ascii.eqb_refl; reflexivity|].
  rewrite IH. destruct (Ascii.eqb d c); [reflexivity|].
  pose proof (split_nonempty c a).
  destruct (Js.split c a); [congruence|reflexivity].
Qed.

Lemma split_without c s :
  forallb (fun d => negb (Ascii.eqb d c)) (list_ascii_of_string s) = true ->
  Js.split c s = [s].
Proof.
  induction s as [|d s IH]; simpl; [reflexivity|].
  intros [Hd Hs]%andb_prop. apply negb_true_iff in Hd.
  rewrite Hd, IH by exact Hs. reflexivity.
Qed.

End LastLine.

(** [X15] Only what ends in a newline is handled: when the output of the
    process is a text, a newline and a rest without a newline, the lines
    handed to the loop are the lines of the text, and the rest stays in the
    buffer, however the output was cut into chunks.  A last record that the
    process writes without a newline after it is not parsed. *)
Theorem unterminated_line_is_not_handled
    (p : Shell.Provider) (chunks : list string) (text rest : string) :
  Framer.output chunks = text +:+ Js.LF +:+ rest ->
  forallb (fun c => negb (Ascii.eqb c Js.nl)) (list_ascii_of_string rest)
  = true ->
  Framer.run chunks = (Js.split Js.nl text, rest)
  /\ Stream.stream_events p chunks
     = Stream.lines_events p (Js.split Js.nl text).
Proof.
  intros Hout Hrest.
  assert (Hrun : Framer.run chunks = (Js.split Js.nl text, rest)).
  { rewrite run_whole, Hout. unfold Framer.framed.
    change (text +:+ Js.LF +:+ rest) with (text +:+ String Js.nl rest).
    rewrite split_at, (split_without Js.nl rest Hrest).
    rewrite removelast_app_ne, last_app_ne by discriminate.
    cbn [removelast List.last]. rewrite app_nil_r. reflexivity. }
  split; [exact Hrun|].
  unfold Stream.stream_events. rewrite Hrun. reflexivity.
Qed.

Lemma unterminated_line_is_not_handled_witness :
  Stream.stream_events Shell.codex
    [Js.bq "{`type`:`turn."; Js.bq "completed`}" +:+ Js.LF;
     Js.bq "{`type`:`turn.completed`}"]
  = [Stream.Dispatched Stream.CodexTurnCompleted
       (Json.JObject [("type", Json.JString "turn.completed")])].
Proof.
  etransitivity;
    [exact (proj2 (unterminated_line_is_not_handled Shell.codex
                     [Js.bq "{`type`:`turn."; Js.bq "completed`}" +:+ Js.LF;
                      Js.bq "{`type`:`turn.completed`}"]
                     (Js.bq "{`type`:`turn.completed`}")
                     (Js.bq "{`type`:`turn.completed`}")
                     eq_refl eq_refl))
    |reflexivity].
Defined.
(** ** Paths in tool calls and the files of attachments *)

Section FormatFacts.
Import Path.

Lemma replace_prefix p by_ rest :
  Format.replace p by_ (p +:+ rest) = by_ +:+ rest.
Proof.
  destruct (p +:+ rest) eqn:E; unfold Format.replace;
    fold Format.replace; rewrite <- E, startsWith_app.
  - f_equal. clear E. induction p; [reflexivity|assumption].
  - f_equal. clear E. induction p; [reflexivity|assumption].
Qed.

Lemma append_eq_length a b : a +:+ b = a -> b = "".
Proof.
  intros H. apply (f_equal String.length) in H.
  rewrite length_append in H. destruct b; [reflexivity|simpl in H; lia].
Qed.

Lemma startsWith_first a b c s t :
  Ascii.eqb b c = false ->
  Text.startsWith (a +:+ String b s) (a +:+ String c t) = false.
Proof.
  intros H. rewrite startsWith_app_same. simpl. rewrite H. reflexivity.
Qed.

Lemma eqb_first a b c s t :
  Ascii.eqb b c = false ->
  String.eqb (a +:+ String c t) (a +:+ String b s) = false.
Proof.
  intros H. apply String.eqb_neq. intros E.
  induction a as [|x a IH]; simpl in E.
  - injection E as E1 _. subst. rewrite Ascii.eqb_refl in H. discriminate.
  - injection E as E. exact (IH E).
Qed.

(** [path.join] of a base folder written with a separator at its end. *)
Lemma join_trailing_base segs name :
  Forall (fun s => plain s = true) segs -> plain name = true ->
  join [absolute segs +:+ "/"; name] = absolute (segs ++ [name]).
Proof.
  intros Hs Hn. unfold join.
  assert (Ht : Js.truthy (absolute segs +:+ "/") = true) by reflexivity.
  cbn [List.filter]. rewrite Ht, (plain_truthy name Hn).
  change (Js.join "/" [absolute segs +:+ "/"; name])
    with ((absolute segs +:+ "/") +:+ String sep name).
  rewrite append_assoc.
  change ("/" +:+ String sep name) with (String sep (String sep name)).
  rewrite normalize_absolute;
    [|exact Hs|discriminate
     |change (String sep name) with ("" +:+ String sep name);
      rewrite trailingSeparator_app;
      pose proof (plain_no_trailing name Hn);
      pose proof (plain_nonempty name Hn);
      destruct name; [congruence|assumption]].
  change (String sep name) with ("" +:+ String sep name).
  rewrite split_sep_app, (split_nosep name) by (by apply plain_nosep).
  change (resolve false (rev segs) (Js.split sep "" ++ [name]))
    with (resolve false (rev segs) [name]).
  rewrite (plain_resolve false name) by exact Hn.
  cbn [resolve rev]. rewrite rev_involutive.
  unfold absolute. destruct (Js.join "/" (segs ++ [name])); reflexivity.
Qed.

End FormatFacts.

(** [X16] The shortening of the paths shown in tool calls compares them
    with the base folder and the folder name written one after the other,
    without a separator.  With a base folder that ends in a separator this
    is the working directory: the working directory is shown as [.] and a
    path below it with [./] in its place.  With a base folder written
    without one, no path in the working directory is shortened. *)
Theorem cleanPath_needs_trailing_separator
    (segs : list string) (name rest : string)
    (Hsegs : Forall (fun seg => Path.plain seg = true) segs)
    (Hne : segs <> [])
    (Hname : Path.plain name = true)
    (Hrest : rest = "" \/ Text.startsWith "/" rest = true) :
  let base := Path.absolute segs in
  let workingDir := Path.join [base; name] in
  Path.join [base +:+ "/"; name] = workingDir
  /\ Format.cleanPath (Format.basePath (base +:+ "/") (Some name))
       (workingDir +:+ rest)
     = "." +:+ rest
  /\ Format.cleanPath (Format.basePath base (Some name)) (workingDir +:+ rest)
     = workingDir +:+ rest.
Proof.
  intros base workingDir.
  assert (Hwd : workingDir = base +:+ "/" +:+ name).
  { subst workingDir base. rewrite join_plain, absolute_snoc by assumption.
    reflexivity. }
  pose proof (plain_truthy name Hname) as Ht.
  split; [|split].
  - subst workingDir base. rewrite join_trailing_base, join_plain by assumption.
    reflexivity.
  - unfold Format.basePath. rewrite Ht, append_assoc, <- Hwd.
    unfold Format.cleanPath.
    assert (Htw : Js.truthy workingDir = true) by (rewrite Hwd; reflexivity).
    rewrite Htw. cbn [andb].
    destruct Hrest as [-> | Hr].
    + rewrite append_empty_r, String.eqb_refl. reflexivity.
    + destruct rest as [|c rest]; [discriminate|].
      cbn [Text.startsWith] in Hr. apply andb_prop in Hr as [Hc _].
      apply Ascii.eqb_eq in Hc. subst c.
      replace (String.eqb (workingDir +:+ String "/" rest) workingDir)
        with false
        by (symmetry; apply String.eqb_neq; intros E;
            apply append_eq_length in E; discriminate).
      change (workingDir +:+ String "/" rest)
        with (workingDir +:+ ("/" +:+ rest)).
      rewrite <- append_assoc, startsWith_app, replace_prefix. reflexivity.
  - unfold Format.basePath. rewrite Ht. unfold Format.cleanPath.
    destruct name as [|n name]; [discriminate|].
    assert (Hn : Ascii.eqb n "/" = false).
    { apply plain_nosep in Hname. unfold Path.nosep in Hname.
      cbn [list_ascii_of_string forallb] in Hname.
      apply andb_prop in Hname as [Hn _]. apply negb_true_iff, Hn. }
    rewrite Hwd.
    change (base +:+ "/" +:+ String n name)
      with (base +:+ String "/" (String n name)).
    rewrite append_assoc.
    change (String "/" (String n name) +:+ rest)
      with (String "/" (String n name +:+ rest)).
    rewrite (eqb_first base n "/") by exact Hn.
    rewrite (append_assoc base (String n name) "/").
    change (String n name +:+ "/") with (String n (name +:+ "/")).
    rewrite (startsWith_first base n "/") by exact Hn.
    rewrite !andb_false_r. reflexivity.
Qed.

Lemma cleanPath_needs_trailing_separator_witness :
  Format.cleanPath (Format.basePath "/srv/" (Some "app")) "/srv/app/src/a.ts"
  = "./src/a.ts"
  /\ Format.cleanPath (Format.basePath "/srv" (Some "app")) "/srv/app/src/a.ts"
     = "/srv/app/src/a.ts".
Proof.
  refine (proj2 (cleanPath_needs_trailing_separator ["srv"] "app" "/src/a.ts"
                   _ _ _ _)).
  - repeat constructor.
  - discriminate.
  - reflexivity.
  - right. reflexivity.
Defined.

Section AttachmentFacts.
Import Path Attachments.

Lemma uint_digits (d : Decimal.uint) :
  forallb Js.is_digit
    (list_ascii_of_string (DecimalString.NilEmpty.string_of_uint d)) = true.
Proof. induction d; simpl; try reflexivity; assumption. Qed.

Lemma digits_nosep s :
  forallb Js.is_digit (list_ascii_of_string s) = true -> nosep s = true.
Proof.
  unfold nosep. induction s as [|c s IH]; [reflexivity|].
  simpl. intros [Hc Hs]%andb_prop. rewrite IH by exact Hs.
  destruct c as [[] [] [] [] [] [] [] []]; try reflexivity; discriminate.
Qed.

Lemma decimal_nosep n : nosep (decimal n) = true.
Proof. apply digits_nosep, uint_digits. Qed.

Lemma decimal_first n :
  exists d r, decimal n = String d r /\ Js.is_digit d = true.
Proof.
  unfold decimal.
  assert (Hn : N.to_uint n <> Decimal.Nil).
  { destruct n; [discriminate|apply DecimalPos.Unsigned.to_uint_nonnil]. }
  destruct (N.to_uint n); try congruence; simpl;
    eexists _, _; (split; reflexivity).
Qed.

Lemma sanitize_nosep name : nosep (sanitize name) = true.
Proof.
  unfold nosep. induction name as [|c name IH]; [reflexivity|].
  simpl. rewrite IH.
  destruct c as [[] [] [] [] [] [] [] []]; reflexivity.
Qed.

Lemma file_name_plain timestamp channelId name index :
  nosep channelId = true ->
  plain (file_name timestamp channelId name index) = true.
Proof.
  intros Hc. apply plain_iff. unfold file_name.
  destruct (decimal_first timestamp) as (d & r & E & Hd).
  assert (Hns : nosep (decimal timestamp +:+ "-" +:+ channelId +:+ "-"
                       +:+ decimal index +:+ "-" +:+ sanitize name) = true).
  { rewrite !nosep_app, !decimal_nosep, Hc, sanitize_nosep. reflexivity. }
  rewrite E in *.
  repeat split; try discriminate; try exact Hns;
    intros [= -> _]; discriminate.
Qed.

End AttachmentFacts.

(** [X17] The file of a downloaded attachment is a file of the attachment
    directory itself, whatever the attachment is called: every character of
    its name that could lead elsewhere is replaced, and the name is not
    used on its own.  The channel id is put into the file name as it is;
    the statement is for one without a separator, as the ids of channels
    are. *)
Theorem attachment_path_in_directory
    (segs : list string) (timestamp index : N) (channelId name : string)
    (Hsegs : Forall (fun seg => Path.plain seg = true) segs)
    (Hchannel : Path.nosep channelId = true) :
  let dir := Path.absolute (segs ++ ["claude-discord-attachments"]) in
  let file := Attachments.file_name timestamp channelId name index in
  Attachments.ATTACHMENT_DIR (Path.absolute segs) = dir
  /\ Attachments.getTempPath (Path.absolute segs) timestamp channelId name
       index
     = dir +:+ "/" +:+ file
  /\ Path.nosep file = true
  /\ String.length (Attachments.sanitize name) = String.length name.
Proof.
  intros dir file.
  assert (Hdir : Attachments.ATTACHMENT_DIR (Path.absolute segs) = dir)
    by (apply join_plain; [exact Hsegs|reflexivity]).
  pose proof (file_name_plain timestamp channelId name index Hchannel) as Hf.
  split; [exact Hdir|]. split; [|split].
  - unfold Attachments.getTempPath. rewrite Hdir. subst dir.
    rewrite join_plain;
      [|apply List.Forall_app; split;
        [exact Hsegs|constructor; [reflexivity|constructor]]
       |exact Hf].
    rewrite absolute_snoc by (destruct segs; discriminate). reflexivity.
  - by apply plain_nosep.
  - clear. induction name as [|c name IH]; [reflexivity|].
    cbn [Attachments.sanitize String.length]. f_equal. exact IH.
Qed.

Lemma attachment_path_in_directory_witness :
  Attachments.getTempPath "/tmp" 1730000000000 "1234" "../../etc/pass wd" 0
  = "/tmp/claude-discord-attachments/1730000000000-1234-0-.._.._etc_pass_wd".
Proof.
  refine (proj1 (proj2
    (attachment_path_in_directory ["tmp"] 1730000000000 0 "1234"
       "../../etc/pass wd" _ _))).
  - repeat constructor.
  - reflexivity.
Defined.
(** ** What is shown of the result of a tool *)

Section ExcerptFacts.
Import Manager.

Lemma split_pieces s : Forall (fun t => Json.one_line t = true) (Js.split Js.nl s).
Proof.
  induction s as [|d s IH]; simpl; [repeat constructor|].
  destruct (Ascii.eqb d Js.nl) eqn:E.
  - constructor; [reflexivity|exact IH].
  - pose proof (split_nonempty Js.nl s).
    destruct (Js.split Js.nl s) as [|p ps]; [congruence|].
    inversion IH; subst. constructor; [|assumption].
    simpl. rewrite E. assumption.
Qed.

Lemma first_line_one_line text : Json.one_line (first_line text) = true.
Proof.
  unfold first_line. pose proof (split_pieces text) as H.
  destruct (Js.split Js.nl text); [reflexivity|].
  inversion H; assumption.
Qed.

Lemma trimStart_one_line t :
  Json.one_line t = true -> Json.one_line (Js.trimStart t) = true.
Proof.
  induction t as [|c t IH]; [reflexivity|].
  intros H. simpl. destruct (Js.is_space c); [|exact H].
  simpl in H. apply andb_prop in H as [_ H]. exact (IH H).
Qed.

Lemma trimEnd_one_line t :
  Json.one_line t = true -> Json.one_line (Js.trimEnd t) = true.
Proof.
  induction t as [|c t IH]; [reflexivity|].
  intros H. simpl in H. apply andb_prop in H as [Hc H].
  specialize (IH H). simpl.
  destruct (Js.trimEnd t) as [|d u].
  - destruct (Js.is_space c); [reflexivity|].
    simpl. rewrite Hc. reflexivity.
  - change (negb (Ascii.eqb c Js.nl) && Json.one_line (String d u) = true).
    rewrite Hc. exact IH.
Qed.

Lemma trim_one_line t :
  Json.one_line t = true -> Json.one_line (Js.trim t) = true.
Proof. intros H. apply trimEnd_one_line, trimStart_one_line, H. Qed.

Lemma take_one_line n : forall t,
  Json.one_line t = true -> Json.one_line (Js.take n t) = true.
Proof.
  induction n as [|n IH]; intros [|c t] H; try reflexivity.
  simpl in H. apply andb_prop in H as [Hc H].
  change (negb (Ascii.eqb c Js.nl) && Json.one_line (Js.take n t) = true).
  rewrite Hc. exact (IH t H).
Qed.

Lemma shorten_short limit line :
  Json.one_line line = true ->
  String.length (shorten limit line) <= limit + 3
  /\ Json.one_line (shorten limit line) = true.
Proof.
  intros H. unfold shorten.
  destruct (limit <? String.length line)%nat eqn:E.
  - split.
    + rewrite length_append. pose proof (take_length limit line).
      simpl. lia.
    + rewrite one_line_app, take_one_line by exact H. reflexivity.
  - apply Nat.ltb_ge in E. split; [lia|exact H].
Qed.

(** What [update_tool_result] does: nothing, a message of an error, or
    the edit of a message with a short text of one line. *)
Lemma update_tool_result_exec toolCalls r s :
  exists effs,
    exec (update_tool_result toolCalls r) s
    = upd_effects (fun l => l ++ effs) s
    /\ Forall (fun e =>
                 match e with
                 | Edit _ (ToolResultEmbed _ _ text) =>
                     String.length text <= 103
                     /\ Json.one_line text = true
                 | ConsoleError _ => True
                 | _ => False
                 end) effs.
Proof.
  unfold update_tool_result.
  destruct (toolCalls !! tool_use_id r) as [[[m|] tid]|].
  - destruct (result_content r) as [| | |text| |];
      destruct (msg_embeds m) as [|e es];
      try (eexists [ConsoleError _]; split;
           [reflexivity|repeat constructor]).
    eexists [Edit _ _]. split; [reflexivity|].
    constructor; [|constructor].
    apply (shorten_short 100), trim_one_line, first_line_one_line.
  - exists []. split; [|constructor].
    unfold exec, skip, mret, M_ret, upd_effects. cbn.
    rewrite app_nil_r. destruct s; reflexivity.
  - exists []. split; [|constructor].
    unfold exec, skip, mret, M_ret, upd_effects. cbn.
    rewrite app_nil_r. destruct s; reflexivity.
Qed.

Lemma for_each_effects {A} (P : Effect -> Prop) (body : A -> M unit) xs :
  (forall x s, exists effs,
      exec (body x) s = upd_effects (fun l => l ++ effs) s
      /\ Forall P effs) ->
  forall s, exists effs,
    exec (for_each xs body) s = upd_effects (fun l => l ++ effs) s
    /\ Forall P effs.
Proof.
  intros Hbody. induction xs as [|x xs IH]; intros s.
  - exists []. split; [|constructor].
    unfold exec, skip, mret, M_ret, upd_effects. cbn.
    rewrite app_nil_r. destruct s; reflexivity.
  - destruct (Hbody x s) as (e1 & H1 & P1).
    destruct (IH (upd_effects (fun l => l ++ e1) s)) as (e2 & H2 & P2).
    exists (e1 ++ e2). split; [|by apply List.Forall_app].
    cbn [for_each]. rewrite exec_bind, H1, H2.
    unfold upd_effects. cbn. rewrite app_assoc. reflexivity.
Qed.

Lemma handleCodexCommandComplete_effects channelId item s :
  Forall (fun e =>
            match e with
            | Edit _ (CommandResultEmbed _ _ text)
            | Send _ {| msg_embeds := [CommandDoneEmbed _ _ text] |} =>
                String.length text <= 123 /\ Json.one_line text = true
            | ConsoleError _ => True
            | _ => False
            end)
    (done_by (handleCodexCommandComplete channelId item) s).
Proof.
  pose proof (shorten_short 120
                (first_line (Js.trim (item_aggregated_output item)))
                (first_line_one_line _)) as Hshort.
  unfold handleCodexCommandComplete.
  unfold done_by, exec, eval, skip, emit, modify, gets, send, edit;
    unfold mbind, M_bind, mret, M_ret.
  destruct (channel_of s channelId) as [ch|]; cbn;
    [|rewrite drop_all; constructor].
  destruct (tool_calls s channelId !! item_id item)
    as [[[[i c [|e es]]|] tid]|]; cbn;
    rewrite drop_app_length;
    (constructor; [|constructor]); first [exact Hshort|exact I].
Qed.

End ExcerptFacts.

(** [X18] Whatever a tool or a command has printed, what is shown of it is
    one line and short.  The handling of a message of tool results sends
    nothing new: it edits messages of recorded tool calls, each time with a
    text of one line and of at most 103 characters (100 of the first line
    of the result and three dots), or prints an error.  The handling of a
    completed Codex command edits or sends one message with a text of one
    line and of at most 123 characters. *)
Theorem shown_results_are_short
    (channelId : string) (toolResults : list Manager.ToolResult)
    (item : Manager.CodexItem) (s : Manager.State) :
  Forall (fun e =>
            match e with
            | Manager.Edit _ (Manager.ToolResultEmbed _ _ text) =>
                String.length text <= 103 /\ Json.one_line text = true
            | Manager.ConsoleError _ => True
            | _ => False
            end)
    (Manager.done_by (Manager.handleToolResultMessage channelId toolResults) s)
  /\ Forall (fun e =>
               match e with
               | Manager.Edit _ (Manager.CommandResultEmbed _ _ text)
               | Manager.Send _
                   {| Manager.msg_embeds :=
                        [Manager.CommandDoneEmbed _ _ text] |} =>
                   String.length text <= 123 /\ Json.one_line text = true
               | Manager.ConsoleError _ => True
               | _ => False
               end)
       (Manager.done_by (Manager.handleCodexCommandComplete channelId item) s).
Proof.
  split; [|apply handleCodexCommandComplete_effects].
  unfold Manager.handleToolResultMessage.
  destruct toolResults as [|r rs].
  - unfold Manager.done_by, Manager.exec, Manager.skip, mret, Manager.M_ret.
    cbn. rewrite drop_all. constructor.
  - destruct (for_each_effects _
                (Manager.update_tool_result (Manager.tool_calls s channelId))
                (r :: rs)
                (update_tool_result_exec (Manager.tool_calls s channelId))
                s) as (effs & He & HP).
    rewrite (done_by_app _ s effs); [exact HP|].
    transitivity
      (Manager.effects
         (Manager.exec
            (Manager.for_each (r :: rs)
               (Manager.update_tool_result (Manager.tool_calls s channelId)))
            s)); [reflexivity|].
    rewrite He. reflexivity.
Qed.
(** ** From the result of a run to the next run *)

Section ResumeFacts.
Import Manager.

#[local] Arguments existsSync : simpl never.
#[local] Arguments path_join : simpl never.

Lemma runClaudeCode_effects base mcp channelId name prompt sid s :
  let workingDir :=
    path_join base (folder_name (getPath s channelId) name) in
  existsSync s workingDir = true ->
  getProvider s channelId = claude ->
  effects (exec (runClaudeCode base mcp channelId name prompt sid) s)
  = effects s
    ++ [Spawn (next_pid s)
          (Shell.buildClaudeCommand workingDir prompt sid mcp
             (getMode s channelId) (model_name (getModel s channelId)));
        StdinEnd (next_pid s); SetTimeout (next_pid s) 300000%N].
Proof.
  intros workingDir Hd Hp.
  unfold runClaudeCode, runCodex, spawn, arm_timer. run_command. cbn.
  rewrite Hp. cbn. fold workingDir.
  change (existsSync _ workingDir) with (existsSync s workingDir).
  rewrite Hd. cbn.
  rewrite <- !app_assoc. reflexivity.
Qed.

(** What the handling of a result leaves when it resolves. *)
Lemma on_result_state channelId p r sid s :
  result_session_id r = Some sid ->
  eval (handleResultMessage channelId r) s = Resolved ->
  let s' := exec (on_result channelId p r) s in
  getSessionId s' channelId = Some sid
  /\ hasActiveProcess s' channelId = false
  /\ In (Kill p "SIGTERM") (effects s')
  /\ getPath s' = getPath s
  /\ (forall w, existsSync s' w = existsSync s w)
  /\ getProvider s' = getProvider s /\ getMode s' = getMode s
  /\ getModel s' = getModel s /\ next_pid s' = next_pid s.
Proof.
  intros Hsid. rewrite handleResultMessage_outcome, Hsid.
  unfold on_result, handleResultMessage, clearTimeout, db_setSession,
    getSessionId, db_getSession, hasActiveProcess.
  run_command. rewrite Hsid. cbn.
  change (channel_of _ channelId) with (channel_of s channelId).
  destruct (channel_of s channelId);
    [destruct (result_total_cost_usd r); [|discriminate]|]; intros _; cbn;
    rewrite lookup_insert_eq, lookup_delete_eq;
    (repeat split; try reflexivity);
    apply in_or_app; right; left; reflexivity.
Qed.

(** A run starts with its stdin ended: after the start of a run, the
    process of the channel's entry, if it has a stdin, has had it
    ended. *)
Lemma run_starts_with_stdin_ended cfg m sid reply s :
  let s' := exec (Bot.after_status_sent cfg m sid reply) s in
  forall p,
    stdin_of s' (Bot.in_channel m) = Some p -> In (StdinEnd p) (effects s').
Proof.
  cbv zeta. intros p. unfold Bot.after_status_sent. rewrite !exec_bind.
  set (s2 := exec (reserveChannel (Bot.in_channel m) sid reply)
               (exec (setDiscordMessage (Bot.in_channel m) reply) s)).
  assert (Hentry : channelProcesses s2 !! Bot.in_channel m
                   = Some {| process := None; sessionId := sid;
                             discordMessage := reply |}).
  { subst s2. rewrite reserveChannel_exec. cbn. apply lookup_insert_eq. }
  rewrite runClaudeCode_outcome.
  destruct (existsSync s2 _) eqn:Hd.
  - change (exec skip ?t) with t.
    unfold stdin_of. rewrite runClaudeCode_entry, Hd, lookup_alter_eq, Hentry.
    cbn. destruct (getProvider s2 (Bot.in_channel m)) eqn:Hp;
      [|discriminate].
    intros [= <-].
    rewrite runClaudeCode_effects by assumption.
    apply in_or_app. right. right. left. reflexivity.
  - rewrite !exec_bind, clearSession_exec. unfold send, stdin_of.
    unfold exec, mbind, M_bind, gets, modify, emit, mret, M_ret. cbn.
    rewrite lookup_delete_eq. discriminate.
Qed.

End ResumeFacts.

(** [X19] A session is taken up again: when the result of a Claude run has
    arrived and its handling resolves (the record has a session id that
    the store takes and, if the channel has a status message, a cost that
    can be shown), the next message in the channel starts a run whose
    command line carries the session id of that result as the session to
    resume, in [path.join] of the base folder and the folder of the
    channel.  The message is taken although the finished process has not
    closed yet: the handling of the result has sent it the signal and
    removed the entry of the channel. *)
Theorem result_session_is_resumed
    (cfg : Bot.Config) (bs : Bot.BotState) (p : nat) (i : Manager.ProcInfo)
    (r : Manager.ResultMessage) (sid : string) (m : Bot.Inbound)
    (Hopen : Bot.open_process (Bot.core bs) p = Some i)
    (Hprovider : Manager.proc_provider i = Shell.claude)
    (Hchannel : Manager.proc_channel i = Bot.in_channel m)
    (Hsid : Manager.result_session_id r = Some sid)
    (Hresolves : Manager.eval
                   (Manager.handleResultMessage (Bot.in_channel m) r)
                   (Bot.core bs)
                 = Manager.Resolved)
    (Hauthor : Bot.author_bot m = false
               /\ Bot.author_id m = Bot.allowedUserId cfg)
    (Hcontent : Bot.channel_name m <> "general"
                /\ Bot.starts_with_slash (Bot.in_content m) = false)
    (Hdir : Manager.existsSync (Bot.core bs)
              (Path.join
                 [Bot.baseFolder cfg;
                  Manager.folder_name
                    (Manager.getPath (Bot.core bs) (Bot.in_channel m))
                    (Bot.channel_name m)])
            = true)
    (Hclaude : Manager.getProvider (Bot.core bs) (Bot.in_channel m)
               = Shell.claude) :
  let s := Bot.core bs in
  let workingDir :=
    Path.join
      [Bot.baseFolder cfg;
       Manager.folder_name (Manager.getPath s (Bot.in_channel m))
         (Bot.channel_name m)] in
  let bs' :=
    Bot.run cfg bs
      [Bot.ResultLine p r; Bot.MessageCreate m;
       Bot.StatusSent (Bot.next_wait bs)] in
  In (Manager.Kill p "SIGTERM") (Manager.effects (Bot.core bs'))
  /\ In (Manager.Spawn (Manager.next_pid s)
           (Shell.buildClaudeCommand workingDir (Bot.in_prompt m)
              (Some sid) (Bot.mcpConfigPath cfg)
              (Manager.getMode s (Bot.in_channel m))
              (Manager.model_name (Manager.getModel s (Bot.in_channel m)))))
       (Manager.effects (Bot.core bs'))
  /\ Manager.entry_process (Bot.core bs') (Bot.in_channel m)
     = Some {| Manager.pid := Manager.next_pid s; Manager.stdin := true |}.
Proof.
  intros s workingDir bs'.
  destruct Hauthor as [Hbot Hauthor]. destruct Hcontent as [Hgeneral Hslash].
  change (Bot.core bs) with s in Hopen, Hdir, Hclaude, Hresolves.
  change (Path.join
            [Bot.baseFolder cfg;
             Manager.folder_name (Manager.getPath s (Bot.in_channel m))
               (Bot.channel_name m)])
    with (Manager.path_join (Bot.baseFolder cfg)
            (Manager.folder_name (Manager.getPath s (Bot.in_channel m))
               (Bot.channel_name m))) in Hdir, workingDir.
  set (c := Bot.in_channel m) in *.
  (* the result *)
  set (s1 := Manager.exec (Manager.on_result c p r) s).
  destruct (on_result_state c p r sid s Hsid Hresolves)
    as (Hsid1 & Hidle & Hkill & Hpath & Hdirs & Hprov & Hmode & Hmodel & Hpid).
  fold s1 in Hsid1, Hidle, Hkill, Hpath, Hdirs, Hprov, Hmode, Hmodel, Hpid.
  assert (H1 : Bot.step cfg bs (Bot.ResultLine p r) = Bot.with_core bs s1).
  { cbn [Bot.step]. fold s. rewrite Hopen, Hprovider, Hchannel. reflexivity. }
  (* the message *)
  set (sent := Manager.send c
                 (Manager.StatusEmbed (Some sid)
                    (Manager.provider_label
                       (Manager.getProvider s1 c))) s1).
  set (bs2 := Bot.suspend (Bot.with_core (Bot.with_core bs s1) (snd sent))
                (Bot.AwaitStatusSent m (Some sid) (fst sent))).
  assert (H2 : Bot.step cfg (Bot.with_core bs s1) (Bot.MessageCreate m) = bs2).
  { cbn [Bot.step]. unfold Bot.handleMessage.
    cbn [Bot.core Bot.with_core]. fold c.
    rewrite Hbot, Hauthor, String.eqb_refl, Hidle. cbn [negb].
    apply String.eqb_neq in Hgeneral. rewrite Hgeneral, Hslash.
    rewrite Hpath, Hdirs. fold s. rewrite Hdir.
    unfold Bot.begin_session. cbn [Bot.core Bot.with_core]. fold c.
    rewrite Hsid1. fold sent. subst bs2. destruct sent. reflexivity. }
  (* the run *)
  set (s2 := snd sent).
  assert (Hs2 : Manager.getPath s2 = Manager.getPath s
                /\ (forall w, Manager.existsSync s2 w = Manager.existsSync s w)
                /\ Manager.getProvider s2 = Manager.getProvider s
                /\ Manager.getMode s2 = Manager.getMode s
                /\ Manager.getModel s2 = Manager.getModel s
                /\ Manager.next_pid s2 = Manager.next_pid s
                /\ In (Manager.Kill p "SIGTERM") (Manager.effects s2)).
  { subst s2 sent. unfold Manager.send. run_command. cbn.
    rewrite <- Hpath, <- Hprov, <- Hmode, <- Hmodel, <- Hpid.
    repeat split; try reflexivity.
    - intros w. rewrite <- Hdirs. reflexivity.
    - apply in_or_app. left. exact Hkill. }
  destruct Hs2 as (Hpath2 & Hdirs2 & Hprov2 & Hmode2 & Hmodel2 & Hpid2 & Hkill2).
  set (s3 := Manager.exec
               (Manager.reserveChannel c (Some sid) (fst sent))
               (Manager.exec (Manager.setDiscordMessage c (fst sent)) s2)).
  assert (Hs3 : Manager.getPath s3 = Manager.getPath s
                /\ (forall w, Manager.existsSync s3 w = Manager.existsSync s w)
                /\ Manager.getProvider s3 = Manager.getProvider s
                /\ Manager.getMode s3 = Manager.getMode s
                /\ Manager.getModel s3 = Manager.getModel s
                /\ Manager.next_pid s3 = Manager.next_pid s
                /\ In (Manager.Kill p "SIGTERM") (Manager.effects s3)
                /\ is_Some (Manager.channelProcesses s3 !! c)).
  { subst s3. rewrite reserveChannel_exec. cbn.
    rewrite <- Hpath2, <- Hprov2, <- Hmode2, <- Hmodel2, <- Hpid2.
    repeat split; try reflexivity.
    - intros w. rewrite <- Hdirs2. reflexivity.
    - apply in_or_app. left. exact Hkill2.
    - rewrite lookup_insert_eq. eauto. }
  destruct Hs3 as (Hpath3 & Hdirs3 & Hprov3 & Hmode3 & Hmodel3 & Hpid3 & Hkill3
                   & Hentry3).
  set (run := Manager.runClaudeCode (Bot.baseFolder cfg)
                (Bot.mcpConfigPath cfg) c (Bot.channel_name m)
                (Bot.in_prompt m) (Some sid)).
  assert (Hdir3 : Manager.existsSync s3
                    (Manager.path_join (Bot.baseFolder cfg)
                       (Manager.folder_name (Manager.getPath s3 c)
                          (Bot.channel_name m))) = true).
  { rewrite Hpath3, Hdirs3. exact Hdir. }
  assert (Hdone : Manager.exec
                    (Bot.after_status_sent cfg m (Some sid) (fst sent)) s2
                  = Manager.exec run s3).
  { unfold Bot.after_status_sent. rewrite !exec_bind. fold c. fold s3.
    rewrite runClaudeCode_outcome, Hdir3. reflexivity. }
  assert (H3 : Bot.core
                 (Bot.step cfg bs2 (Bot.StatusSent (Bot.next_wait bs)))
               = Manager.exec run s3).
  { cbn [Bot.step]. subst bs2. unfold Bot.suspend.
    cbn [Bot.waiting Bot.next_wait Bot.with_core Bot.core].
    rewrite lookup_insert_eq. cbn [Bot.with_core Bot.core Bot.resume].
    fold s2. exact Hdone. }
  assert (Hcore : Bot.core bs' = Manager.exec run s3).
  { subst bs'. unfold Bot.run. cbn [fold_left]. rewrite H1, H2. exact H3. }
  rewrite Hcore.
  assert (Heff : Manager.effects (Manager.exec run s3)
                 = Manager.effects s3
                   ++ [Manager.Spawn (Manager.next_pid s)
                         (Shell.buildClaudeCommand workingDir (Bot.in_prompt m)
                            (Some sid)
                            (Bot.mcpConfigPath cfg) (Manager.getMode s c)
                            (Manager.model_name (Manager.getModel s c)));
                       Manager.StdinEnd (Manager.next_pid s);
                       Manager.SetTimeout (Manager.next_pid s) 300000%N]).
  { subst run. rewrite runClaudeCode_effects;
      [|exact Hdir3|rewrite Hprov3; exact Hclaude].
    rewrite Hpath3, Hmode3, Hmodel3, Hpid3. reflexivity. }
  split; [|split].
  - rewrite Heff. apply in_or_app. left. exact Hkill3.
  - rewrite Heff. apply in_or_app. right. left. reflexivity.
  - unfold Manager.entry_process. subst run.
    rewrite runClaudeCode_entry, Hdir3.
    rewrite lookup_alter_eq. destruct Hentry3 as [e ->]. cbn.
    rewrite Hprov3, Hclaude, Hpid3. reflexivity.
Qed.

Lemma result_session_is_resumed_witness :
  let cfg := {| Bot.allowedUserId := "u"; Bot.baseFolder := "/base/";
                Bot.mcpConfigPath := "/tmp/mcp.json" |} in
  let m := {| Bot.author_bot := false; Bot.author_id := "u";
              Bot.in_channel := "c"; Bot.in_channel_name := Some "proj";
              Bot.in_content := "go on"; Bot.in_prompt := "go on" |} in
  let r := {| Manager.result_session_id := Some "s-1";
              Manager.result_subtype := "success";
              Manager.result_num_turns := "1";
              Manager.result_total_cost_usd := Some "0.01";
              Manager.result_text := None |} in
  let bs := Bot.run cfg (Bot.initial {["/base/proj"]})
              [Bot.MessageCreate m; Bot.StatusSent 1] in
  In (Manager.Spawn 2
        (Shell.buildClaudeCommand "/base/proj" "go on" (Some "s-1")
           "/tmp/mcp.json" Shell.auto "sonnet"))
    (Manager.effects
       (Bot.core
          (Bot.run cfg bs
             [Bot.ResultLine 1 r; Bot.MessageCreate m; Bot.StatusSent 2]))).
Proof.
  intros cfg m r bs.
  refine (proj1 (proj2
    (result_session_is_resumed cfg bs 1
       {| Manager.proc_channel := "c"; Manager.proc_provider := Shell.claude;
          Manager.proc_closed := false; Manager.proc_timer := true |}
       r "s-1" m _ _ _ _ _ _ _ _ _))).
  - vm_compute. reflexivity.
  - reflexivity.
  - reflexivity.
  - reflexivity.
  - vm_compute. reflexivity.
  - split; reflexivity.
  - split; [discriminate|reflexivity].
  - vm_compute. reflexivity.
  - vm_compute. reflexivity.
Defined.
(** ** Whole characters, and the timer of a run *)

(** [X21] When every chunk of the output ends where a character ends, the
    lines that are framed are those of the decoded output as a whole, with
    the unfinished last line in the buffer: where the chunks end makes no
    difference then.  (A chunk that ends inside a character is decoded on
    its own, and this fails.) *)
Theorem whole_character_chunks_frame_the_output
    (chunks : list (list Byte.byte)) :
  forallb Utf8.whole_characters chunks = true ->
  Stdout.run chunks = Stdout.framed (Utf8.toString (Stdout.output chunks))
  /\ forall chunks',
       forallb Utf8.whole_characters chunks' = true ->
       Stdout.output chunks' = Stdout.output chunks ->
       Stdout.run chunks' = Stdout.run chunks.
Proof.
  intros H. split; [by apply run_whole_characters|].
  intros chunks' H' Hout.
  rewrite !run_whole_characters, Hout by assumption. reflexivity.
Qed.

Lemma whole_character_chunks_frame_the_output_witness :
  Stdout.run
    [[Byte.x7b; Byte.x22; Byte.x74; Byte.x22; Byte.x3a; Byte.x22];
     [Byte.xc3; Byte.xa9; Byte.x22; Byte.x7d; Byte.x0a; Byte.x7b]]
  = ([[123; 34; 116; 34; 58; 34; 233; 34; 125]%N], [123%N]).
Proof.
  etransitivity;
    [exact (proj1 (whole_character_chunks_frame_the_output
                     [[Byte.x7b; Byte.x22; Byte.x74; Byte.x22; Byte.x3a;
                       Byte.x22];
                      [Byte.xc3; Byte.xa9; Byte.x22; Byte.x7d; Byte.x0a;
                       Byte.x7b]] eq_refl))
    |vm_compute; reflexivity].
Defined.

(** [X22] The timer of a run only sends the signal: when it fires, the
    process is sent SIGTERM and the entry of the channel stays, so that
    every message that arrives in the channel is dropped, however many
    there are, until the process closes; its [close] then removes the
    entry. *)
Theorem timeout_keeps_channel_busy
    (cfg : Bot.Config) (bs : Bot.BotState) (p : nat) (i : Manager.ProcInfo)
    (code : option Z)
    (Hopen : Bot.open_process (Bot.core bs) p = Some i)
    (Htimer : Manager.proc_timer i = true)
    (Hbusy : Manager.hasActiveProcess (Bot.core bs) (Manager.proc_channel i)
             = true) :
  let bs' := Bot.step cfg bs (Bot.TimerFired p) in
  In (Manager.Kill p "SIGTERM") (Manager.effects (Bot.core bs'))
  /\ Manager.channelProcesses (Bot.core bs')
     = Manager.channelProcesses (Bot.core bs)
  /\ (forall messages,
        Forall (fun m => Bot.in_channel m = Manager.proc_channel i) messages ->
        Bot.run cfg bs' (List.map Bot.MessageCreate messages) = bs')
  /\ Manager.hasActiveProcess
       (Bot.core (Bot.step cfg bs' (Bot.ProcessClose p code)))
       (Manager.proc_channel i)
     = false.
Proof.
  intros bs'.
  assert (Hcore : Bot.core bs'
                  = Manager.exec
                      (Manager.on_timeout (Manager.proc_provider i)
                         (Manager.proc_channel i) p) (Bot.core bs)).
  { subst bs'. cbn [Bot.step]. rewrite Hopen, Htimer. reflexivity. }
  assert (Hstate :
    In (Manager.Kill p "SIGTERM") (Manager.effects (Bot.core bs'))
    /\ Manager.channelProcesses (Bot.core bs')
       = Manager.channelProcesses (Bot.core bs)
    /\ Manager.processes (Bot.core bs') = Manager.processes (Bot.core bs)).
  { rewrite Hcore. unfold Manager.on_timeout, Manager.send. run_command. cbn.
    destruct (Manager.channel_of _ _); cbn; (split; [|split; reflexivity]).
    - apply in_or_app. left. apply in_or_app. right. left. reflexivity.
    - apply in_or_app. right. left. reflexivity. }
  destruct Hstate as (Hkill & Hentries & Hprocs).
  assert (Hbusy' : Manager.hasActiveProcess (Bot.core bs')
                     (Manager.proc_channel i) = true).
  { unfold Manager.hasActiveProcess in *. rewrite Hentries. exact Hbusy. }
  split; [exact Hkill|]. split; [exact Hentries|]. split.
  - intros messages Hm. unfold Bot.run.
    induction Hm as [|m messages Hc _ IH]; [reflexivity|].
    cbn [List.map fold_left Bot.step].
    rewrite busy_channel_message_dropped by (rewrite Hc; exact Hbusy').
    exact IH.
  - cbn [Bot.step].
    assert (Hopen' : Bot.open_process (Bot.core bs') p = Some i).
    { unfold Bot.open_process in *. rewrite Hprocs. exact Hopen. }
    rewrite Hopen'. cbn [Bot.core Bot.with_core].
    unfold Manager.hasActiveProcess. rewrite exec_bind.
    unfold Bot.mark_closed.
    change (Manager.channelProcesses
              (Manager.exec (Manager.modify ?f) ?s))
      with (Manager.channelProcesses s).
    rewrite on_close_clears. reflexivity.
Qed.

Lemma timeout_keeps_channel_busy_witness :
  let cfg := {| Bot.allowedUserId := "u"; Bot.baseFolder := "/base";
                Bot.mcpConfigPath := "/tmp/mcp.json" |} in
  let m := {| Bot.author_bot := false; Bot.author_id := "u";
              Bot.in_channel := "c"; Bot.in_channel_name := Some "proj";
              Bot.in_content := "go"; Bot.in_prompt := "go" |} in
  let bs := Bot.run cfg (Bot.initial {["/base/proj"]})
              [Bot.MessageCreate m; Bot.StatusSent 1] in
  In (Manager.Kill 1 "SIGTERM")
    (Manager.effects (Bot.core (Bot.step cfg bs (Bot.TimerFired 1)))).
Proof.
  intros cfg m bs.
  refine (proj1
    (timeout_keeps_channel_busy cfg bs 1
       {| Manager.proc_channel := "c"; Manager.proc_provider := Shell.claude;
          Manager.proc_closed := false; Manager.proc_timer := true |}
       None _ _ _)).
  - vm_compute. reflexivity.
  - reflexivity.
  - vm_compute. reflexivity.
Defined.
